(** * Ai-Video-Downloader: job orchestration, progress events, cancellation

    A shallow embedding of the backend's orchestration layer:
    - [backend/downloader.py]: [progress_hook] and the worker
      [run_download_in_thread.download_task];
    - [backend/torrent_downloader.py]: [TorrentDownloader] with
      [add_torrent], [_monitor], [cancel_torrent], [get_status];
    - [backend/main.py]: [JobManager], [safe_hash_id], the endpoints
      [start_download], [cancel_download], [add_torrent],
      [cancel_torrent_download] and the closures [progress_sender],
      [watcher], [torrent_progress_callback].

    Threads are modelled by explicit state machines that advance on
    labelled actions, so that requests and the steps of the workers
    interleave freely; what the external engines (yt-dlp, libtorrent, the
    file system) answer is carried by the action that consumes it.

    Conventions of the model:
    - an event counts as sent when it is handed to [ws_manager.send],
      whether or not a subscriber is attached to the channel;
    - [add_history_entry] is an external collaborator: its calls are logged;
    - request bodies carry strings; integers are unbounded; the progress
      fraction of libtorrent and its rounded percentage are rationals;
    - an exception raised by a progress hook leaves [ydl.download]
      unchanged, as yt-dlp does for exceptions that are not its own. *)

From Stdlib Require Import ZArith QArith Qround String Ascii DecimalString List Lia Lqa.
From stdpp Require Import gmap strings list fin_maps sorting.

(** ** Python values that flow through the code *)

(** The values found in yt-dlp's progress dictionaries, as far as the code
    inspects them: [None], numbers and strings. *)
Inductive pyval :=
| PNone
| PInt (n : Z)
| PStr (s : string).

#[global] Instance pyval_eq_dec : EqDecision pyval.
Proof. solve_decision. Defined.

(** Python truthiness, as used by [a or b]. *)
Definition truthy (v : pyval) : bool :=
  match v with
  | PNone => false
  | PInt n => negb (n =? 0)%Z
  | PStr s => negb (String.eqb s "")
  end.

Definition py_or (a b : pyval) : pyval := if truthy a then a else b.

(** [d.get(k, dflt)] on a dictionary. *)
Definition dict_get (d : gmap string pyval) (k : string) (dflt : pyval) : pyval :=
  default dflt (d !! k).

(** [s[:n]] on a string. *)
Fixpoint string_take (n : nat) (s : string) : string :=
  match n, s with
  | S n', String c s' => String c (string_take n' s')
  | _, _ => EmptyString
  end.

(** [str(n)] for a non-negative integer. *)
Definition py_str_nat (n : N) : string := NilZero.string_of_uint (N.to_uint n).

(** *** Paths, as pathlib reads and prints them on a POSIX system *)

(** [p.split("/")]. *)
Fixpoint split_slash_from (acc : string) (p : string) : list string :=
  match p with
  | EmptyString => [acc]
  | String c p' =>
      if Ascii.eqb c "/"%char then acc :: split_slash_from EmptyString p'
      else split_slash_from (acc +:+ String c EmptyString) p'
  end.

Definition split_slash (p : string) : list string := split_slash_from EmptyString p.

(** A component pathlib keeps: neither empty nor a single dot. *)
Definition kept_component (c : string) : bool :=
  negb (String.eqb c "") && negb (String.eqb c ".").

(** The components of [Path(p)], root apart. *)
Definition path_parts (p : string) : list string :=
  List.filter kept_component (split_slash p).

(** The number of slashes [p] starts with. *)
Fixpoint leading_slashes (p : string) : nat :=
  match p with
  | String c p' => if Ascii.eqb c "/"%char then S (leading_slashes p') else 0
  | EmptyString => 0
  end.

(** The root of [Path(p)]: two slashes when [p] starts with exactly two,
    one slash when it starts with one or with three and more, none when
    [p] is relative. *)
Definition path_root (p : string) : string :=
  match leading_slashes p with
  | 0 => ""
  | 2 => "//"
  | _ => "/"
  end.

(** ["/".join(parts)]. *)
Fixpoint join_slash (parts : list string) : string :=
  match parts with
  | [] => ""
  | [c] => c
  | c :: rest => c +:+ "/" +:+ join_slash rest
  end.

(** [str] of the path with that root and those components. *)
Definition path_str (root : string) (parts : list string) : string :=
  match parts with
  | [] => if String.eqb root "" then "." else root
  | _ => root +:+ join_slash parts
  end.

(** [str(Path(dir) / name)]: an absolute [name] replaces [dir]; otherwise
    the components of [name] follow those of [dir]. *)
Definition path_join (dir name : string) : string :=
  if String.eqb (path_root name) ""
  then path_str (path_root dir) (path_parts dir ++ path_parts name)
  else path_str (path_root name) (path_parts name).

(** [Path(p).name]: the last component, or the empty string when there is
    none. *)
Definition path_name (p : string) : string := default "" (last (path_parts p)).

(** Rounding to the nearest integer, ties to even. *)
Definition round_half_even (q : Q) : Z :=
  let f := Qfloor q in
  match Qcompare (q - inject_Z f) (1 # 2) with
  | Lt => f
  | Gt => (f + 1)%Z
  | Eq => if Z.even f then f else (f + 1)%Z
  end.

(** [2^d <= a / b], for positive [a] and [b]. *)
Definition pow2_le_ratio (d a b : Z) : bool :=
  if (0 <=? d)%Z then (b * 2 ^ d <=? a)%Z else (b <=? a * 2 ^ (- d))%Z.

(** The binary exponent of [a / b] for positive [a] and [b]: the [L] with
    [2^L <= a / b < 2^(L+1)]. *)
Definition binade (a b : Z) : Z :=
  let d := (Z.log2 a - Z.log2 b)%Z in
  if pow2_le_ratio d a b then d else (d - 1)%Z.

(** [int(a / b)] for positive integers.  Python divides two ints into the
    double nearest to the exact quotient, ties going to the even
    significand: with [e = binade a b - 52] the quotient is rounded to a
    multiple of [2^e], which leaves 53 significant bits.  [int] then drops
    the fractional part.  Quotients of 64-bit integers are far from the
    overflow and underflow of doubles. *)
Definition int_of_quotient (a b : Z) : Z :=
  let e := (binade a b - 52)%Z in
  if (e <=? 0)%Z
  then (round_half_even (a * 2 ^ (- e) # Z.to_pos b) / 2 ^ (- e))%Z
  else (round_half_even (a # Z.to_pos (b * 2 ^ e)) * 2 ^ e)%Z.

(** [int(a / b)] for integers, [b] not zero: the double is rounded the
    same way on both sides of zero and [int] truncates towards zero. *)
Definition py_int_div (a b : Z) : Z :=
  (Z.sgn a * Z.sgn b * int_of_quotient (Z.abs a) (Z.abs b))%Z.

(** [round(x, 2)], with numbers read as rationals. *)
Definition py_round2 (x : Q) : Q := (inject_Z (round_half_even (x * 100)) / 100)%Q.

(** ** Progress messages *)

(** The dictionaries handed to the progress callbacks and to
    [ws_manager.send], one constructor per shape the code builds. *)
Inductive msg :=
| MsgCancelled                                   (* {'status': 'cancelled'} *)
| MsgError (error : string)                      (* {'status': 'error', 'error': ..} *)
| MsgMediaDownloading (downloaded_bytes total_bytes speed eta : pyval)
| MsgProcessing                                  (* {'status': 'processing', 'message': ..} *)
| MsgMediaFinished (final_path filename : string) (* download_task: status finished, result *)
| MsgWatcherFinished (final_name : option string) (* watcher: status finished, result.final_path *)
| MsgFetchingMetadata (peers : Z)
| MsgMetadata (name : string) (total_size num_files : Z)
| MsgTorrentDownloading (progress : Q)
    (download_rate upload_rate num_peers num_seeds eta : Z) (state : string)
| MsgTorrentFinished (save_path name : string)
| MsgCompleted (id file_path name : string)      (* {"event": "completed", ..}: no status key *)
| MsgToast (id save_path : string).             (* event torrent_completed, status finished *)

(** [m.get("status")]. *)
Definition msg_status (m : msg) : option string :=
  match m with
  | MsgCancelled => Some "cancelled"
  | MsgError _ => Some "error"
  | MsgMediaDownloading _ _ _ _ => Some "downloading"
  | MsgProcessing => Some "processing"
  | MsgMediaFinished _ _ => Some "finished"
  | MsgWatcherFinished _ => Some "finished"
  | MsgFetchingMetadata _ => Some "fetching_metadata"
  | MsgMetadata _ _ _ => Some "metadata"
  | MsgTorrentDownloading _ _ _ _ _ _ _ => Some "downloading"
  | MsgTorrentFinished _ _ => Some "finished"
  | MsgCompleted _ _ _ => None
  | MsgToast _ _ => Some "finished"
  end.

(** [m.get("save_path", "")]. *)
Definition msg_save_path (m : msg) : string :=
  match m with
  | MsgTorrentFinished save_path _ => save_path
  | MsgToast _ save_path => save_path
  | _ => ""
  end.

(** A terminal event carries status [finished], [cancelled] or [error]. *)
Definition is_terminal (m : msg) : bool :=
  match msg_status m with
  | Some s => String.eqb s "finished" || String.eqb s "cancelled" || String.eqb s "error"
  | None => false
  end.

(** ** threading.Event objects *)

(** Event objects live in a heap indexed by allocation order, so that the
    registry and a worker can hold the same object. *)
Module Event.
Abbreviation heap := (list bool).

Definition new (h : heap) : nat * heap := (length h, h ++ [false]).

Definition set (r : nat) (h : heap) : heap := <[r := true]> h.

Definition is_set (r : nat) (h : heap) : bool := default false (h !! r).
End Event.

(** ** backend/downloader.py *)

Module Downloader.

(** Outcome of one call of [progress_hook]: it raises, or it returns after
    passing the listed messages to the callback. *)
Inductive hook_result :=
| HookRaise (e : string)
| HookReturn (sent : list msg).

Definition progress_hook (d : gmap string pyval) (cancel_is_set : bool) : hook_result :=
  if cancel_is_set then HookRaise "Download cancelled"
  else
    match d !! "status" with
    | None => HookRaise "'status'"
    | Some st =>
        if decide (st = PStr "downloading") then
          let total := py_or (dict_get d "total_bytes" PNone)
                             (dict_get d "total_bytes_estimate" (PInt 0)) in
          let downloaded := dict_get d "downloaded_bytes" (PInt 0) in
          let speed := dict_get d "speed" (PInt 0) in
          let eta := dict_get d "eta" (PInt 0) in
          HookReturn [MsgMediaDownloading downloaded total speed eta]
        else if decide (st = PStr "finished") then HookReturn [MsgProcessing]
        else HookReturn []
    end.

(** Where the thread running [download_task] stands. *)
Inductive task_state :=
| Extracting                                     (* inside ydl.extract_info *)
| Transferring (stem : string) (ext : option string) (* inside ydl.download *)
| Exited.

(** What yt-dlp does next inside that thread. [ExtractOk stem ext]:
    [extract_info] returned an info dict with [Path(prepare_filename(info)).stem
    = stem]; [ext] is [None] when the dict has no key ['ext'], and [Some s]
    when it has one whose value the f-string of the file name renders as
    [s] (the text None for a null value). *)
Inductive ydl_step :=
| ExtractOk (stem : string) (ext : option string)
| ExtractRaise (e : string)
| Hook (d : gmap string pyval)
| DownloadOk
| DownloadRaise (e : string).

(** One step of [download_task]; the second component lists the messages
    passed to [progress_callback], in order. *)
Definition download_task (download_dir mode : string) (cancel_is_set : bool)
    (s : task_state) (y : ydl_step) : task_state * list msg :=
  match s, y with
  | Extracting, ExtractOk stem ext =>
      if cancel_is_set then (Exited, [MsgCancelled])
      else (Transferring stem ext, [])
  | Extracting, ExtractRaise e => (Exited, [MsgError e])
  | Transferring stem ext, Hook d =>
      match progress_hook d cancel_is_set with
      | HookRaise e => (Exited, [MsgError e])
      | HookReturn sent => (Transferring stem ext, sent)
      end
  | Transferring stem ext, DownloadOk =>
      let ext' := if String.eqb mode "audio" then "mp3" else default "mp4" ext in
      let final_filename := stem +:+ "." +:+ ext' in
      let final_path := path_join download_dir final_filename in
      (Exited, [MsgMediaFinished final_path final_filename])
  | Transferring _ _, DownloadRaise e => (Exited, [MsgError e])
  | _, _ => (s, [])
  end.

End Downloader.

(** ** backend/torrent_downloader.py *)

Module TorrentDownloader.

(** [handle.get_torrent_info()]. *)
Record torrent_info := {
  name : string;
  total_size : Z;
  num_files : Z;
}.

(** [handle.status()], with the fields the code reads; [state] stands for
    [str(s.state)] and [progress] for the fraction in [0, 1]. *)
Record torrent_status := {
  progress : Q;
  download_rate : Z;
  upload_rate : Z;
  num_peers : Z;
  num_seeds : Z;
  total_wanted : Z;
  total_wanted_done : Z;
  state : string;
}.

(** What the libtorrent handle answers at one iteration of the monitor. *)
Record handle_view := {
  has_metadata : bool;
  get_torrent_info : torrent_info;
  is_seed : bool;
  status : torrent_status;
}.

(** The manager object. [session] holds the handles registered in the
    libtorrent session; its settings are fixed at construction and play
    no part below. *)
Record t := {
  download_dir : string;
  session : gset nat;
  handles : gmap string nat;
  cancel_events : gmap string nat;
}.

(** [TorrentDownloader(download_dir)]. *)
Definition init (dir : string) : t :=
  {| download_dir := dir; session := ∅; handles := ∅; cancel_events := ∅ |}.

(** What libtorrent answers to [parse_magnet_uri] and
    [session.add_torrent]. *)
Inductive lt_answer :=
| ParseRaise (e : string)
| AddRaise (e : string)
| Added (handle : nat).

Inductive add_result :=
| AddTorrentRaise (e : string)
| AddTorrentStarted (self' : t) (heap' : Event.heap) (handle : nat).

(** [add_torrent]: on success the caller starts a thread running
    [_monitor] on the returned handle. *)
Definition add_torrent (self : t) (h : Event.heap) (torrent_id magnet : string)
    (lt : lt_answer) : add_result :=
  match lt with
  | ParseRaise e => AddTorrentRaise e
  | AddRaise e => AddTorrentRaise e
  | Added handle =>
      let '(ev, h') := Event.new h in
      AddTorrentStarted
        {| download_dir := download_dir self;
           session := {[handle]} ∪ session self;
           handles := <[torrent_id := handle]> (handles self);
           cancel_events := <[torrent_id := ev]> (cancel_events self) |}
        h' handle
  end.

(** Where the thread running [_monitor] stands. *)
Inductive monitor_state :=
| MetadataPhase (attempts : nat)
| DownloadPhase (info : torrent_info)
| MonitorExited.

(** The [eta] computed in the download loop. *)
Definition eta_of (s : torrent_status) : Z :=
  if (0 <? download_rate s)%Z
  then py_int_div (total_wanted s - total_wanted_done s) (download_rate s)
  else 0%Z.

(** One iteration of [_monitor] (the loop test, the cancellation check and
    the body), or the code after the loops.  The third component lists the
    messages passed to [callback], in order.  The forced re-announces of
    every tenth attempt are commands to the engine and leave the modelled
    state alone. *)
Definition _monitor (self : t) (h : Event.heap) (torrent_id : string) (handle : nat)
    (s : monitor_state) (v : handle_view) : t * monitor_state * list msg :=
  match s with
  | MetadataPhase attempts =>
      if has_metadata v then
        let info := get_torrent_info v in
        (self, DownloadPhase info,
         [MsgMetadata (name info) (total_size info) (num_files info)])
      else
        match cancel_events self !! torrent_id with
        | None => (self, MonitorExited, [])
        | Some ev =>
            if Event.is_set ev h then (self, MonitorExited, [MsgCancelled])
            else (self, MetadataPhase (S attempts),
                  [MsgFetchingMetadata (num_peers (status v))])
        end
  | DownloadPhase info =>
      if is_seed v then
        let final_name := name info in
        let save_path := path_join (download_dir self) final_name in
        (self, MonitorExited,
         [MsgTorrentFinished save_path final_name;
          MsgCompleted torrent_id save_path final_name])
      else
        match cancel_events self !! torrent_id with
        | None => (self, MonitorExited, [])
        | Some ev =>
            if Event.is_set ev h then
              ({| download_dir := download_dir self;
                  session := session self ∖ {[handle]};
                  handles := delete torrent_id (handles self);
                  cancel_events := cancel_events self |},
               MonitorExited, [MsgCancelled])
            else
              let st := status v in
              (self, DownloadPhase info,
               [MsgTorrentDownloading (py_round2 (progress st * 100))
                  (download_rate st) (upload_rate st) (num_peers st)
                  (num_seeds st) (eta_of st) (state st)])
        end
  | MonitorExited => (self, MonitorExited, [])
  end.

(** [cancel_torrent]: the returned status is the same on both branches. *)
Definition cancel_torrent (self : t) (h : Event.heap) (torrent_id : string)
    : Event.heap * string :=
  (match cancel_events self !! torrent_id with
   | Some ev => Event.set ev h
   | None => h
   end, "cancelling").

Inductive status_reply :=
| StatusNotFound
| StatusOf (progress : Q) (download_rate peers : Z).

(** [get_status], given what each handle answers to [status()]. *)
Definition get_status (self : t) (torrent_id : string)
    (status_of : nat -> torrent_status) : status_reply :=
  match handles self !! torrent_id with
  | None => StatusNotFound
  | Some handle =>
      let s := status_of handle in
      StatusOf (py_round2 (progress s * 100)) (download_rate s) (num_peers s)
  end.

End TorrentDownloader.

(** ** backend/main.py *)

Module JobManager.

Record job := {
  thread : nat;
  cancel_event : nat;
}.

Definition register (id : string) (thread cancel_event : nat)
    (jobs : gmap string job) : gmap string job :=
  <[id := {| thread := thread; cancel_event := cancel_event |}]> jobs.

Definition get_cancel_event (id : string) (jobs : gmap string job) : option nat :=
  cancel_event <$> jobs !! id.

Definition unregister (id : string) (jobs : gmap string job) : gmap string job :=
  delete id jobs.

Definition is_running (id : string) (jobs : gmap string job) : bool :=
  bool_decide (is_Some (jobs !! id)).

End JobManager.

(** The dictionary passed to [add_history_entry]. *)
Record history_entry := {
  h_id : string;
  h_url : string;
  h_filename : option string;
  h_mode : string;
  h_status : string;
}.

(** One call of [ws_manager.send(channel, message)], with the job (index of
    its worker thread) on whose behalf the call is made. *)
Record ws_send := {
  ws_job : nat;
  ws_channel : string;
  ws_message : msg;
}.

(** The threads started by the endpoints.  A download thread is listed
    together with its watcher: [watcher_done] tells whether the watcher has
    run past [thread.join()]. *)
Inductive thread :=
| DownloadThread (client_id url mode : string) (cancel_event : nat)
    (s : Downloader.task_state) (watcher_done : bool)
| MonitorThread (torrent_id magnet_link : string) (handle : nat)
    (s : TorrentDownloader.monitor_state).

(** The process state: the Event heap, [job_manager._jobs], the global
    [torrent_manager], the threads in start order, the calls made to
    [add_history_entry] and to [ws_manager.send]. *)
Record Sys := {
  heap : Event.heap;
  job_manager : gmap string JobManager.job;
  torrent_manager : option TorrentDownloader.t;
  threads : list thread;
  history : list history_entry;
  ws_log : list ws_send;
}.

Definition initial : Sys :=
  {| heap := []; job_manager := ∅; torrent_manager := None;
     threads := []; history := []; ws_log := [] |}.

(** JSON bodies of the requests, with string fields. *)
Record download_payload := {
  p_url : option string;
  p_id : option string;
  p_mode : option string;
  p_format_id : option string;
}.

Record torrent_payload := {
  p_magnet : option string;
  p_torrent_id : option string;
}.

Inductive response :=
| Json (id status : string)              (* {"id": .., "status": ..} *)
| JsonError (status_code : Z) (error : string).

(** [not x] for an optional string: absent or empty. *)
Definition falsy (x : option string) : bool :=
  match x with
  | None => true
  | Some s => String.eqb s ""
  end.

Definition ws_manager_send (st : Sys) (job : nat) (channel : string) (m : msg) : Sys :=
  {| heap := heap st; job_manager := job_manager st;
     torrent_manager := torrent_manager st; threads := threads st;
     history := history st;
     ws_log := ws_log st ++ [{| ws_job := job; ws_channel := channel; ws_message := m |}] |}.

Definition add_history_entry (st : Sys) (e : history_entry) : Sys :=
  {| heap := heap st; job_manager := job_manager st;
     torrent_manager := torrent_manager st; threads := threads st;
     history := history st ++ [e];
     ws_log := ws_log st |}.

Definition set_thread (st : Sys) (i : nat) (t : thread) : Sys :=
  {| heap := heap st; job_manager := job_manager st;
     torrent_manager := torrent_manager st; threads := <[i := t]> (threads st);
     history := history st;
     ws_log := ws_log st |}.

(** [get_torrent_manager]: the global instance, created on first use. *)
Definition get_torrent_manager (m : option TorrentDownloader.t) (download_dir : string)
    : TorrentDownloader.t :=
  default (TorrentDownloader.init download_dir) m.

Section Main.

(** Python's string hash (seeded once per process) and the two download
    directories, which depend on the user's home. *)
Variable py_hash : string -> Z.
Variable DEFAULT_DL_DIR : string.
Variable TORRENT_DL_DIR : string.

Definition safe_hash_id (s : string) : string :=
  string_take 12 (py_str_nat (Z.to_N (Z.abs (py_hash s)))).

(** [payload.get("id") or safe_hash_id(src)]. *)
Definition id_or_hash (id : option string) (src : string) : string :=
  match id with
  | Some i => if String.eqb i "" then safe_hash_id src else i
  | None => safe_hash_id src
  end.

(** [progress_sender] of job [job]: every message goes to channel
    [client_id]; failures of the send are swallowed. *)
Definition progress_sender (job : nat) (client_id : string) (st : Sys) (m : msg) : Sys :=
  ws_manager_send st job client_id m.

(** POST /download. *)
Definition start_download (st : Sys) (payload : download_payload) : Sys * response :=
  if falsy (p_url payload) then (st, JsonError 400 "url required")
  else
    let url := default "" (p_url payload) in
    let client_id := id_or_hash (p_id payload) url in
    let mode := default "video" (p_mode payload) in
    if JobManager.is_running client_id (job_manager st)
    then (st, JsonError 400 "job already running")
    else
      let '(cancel_event, heap') := Event.new (heap st) in
      let thread := length (threads st) in
      ({| heap := heap';
          job_manager :=
            JobManager.register client_id thread cancel_event (job_manager st);
          torrent_manager := torrent_manager st;
          threads := threads st
                     ++ [DownloadThread client_id url mode cancel_event
                           Downloader.Extracting false];
          history := history st;
          ws_log := ws_log st |},
       Json client_id "started").

(** The download thread [job] takes one step driven by yt-dlp. *)
Definition download_thread_step (st : Sys) (job : nat) (y : Downloader.ydl_step) : Sys :=
  match threads st !! job with
  | Some (DownloadThread client_id url mode cancel_event s w) =>
      let '(s', sent) :=
        Downloader.download_task DEFAULT_DL_DIR mode
          (Event.is_set cancel_event (heap st)) s y in
      foldl (progress_sender job client_id)
            (set_thread st job (DownloadThread client_id url mode cancel_event s' w))
            sent
  | _ => st
  end.

(** [start_download.watcher] of job [job], from the return of
    [thread.join()] on; [final_name] is the newest media file found in the
    download directory, if any. *)
Definition watcher (st : Sys) (job : nat) (final_name : option string) : Sys :=
  match threads st !! job with
  | Some (DownloadThread client_id url mode cancel_event Downloader.Exited false) =>
      let st1 := add_history_entry st
                   {| h_id := client_id; h_url := url; h_filename := final_name;
                      h_mode := mode; h_status := "completed" |} in
      let st2 := {| heap := heap st1;
                    job_manager := JobManager.unregister client_id (job_manager st1);
                    torrent_manager := torrent_manager st1;
                    threads := <[job := DownloadThread client_id url mode cancel_event
                                          Downloader.Exited true]> (threads st1);
                    history := history st1;
                    ws_log := ws_log st1 |} in
      ws_manager_send st2 job client_id (MsgWatcherFinished final_name)
  | _ => st
  end.

(** POST /cancel. *)
Definition cancel_download (st : Sys) (id : option string) : Sys * response :=
  if falsy id then (st, JsonError 400 "id required")
  else
    let id' := default "" id in
    match JobManager.get_cancel_event id' (job_manager st) with
    | Some cancel_event =>
        ({| heap := Event.set cancel_event (heap st);
            job_manager := job_manager st;
            torrent_manager := torrent_manager st;
            threads := threads st;
            history := history st;
            ws_log := ws_log st |},
         Json id' "cancelling")
    | None => (st, JsonError 404 "not found")
    end.

(** [add_torrent.torrent_progress_callback]. *)
Definition torrent_progress_callback (job : nat) (torrent_id magnet_link : string)
    (st : Sys) (m : msg) : Sys :=
  let channel := "torrent_" +:+ torrent_id in
  let st1 := ws_manager_send st job channel m in
  if decide (msg_status m = Some "finished") then
    let save_path := msg_save_path m in
    let st2 := add_history_entry st1
                 {| h_id := torrent_id; h_url := magnet_link;
                    h_filename :=
                      Some (if String.eqb save_path "" then "" else path_name save_path);
                    h_mode := "torrent"; h_status := "completed" |} in
    ws_manager_send st2 job channel (MsgToast torrent_id save_path)
  else st1.

(** POST /torrent/add.  The exceptions libtorrent raises are not
    [TypeError]s, so the swapped-argument retry is not taken. *)
Definition add_torrent (st : Sys) (payload : torrent_payload)
    (lt : TorrentDownloader.lt_answer) : Sys * response :=
  if falsy (p_magnet payload) then (st, JsonError 400 "magnet link required")
  else
    let magnet_link := default "" (p_magnet payload) in
    let torrent_id := id_or_hash (p_torrent_id payload) magnet_link in
    let manager := get_torrent_manager (torrent_manager st) TORRENT_DL_DIR in
    match TorrentDownloader.add_torrent manager (heap st) torrent_id magnet_link lt with
    | TorrentDownloader.AddTorrentRaise e =>
        ({| heap := heap st; job_manager := job_manager st;
            torrent_manager := Some manager; threads := threads st;
            history := history st; ws_log := ws_log st |},
         JsonError 500 e)
    | TorrentDownloader.AddTorrentStarted manager' heap' handle =>
        ({| heap := heap'; job_manager := job_manager st;
            torrent_manager := Some manager';
            threads := threads st
                       ++ [MonitorThread torrent_id magnet_link handle
                             (TorrentDownloader.MetadataPhase 0)];
            history := history st; ws_log := ws_log st |},
         Json torrent_id "started")
    end.

(** The monitor thread [job] runs one iteration. *)
Definition monitor_thread_step (st : Sys) (job : nat)
    (v : TorrentDownloader.handle_view) : Sys :=
  match threads st !! job, torrent_manager st with
  | Some (MonitorThread torrent_id magnet_link handle s), Some manager =>
      let '(manager', s', sent) :=
        TorrentDownloader._monitor manager (heap st) torrent_id handle s v in
      foldl (torrent_progress_callback job torrent_id magnet_link)
            {| heap := heap st; job_manager := job_manager st;
               torrent_manager := Some manager';
               threads := <[job := MonitorThread torrent_id magnet_link handle s']>
                            (threads st);
               history := history st; ws_log := ws_log st |}
            sent
  | _, _ => st
  end.

(** POST /torrent/cancel. *)
Definition cancel_torrent_download (st : Sys) (id : option string) : Sys * response :=
  if falsy id then (st, JsonError 400 "id required")
  else
    let torrent_id := default "" id in
    let manager := get_torrent_manager (torrent_manager st) TORRENT_DL_DIR in
    let '(heap', _) := TorrentDownloader.cancel_torrent manager (heap st) torrent_id in
    ({| heap := heap'; job_manager := job_manager st;
        torrent_manager := Some manager; threads := threads st;
        history := history st; ws_log := ws_log st |},
     Json torrent_id "cancelling").

(** What can happen next in the process: a request arrives, or one thread
    advances. *)
Inductive action :=
| PostDownload (payload : download_payload)
| PostCancel (id : option string)
| PostTorrentAdd (payload : torrent_payload) (lt : TorrentDownloader.lt_answer)
| PostTorrentCancel (id : option string)
| Ydl (job : nat) (y : Downloader.ydl_step)
| WatcherJoined (job : nat) (final_name : option string)
| MonitorTick (job : nat) (v : TorrentDownloader.handle_view).

Definition step (st : Sys) (a : action) : Sys :=
  match a with
  | PostDownload payload => fst (start_download st payload)
  | PostCancel id => fst (cancel_download st id)
  | PostTorrentAdd payload lt => fst (add_torrent st payload lt)
  | PostTorrentCancel id => fst (cancel_torrent_download st id)
  | Ydl job y => download_thread_step st job y
  | WatcherJoined job final_name => watcher st job final_name
  | MonitorTick job v => monitor_thread_step st job v
  end.

Definition run (st : Sys) (l : list action) : Sys := foldl step st l.

(** The messages sent on behalf of job [job], in order. *)
Definition job_messages (st : Sys) (job : nat) : list msg :=
  ws_message <$> filter (fun s => ws_job s = job) (ws_log st).

(** The messages sent to channel [channel], in order. *)
Definition channel_messages (st : Sys) (channel : string) : list msg :=
  ws_message <$> filter (fun s => ws_channel s = channel) (ws_log st).

End Main.

(** ** Vocabulary of the properties *)

(** *** Identifiers *)

Definition is_digit (c : ascii) : bool :=
  (48 <=? nat_of_ascii c)%nat && (nat_of_ascii c <=? 57)%nat.

Fixpoint all_digits (s : string) : bool :=
  match s with
  | EmptyString => true
  | String c s' => is_digit c && all_digits s'
  end.

(** *** Traces *)

(** No terminal event occurs in [l]. *)
Definition quiet (l : list msg) : Prop := Forall (fun m => is_terminal m = false) l.

(** The number of terminal events in [l]. *)
Definition terminal_count (l : list msg) : nat :=
  length (filter (fun m => is_terminal m = true) l).

(** Exactly one terminal event occurs in [l], and it comes last. *)
Definition one_terminal_last (l : list msg) : bool :=
  (terminal_count l =? 1)%nat
  && match last l with
     | Some m => is_terminal m
     | None => false
     end.

(** The terminal events [download_task] sends. *)
Definition task_terminal (m : msg) : Prop :=
  m = MsgCancelled \/ (exists e, m = MsgError e) \/ (exists p f, m = MsgMediaFinished p f).

(** What a media job has sent, by the state of its worker and watcher. *)
Definition media_trace (s : Downloader.task_state) (watcher_done : bool)
    (l : list msg) : Prop :=
  match s, watcher_done with
  | Downloader.Exited, false =>
      exists pre t, l = pre ++ [t] /\ quiet pre /\ task_terminal t
  | Downloader.Exited, true =>
      exists pre t n,
        l = pre ++ [t; MsgWatcherFinished n] /\ quiet pre /\ task_terminal t
  | _, false => quiet l
  | _, true => False
  end.

(** What a torrent job has sent, by the state of its monitor. *)
Definition torrent_trace (id : string) (s : TorrentDownloader.monitor_state)
    (l : list msg) : Prop :=
  match s with
  | TorrentDownloader.MonitorExited =>
      exists pre,
        quiet pre
        /\ (l = pre ++ [MsgCancelled]
            \/ exists p n,
                 l = pre ++ [MsgTorrentFinished p n; MsgToast id p; MsgCompleted id p n])
  | _ => quiet l
  end.

Definition job_trace (t : thread) (l : list msg) : Prop :=
  match t with
  | DownloadThread _ _ _ _ s w => media_trace s w l
  | MonitorThread id _ _ s => torrent_trace id s l
  end.


(** The messages [torrent_progress_callback] sends for one message of the
    monitor, and the history entries it records. *)
Definition callback_sends (torrent_id : string) (m : msg) : list msg :=
  if decide (msg_status m = Some "finished")
  then [m; MsgToast torrent_id (msg_save_path m)]
  else [m].

Definition callback_history (torrent_id magnet_link : string) (m : msg)
    : list history_entry :=
  if decide (msg_status m = Some "finished")
  then [{| h_id := torrent_id; h_url := magnet_link;
           h_filename :=
             Some (if String.eqb (msg_save_path m) "" then ""
                   else path_name (msg_save_path m));
           h_mode := "torrent"; h_status := "completed" |}]
  else [].

(** *** Views of the torrent manager *)

(** The handle and the cancellation Event the torrent manager holds for an
    identifier. *)
Definition torrent_handle (st : Sys) (id : string) : option nat :=
  torrent_manager st ≫= fun m => TorrentDownloader.handles m !! id.

Definition torrent_cancel_event (st : Sys) (id : string) : option nat :=
  torrent_manager st ≫= fun m => TorrentDownloader.cancel_events m !! id.

(** The handles registered in the libtorrent session. *)
Definition torrent_session (st : Sys) : gset nat :=
  default ∅ (TorrentDownloader.session <$> torrent_manager st).

(** Whether [self.cancel_events[torrent_id].is_set()] holds. *)
Definition cancel_observed (self : TorrentDownloader.t) (h : Event.heap)
    (id : string) : bool :=
  match TorrentDownloader.cancel_events self !! id with
  | Some ev => Event.is_set ev h
  | None => false
  end.

(** The iterations of the monitor that see the cancellation inside the
    download loop. *)
Definition cancel_in_download (s : TorrentDownloader.monitor_state)
    (v : TorrentDownloader.handle_view) (cancelled : bool) : bool :=
  match s with
  | TorrentDownloader.DownloadPhase _ => negb (TorrentDownloader.is_seed v) && cancelled
  | _ => false
  end.

(** *** Progress values *)

(** [round(p * 100, 2)]. *)
Definition percent (p : Q) : Q := py_round2 (p * 100).

(** The progress values carried by the torrent [downloading] events of
    [l], in order. *)
Definition torrent_progress_values (l : list msg) : list Q :=
  flat_map (fun m => match m with
                     | MsgTorrentDownloading p _ _ _ _ _ _ => [p]
                     | _ => []
                     end) l.

(** The progress fractions libtorrent reported to the monitor of [job] at
    its iterations in [l], in order. *)
Definition engine_progress (l : list action) (job : nat) : list Q :=
  flat_map (fun a => match a with
                     | MonitorTick j v =>
                         if decide (j = job)
                         then [TorrentDownloader.progress (TorrentDownloader.status v)]
                         else []
                     | _ => []
                     end) l.

(** *** Invariants of the reachable states *)

(** [st] with its heap replaced. *)
Definition with_heap (st : Sys) (h : Event.heap) : Sys :=
  {| heap := h; job_manager := job_manager st;
     torrent_manager := torrent_manager st; threads := threads st;
     history := history st; ws_log := ws_log st |}.

(** The manager of [st'] holds a cancellation Event for every identifier
    for which the manager of [st] holds one. *)
Definition manager_extends (st st' : Sys) : Prop :=
  forall mgr, torrent_manager st = Some mgr ->
    exists mgr', torrent_manager st' = Some mgr'
      /\ forall id, is_Some (TorrentDownloader.cancel_events mgr !! id) ->
                    is_Some (TorrentDownloader.cancel_events mgr' !! id).

(** The invariant behind the shape of the traces: every logged send belongs
    to a started thread, every job's trace has the shape its threads'
    states call for, and the manager holds a cancellation Event for every
    monitor thread. *)
Definition trace_invariant (st : Sys) : Prop :=
  (forall s, s ∈ ws_log st -> ws_job s < length (threads st))
  /\ (forall job t, threads st !! job = Some t -> job_trace t (job_messages st job))
  /\ (forall job id m h s,
        threads st !! job = Some (MonitorThread id m h s) ->
        exists mgr, torrent_manager st = Some mgr
                    /\ is_Some (TorrentDownloader.cancel_events mgr !! id)).

(** The registry of media jobs is consistent with the threads and the heap:
    every entry names a download thread of that identifier whose watcher has
    not run and which polls the very Event the entry holds; every Event the
    registries hold is allocated. *)
Definition registry_invariant (st : Sys) : Prop :=
  (forall id j, job_manager st !! id = Some j ->
     JobManager.cancel_event j < length (heap st)
     /\ exists url mode s,
          threads st !! JobManager.thread j
          = Some (DownloadThread id url mode (JobManager.cancel_event j) s false))
  /\ (forall mgr id ev,
        torrent_manager st = Some mgr ->
        TorrentDownloader.cancel_events mgr !! id = Some ev ->
        ev < length (heap st)).

(** Every download thread whose watcher has not run is the thread
    registered under its identifier, with its Event. *)
Definition active_registered (st : Sys) : Prop :=
  forall t cid url mode ev s,
    threads st !! t = Some (DownloadThread cid url mode ev s false) ->
    job_manager st !! cid
    = Some {| JobManager.thread := t; JobManager.cancel_event := ev |}.

(** ** Concrete scenarios *)

Module Scenario.

(** A stand-in for the process's string hash. *)
Definition hash (s : string) : Z := (- Z.of_nat (String.length s) * 123456789012345)%Z.

Definition downloads : string := "/home/u/Downloads".
Definition torrents : string := "/home/u/Downloads/Torrents".

Definition media (url : string) (id : option string) : download_payload :=
  {| p_url := Some url; p_id := id; p_mode := None; p_format_id := None |}.

Definition magnet (uri : string) (id : option string) : torrent_payload :=
  {| p_magnet := Some uri; p_torrent_id := id |}.


(** The state reached from the empty process by a list of actions. *)
Definition reach (l : list action) : Sys := run hash downloads torrents initial l.

(** A progress dictionary of yt-dlp with status "downloading". *)
Definition downloading (speed eta : pyval) : gmap string pyval :=
  <["status" := PStr "downloading"]> (<["speed" := speed]> (<["eta" := eta]> ∅)).

(** The dictionary yt-dlp passes when the transfer itself is done. *)
Definition transfer_done : gmap string pyval := <["status" := PStr "finished"]> ∅.

(** Media job "m1" runs to completion. *)
Definition media_happy_path : list action :=
  [PostDownload (media "http://example.com/v" (Some "m1"));
   Ydl 0 (Downloader.ExtractOk "clip" (Some "webm"));
   Ydl 0 (Downloader.Hook (downloading (PInt 2048) (PInt 3)));
   Ydl 0 (Downloader.Hook transfer_done);
   Ydl 0 Downloader.DownloadOk;
   WatcherJoined 0 (Some "clip.webm")].

(** Media job "m1" is cancelled after two [downloading] events. *)
Definition cancel_mid_transfer : list action :=
  [PostDownload (media "http://example.com/v" (Some "m1"));
   Ydl 0 (Downloader.ExtractOk "clip" (Some "webm"));
   Ydl 0 (Downloader.Hook (downloading (PInt 2048) (PInt 3)));
   Ydl 0 (Downloader.Hook (downloading (PInt 2048) (PInt 2)));
   PostCancel (Some "m1");
   Ydl 0 (Downloader.Hook (downloading (PInt 2048) (PInt 1)));
   WatcherJoined 0 None].

(** Media job "m1" is cancelled while yt-dlp still extracts. *)
Definition cancel_while_extracting : list action :=
  [PostDownload (media "http://example.com/v" (Some "m1"));
   PostCancel (Some "m1");
   Ydl 0 (Downloader.ExtractOk "clip" (Some "webm"));
   WatcherJoined 0 None].

Definition magnet_a : string := "magnet:?xt=urn:btih:aaaa".
Definition magnet_b : string := "magnet:?xt=urn:btih:bbbb".

Definition iso : TorrentDownloader.torrent_info :=
  {| TorrentDownloader.name := "ubuntu.iso";
     TorrentDownloader.total_size := 1000;
     TorrentDownloader.num_files := 1 |}.

(** A status with the given progress, download rate and byte totals. *)
Definition status_at (p : Q) (rate wanted done : Z) : TorrentDownloader.torrent_status :=
  {| TorrentDownloader.progress := p;
     TorrentDownloader.download_rate := rate;
     TorrentDownloader.upload_rate := 0;
     TorrentDownloader.num_peers := 4;
     TorrentDownloader.num_seeds := 2;
     TorrentDownloader.total_wanted := wanted;
     TorrentDownloader.total_wanted_done := done;
     TorrentDownloader.state := "downloading" |}.

Definition view (metadata seed : bool) (s : TorrentDownloader.torrent_status)
    : TorrentDownloader.handle_view :=
  {| TorrentDownloader.has_metadata := metadata;
     TorrentDownloader.get_torrent_info := iso;
     TorrentDownloader.is_seed := seed;
     TorrentDownloader.status := s |}.

Definition seeking : TorrentDownloader.handle_view := view false false (status_at 0 0 0 0).

(** Torrent job "t1" runs to completion. *)
Definition torrent_happy_path : list action :=
  [PostTorrentAdd (magnet magnet_a (Some "t1")) (TorrentDownloader.Added 0);
   MonitorTick 0 seeking;
   MonitorTick 0 (view true false (status_at 0 0 1000 0));
   MonitorTick 0 (view true false (status_at (1 # 2) 100 1000 500));
   MonitorTick 0 (view true true (status_at 1 0 1000 1000))].

(** Torrent job "t1" whose engine reports a rising progress at three
    iterations of the download loop. *)
Definition torrent_progress_rise : list action :=
  [PostTorrentAdd (magnet magnet_a (Some "t1")) (TorrentDownloader.Added 0);
   MonitorTick 0 (view true false (status_at 0 0 1000 0));
   MonitorTick 0 (view true false (status_at (1 # 4) 100 1000 250));
   MonitorTick 0 (view true false (status_at (1 # 2) 100 1000 500));
   MonitorTick 0 (view true false (status_at (3 # 4) 100 1000 750))].

(** Torrent job "t1" whose engine reports a falling progress (a piece
    failed its hash check). *)
Definition torrent_progress_drop : list action :=
  [PostTorrentAdd (magnet magnet_a (Some "t1")) (TorrentDownloader.Added 0);
   MonitorTick 0 (view true false (status_at 0 0 1000 0));
   MonitorTick 0 (view true false (status_at (1 # 2) 100 1000 500));
   MonitorTick 0 (view true false (status_at (3 # 10) 100 1000 300))].

End Scenario.

(** * The rest of the code *)

(** ** downloader.py: [sanitize_filename] *)

(** Strings are read as sequences of code points below 256. *)

(** [c.isspace()] for one character. *)
Definition py_isspace (c : ascii) : bool :=
  let n := nat_of_ascii c in
  ((9 <=? n)%nat && (n <=? 13)%nat) || ((28 <=? n)%nat && (n <=? 32)%nat)
  || (n =? 133)%nat || (n =? 160)%nat.

(** [s.lstrip()], [s.rstrip()] and [s.strip()]. *)
Fixpoint py_lstrip (s : string) : string :=
  match s with
  | EmptyString => EmptyString
  | String c s' => if py_isspace c then py_lstrip s' else s
  end.

Fixpoint py_rstrip (s : string) : string :=
  match s with
  | EmptyString => EmptyString
  | String c s' =>
      match py_rstrip s' with
      | EmptyString => if py_isspace c then EmptyString else String c EmptyString
      | r => String c r
      end
  end.

Definition py_strip (s : string) : string := py_rstrip (py_lstrip s).

(** The nine characters the function removes: backslash, slash, colon,
    star, question mark, double quote, the angle brackets and the bar. *)
Definition forbidden_chars : list ascii :=
  ["\"; "/"; ":"; "*"; "?"; "034"; "<"; ">"; "|"]%char.

Definition forbidden (c : ascii) : bool := existsb (Ascii.eqb c) forbidden_chars.

(** [''.join(c for c in s if keep(c))]. *)
Fixpoint string_filter (keep : ascii -> bool) (s : string) : string :=
  match s with
  | EmptyString => EmptyString
  | String c s' =>
      if keep c then String c (string_filter keep s') else string_filter keep s'
  end.

Definition sanitize_filename (title : string) : string :=
  py_strip (string_filter (fun c => negb (forbidden c)) title).

(** Every character of [s] satisfies [p]. *)
Fixpoint string_forall (p : ascii -> bool) (s : string) : bool :=
  match s with
  | EmptyString => true
  | String c s' => p c && string_forall p s'
  end.

(** The first and the last character of [s] satisfy [p] (vacuously for the
    empty string). *)
Definition first_char_ok (p : ascii -> bool) (s : string) : bool :=
  match s with
  | EmptyString => true
  | String c _ => p c
  end.

Fixpoint last_char_ok (p : ascii -> bool) (s : string) : bool :=
  match s with
  | EmptyString => true
  | String c EmptyString => p c
  | String _ s' => last_char_ok p s'
  end.

(** A title [sanitize_filename] has nothing to do on. *)
Definition clean_title (s : string) : bool :=
  string_forall (fun c => negb (forbidden c)) s
  && first_char_ok (fun c => negb (py_isspace c)) s
  && last_char_ok (fun c => negb (py_isspace c)) s.

(** ** main.py: [format_filesize] *)

(** Floats are read as the rationals they hold.  For [|bytes_val| < 2^53]
    both divisions are exact, so that the model gives the very digits Python
    prints; beyond, Python rounds the quotient first, and past the range of
    floats the division raises and the function returns the empty string. *)

(** [f"{k:02d}"] for [0 <= k < 100]. *)
Definition two_digits (k : Z) : string :=
  (if (k <? 10)%Z then "0" else "") +:+ py_str_nat (Z.to_N k).

(** [abs(x)]. *)
Definition Qmagnitude (x : Q) : Q := if Qle_bool 0 x then x else (- x)%Q.

(** [f"{x:.0f}"] and [f"{x:.2f}"]: the magnitude is rounded half to even at
    the last digit kept, and a negative [x] keeps its sign. *)
Definition py_format_0f (x : Q) : string :=
  (if Qle_bool 0 x then "" else "-")
  +:+ py_str_nat (Z.to_N (round_half_even (Qmagnitude x))).

Definition py_format_2f (x : Q) : string :=
  let scaled := round_half_even (Qmagnitude x * 100) in
  (if Qle_bool 0 x then "" else "-")
  +:+ py_str_nat (Z.to_N (scaled / 100)) +:+ "." +:+ two_digits (scaled mod 100).

Definition format_filesize (bytes_val : Z) : string :=
  if (bytes_val =? 0)%Z then ""
  else
    let mb := (inject_Z bytes_val / inject_Z (1024 * 1024))%Q in
    if Qle_bool 1024 mb then py_format_2f (mb / 1024) +:+ " GB"
    else py_format_0f mb +:+ " MB".

(** ** main.py: the format selection of [get_formats] *)

(** [str(n)] for an integer. *)
Definition py_str_Z (n : Z) : string :=
  if (n <? 0)%Z then "-" +:+ py_str_nat (Z.to_N (- n)) else py_str_nat (Z.to_N n).

(** [c.lower()] for one character. *)
Definition py_lower_char (c : ascii) : ascii :=
  let n := nat_of_ascii c in
  if ((65 <=? n)%nat && (n <=? 90)%nat)
     || ((192 <=? n)%nat && (n <=? 222)%nat && negb (n =? 215)%nat)
  then ascii_of_nat (n + 32) else c.

Fixpoint py_lower (s : string) : string :=
  match s with
  | EmptyString => EmptyString
  | String c s' => String (py_lower_char c) (py_lower s')
  end.

Module GetFormats.

(** One entry of yt-dlp's [formats], with the keys the code reads.  For
    the keys read with a default ([ext], [vcodec], [acodec]) a missing key
    and a null value differ: [None] is a key that is missing, [Some None] a
    key whose value is Python's [None], [Some (Some s)] a string.  For the
    other keys, read with [f.get(key)], the two cases give the same and
    [None] stands for both. *)
Record ydl_format := {
  format_id : option string;
  ext : option (option string);
  height : option Z;
  vcodec : option (option string);
  acodec : option (option string);
  filesize : option Z;
  filesize_approx : option Z;
  abr : option Q;
}.

(** The dictionaries of [video_formats]; [None] is a null value, and the
    fallback entry has no height. *)
Record video_format := {
  v_format_id : option string;
  v_quality : string;
  v_resolution : string;
  v_ext : option string;
  v_filesize : Z;
  v_height : option Z;
}.

(** The dictionaries of [audio_formats]; [None] is a null value, and the
    fallback entry has no abr. *)
Record audio_format := {
  a_format_id : option string;
  a_quality : string;
  a_ext : string;
  a_filesize : Z;
  a_abr : option Q;
}.

Definition get_quality_label (height : Z) : string :=
  if (height =? 0)%Z then "Auto"
  else if (4320 <=? height)%Z then "8K"
  else if (2160 <=? height)%Z then "4K"
  else if (1440 <=? height)%Z then "2K"
  else if (1080 <=? height)%Z then "1080p"
  else if (720 <=? height)%Z then "720p"
  else if (480 <=? height)%Z then "480p"
  else if (360 <=? height)%Z then "360p"
  else if (240 <=? height)%Z then "240p"
  else if (144 <=? height)%Z then "144p"
  else py_str_Z height +:+ "p".

(** [f.get("filesize") or f.get("filesize_approx") or 0]. *)
Definition filesize_of (f : ydl_format) : Z :=
  match filesize f with
  | Some n => if (n =? 0)%Z then default 0%Z (filesize_approx f) else n
  | None => default 0%Z (filesize_approx f)
  end.

(** [f.get("abr") or 0]. *)
Definition abr_of (f : ydl_format) : Q := default 0%Q (abr f).

(** [f.get(key, "none") != "none"] for a codec key: only a missing key and
    the string "none" compare equal to "none"; a null value does not. *)
Definition has_codec (codec : option (option string)) : bool :=
  match codec with
  | None => false
  | Some None => true
  | Some (Some s) => negb (String.eqb s "none")
  end.

(** A dictionary keyed by quality label, in insertion order. *)
Definition has_label (q : string) (d : list (string * video_format)) : bool :=
  existsb (fun p => String.eqb (fst p) q) d.

(** [if q not in d: d[q] = v]. *)
Definition add_absent (q : string) (v : video_format)
    (d : list (string * video_format)) : list (string * video_format) :=
  if has_label q d then d else d ++ [(q, v)].

(** The entry built for a format that carries both video and audio, and
    for one that carries video only. *)
Definition combined_entry (f : ydl_format) (h : Z) : video_format :=
  {| v_format_id := format_id f; v_quality := get_quality_label h;
     v_resolution := py_str_Z h +:+ "p";
     v_ext := default (Some "mp4") (ext f);
     v_filesize := filesize_of f; v_height := Some h |}.

Definition video_only_entry (f : ydl_format) (h : Z) : video_format :=
  {| v_format_id := Some (default "None" (format_id f) +:+ "+bestaudio");
     v_quality := get_quality_label h;
     v_resolution := py_str_Z h +:+ "p";
     v_ext := Some "mp4";
     v_filesize := filesize_of f; v_height := Some h |}.

(** The body of the first loop over [formats], on the pair
    [(combined_formats, video_only_formats)]. *)
Definition scan_video
    (acc : list (string * video_format) * list (string * video_format))
    (f : ydl_format) : list (string * video_format) * list (string * video_format) :=
  match height f with
  | None => acc
  | Some h =>
      if (h =? 0)%Z then acc
      else
        let label := get_quality_label h in
        if has_codec (vcodec f) && has_codec (acodec f) then
          (add_absent label (combined_entry f h) (fst acc), snd acc)
        else if has_codec (vcodec f) && negb (has_codec (acodec f)) then
          (fst acc, add_absent label (video_only_entry f h) (snd acc))
        else acc
  end.

(** [all_video_formats]: the video-only entries, then the combined entries
    of the labels that have no video-only entry. *)
Definition all_video_formats (formats : list ydl_format)
    : list (string * video_format) :=
  let acc := foldl scan_video ([], []) formats in
  snd acc ++ filter (fun p => has_label (fst p) (snd acc) = false) (fst acc).

(** [x.get("height", 0)]. *)
Definition sort_key (v : video_format) : Z := default 0%Z (v_height v).

(** [sorted(l, key=..., reverse=True)]: descending, equal keys in their
    original order. *)
Fixpoint insert_desc (x : video_format) (l : list video_format) : list video_format :=
  match l with
  | [] => [x]
  | y :: l' =>
      if (sort_key x <? sort_key y)%Z then y :: insert_desc x l' else x :: y :: l'
  end.

Definition sorted_desc (l : list video_format) : list video_format :=
  foldr insert_desc [] l.

Definition fallback_video : video_format :=
  {| v_format_id := Some "bestvideo+bestaudio/best"; v_quality := "Best Available";
     v_resolution := "Auto"; v_ext := Some "mp4"; v_filesize := 0; v_height := None |}.

Definition video_formats (formats : list ydl_format) : list video_format :=
  match sorted_desc (snd <$> all_video_formats formats) with
  | [] => [fallback_video]
  | l => l
  end.

(** Whether a format carries audio only, and the entry built for it. *)
Definition audio_only (f : ydl_format) : bool :=
  has_codec (acodec f) && negb (has_codec (vcodec f)).

Definition audio_entry (f : ydl_format) : audio_format :=
  let e := py_lower (default "" (default None (ext f))) in
  {| a_format_id := format_id f; a_quality := "Best Quality";
     a_ext := if existsb (String.eqb e) ["webm"; "opus"; "m4a"] then e else "webm";
     a_filesize := filesize_of f; a_abr := Some (abr_of f) |}.

(** The body of the second loop, on [best_audio]. *)
Definition scan_audio (best : option audio_format) (f : ydl_format)
    : option audio_format :=
  if audio_only f then
    let better :=
      match best with
      | None => true
      | Some b => negb (Qle_bool (abr_of f) (default 0%Q (a_abr b)))
      end in
    if better then Some (audio_entry f) else best
  else best.

Definition fallback_audio : audio_format :=
  {| a_format_id := Some "bestaudio"; a_quality := "Best Quality"; a_ext := "webm";
     a_filesize := 0; a_abr := None |}.

Definition audio_formats (formats : list ydl_format) : list audio_format :=
  match foldl scan_audio None formats with
  | Some b => [b]
  | None => [fallback_audio]
  end.

(** What a format contributes to [combined_formats] and to
    [video_only_formats]: a label and an entry, or nothing. *)
Definition usable_height (f : ydl_format) : option Z :=
  match height f with
  | Some h => if (h =? 0)%Z then None else Some h
  | None => None
  end.

Definition pick_combined (f : ydl_format) : option (string * video_format) :=
  match usable_height f with
  | Some h =>
      if has_codec (vcodec f) && has_codec (acodec f)
      then Some (get_quality_label h, combined_entry f h) else None
  | None => None
  end.

Definition pick_video_only (f : ydl_format) : option (string * video_format) :=
  match usable_height f with
  | Some h =>
      if has_codec (vcodec f) && negb (has_codec (acodec f))
      then Some (get_quality_label h, video_only_entry f h) else None
  | None => None
  end.

(** A dictionary filled by [if q not in d: d[q] = v] over a list. *)
Definition collect (pick : ydl_format -> option (string * video_format))
    (d : list (string * video_format)) (l : list ydl_format)
    : list (string * video_format) :=
  foldl (fun d f => match pick f with
                    | Some (q, e) => add_absent q e d
                    | None => d
                    end) d l.

(** [f] is the first format of [l] for which [pick] gives label [q], and
    [e] is the entry it gives. *)
Definition first_pick (pick : ydl_format -> option (string * video_format))
    (l : list ydl_format) (q : string) (e : video_format) (f : ydl_format) : Prop :=
  exists pre post,
    l = pre ++ f :: post
    /\ pick f = Some (q, e)
    /\ forall g, g ∈ pre -> (fst <$> pick g) <> Some q.

(** What the second loop has found after the formats [l]: nothing when no
    format is audio-only, else the entry of the first audio-only format
    whose bit rate no other audio-only format exceeds. *)
Definition best_audio_of (l : list ydl_format) (r : option audio_format) : Prop :=
  (r = None /\ forall f, f ∈ l -> audio_only f = false)
  \/ exists pre f post,
       l = pre ++ f :: post
       /\ audio_only f = true
       /\ r = Some (audio_entry f)
       /\ (forall g, g ∈ pre -> audio_only g = true -> (abr_of g < abr_of f)%Q)
       /\ (forall g, g ∈ post -> audio_only g = true -> (abr_of g <= abr_of f)%Q).

End GetFormats.

(** ** Vocabulary of the system-wide properties *)

(** How far the thread running [download_task] has come. *)
Definition task_rank (s : Downloader.task_state) : nat :=
  match s with
  | Downloader.Extracting => 0
  | Downloader.Transferring _ _ => 1
  | Downloader.Exited => 2
  end.

(** The monitor in state [s'] is at least as far as in state [s]. *)
Definition monitor_le (s s' : TorrentDownloader.monitor_state) : Prop :=
  match s, s' with
  | TorrentDownloader.MetadataPhase n, TorrentDownloader.MetadataPhase n' => n <= n'
  | TorrentDownloader.MetadataPhase _, _ => True
  | TorrentDownloader.DownloadPhase i, TorrentDownloader.DownloadPhase i' => i = i'
  | TorrentDownloader.DownloadPhase _, TorrentDownloader.MonitorExited => True
  | TorrentDownloader.MonitorExited, TorrentDownloader.MonitorExited => True
  | _, _ => False
  end.

(** [t'] is the thread [t] at a later time: same request, same Event or
    handle, and a state that has not gone back. *)
Definition thread_advances (t t' : thread) : Prop :=
  match t, t' with
  | DownloadThread c u m e s w, DownloadThread c' u' m' e' s' w' =>
      c = c' /\ u = u' /\ m = m' /\ e = e'
      /\ task_rank s <= task_rank s' /\ (w = true -> w' = true)
  | MonitorThread i m h s, MonitorThread i' m' h' s' =>
      i = i' /\ m = m' /\ h = h' /\ monitor_le s s'
  | _, _ => False
  end.

(** The torrent manager, once created, stays: its directory is kept, and
    every identifier that has a cancellation Event still has one (a later
    [add_torrent] for the identifier may have put another Event in its
    place). *)
Definition manager_kept (m m' : option TorrentDownloader.t) : Prop :=
  forall mgr, m = Some mgr ->
    exists mgr', m' = Some mgr'
      /\ TorrentDownloader.download_dir mgr' = TorrentDownloader.download_dir mgr
      /\ forall id ev, TorrentDownloader.cancel_events mgr !! id = Some ev ->
                       is_Some (TorrentDownloader.cancel_events mgr' !! id).

(** [st'] is a later state of [st]: nothing that happened is undone. *)
Definition evolves (st st' : Sys) : Prop :=
  (forall e, Event.is_set e (heap st) = true -> Event.is_set e (heap st') = true)
  /\ length (heap st) <= length (heap st')
  /\ history st `prefix_of` history st'
  /\ ws_log st `prefix_of` ws_log st'
  /\ (forall j t, threads st !! j = Some t ->
        exists t', threads st' !! j = Some t' /\ thread_advances t t')
  /\ manager_kept (torrent_manager st) (torrent_manager st').

(** The websocket channel a thread's messages go to. *)
Definition channel_of (t : thread) : string :=
  match t with
  | DownloadThread client_id _ _ _ _ _ => client_id
  | MonitorThread torrent_id _ _ _ => "torrent_" +:+ torrent_id
  end.

(** The log entries of the messages [sent] for job [job] on [channel]. *)
Definition tagged (job : nat) (channel : string) (sent : list msg) : list ws_send :=
  (fun m => {| ws_job := job; ws_channel := channel; ws_message := m |}) <$> sent.

(** A thread as its endpoint starts it. *)
Definition started (t : thread) : Prop :=
  match t with
  | DownloadThread _ _ _ _ s w => s = Downloader.Extracting /\ w = false
  | MonitorThread _ _ _ s => s = TorrentDownloader.MetadataPhase 0
  end.

(** One move of one thread in state [st]: the thread before and after, the
    messages it sends and the history rows it adds.  A download thread
    takes a step of [download_task], or its watcher runs; a monitor thread
    runs one iteration, its messages passing through
    [torrent_progress_callback]. *)
Inductive thread_transition (dir : string) (st : Sys)
  : thread -> thread -> list msg -> list history_entry -> Prop :=
| TaskStep (c u m : string) (e : nat) (s : Downloader.task_state) (w : bool)
    (y : Downloader.ydl_step) (s' : Downloader.task_state) (sent : list msg) :
    Downloader.download_task dir m (Event.is_set e (heap st)) s y = (s', sent) ->
    thread_transition dir st
      (DownloadThread c u m e s w) (DownloadThread c u m e s' w) sent []
| WatcherStep (c u m : string) (e : nat) (n : option string) :
    thread_transition dir st
      (DownloadThread c u m e Downloader.Exited false)
      (DownloadThread c u m e Downloader.Exited true)
      [MsgWatcherFinished n]
      [{| h_id := c; h_url := u; h_filename := n; h_mode := m;
          h_status := "completed" |}]
| MonitorStep (i m : string) (h : nat) (s : TorrentDownloader.monitor_state)
    (v : TorrentDownloader.handle_view) (mgr mgr' : TorrentDownloader.t)
    (s' : TorrentDownloader.monitor_state) (sent : list msg) :
    torrent_manager st = Some mgr ->
    TorrentDownloader._monitor mgr (heap st) i h s v = (mgr', s', sent) ->
    thread_transition dir st
      (MonitorThread i m h s) (MonitorThread i m h s')
      (flat_map (callback_sends i) sent) (flat_map (callback_history i m) sent).

(** What one action does to the threads, the log and the history: nothing,
    or it starts a thread, or it moves one thread. *)
Inductive step_effect (dir : string) (st st' : Sys) : Prop :=
| EffectNone :
    threads st' = threads st -> ws_log st' = ws_log st ->
    history st' = history st ->
    step_effect dir st st'
| EffectSpawn (t : thread) :
    started t ->
    threads st' = threads st ++ [t] -> ws_log st' = ws_log st ->
    history st' = history st ->
    step_effect dir st st'
| EffectAdvance (job : nat) (t t' : thread) (sent : list msg)
    (rows : list history_entry) :
    threads st !! job = Some t ->
    thread_transition dir st t t' sent rows ->
    threads st' = <[job := t']> (threads st) ->
    ws_log st' = ws_log st ++ tagged job (channel_of t) sent ->
    history st' = history st ++ rows ->
    step_effect dir st st'.

(** Every logged send was made for a thread that exists, on that thread's
    channel. *)
Definition sends_on_own_channel (st : Sys) : Prop :=
  Forall (fun s => exists t, threads st !! ws_job s = Some t
                             /\ ws_channel s = channel_of t) (ws_log st).

(** *** The phases of a torrent job *)

Definition is_fetching (m : msg) : bool :=
  match m with
  | MsgFetchingMetadata _ => true
  | _ => false
  end.

Definition is_torrent_downloading (m : msg) : bool :=
  match m with
  | MsgTorrentDownloading _ _ _ _ _ _ _ => true
  | _ => false
  end.

(** The [metadata] event of a torrent, and the three messages that end the
    trace of a torrent downloaded in full by a manager whose directory is
    [dir]: they carry the save path [str(Path(dir) / name)]. *)
Definition metadata_of (info : TorrentDownloader.torrent_info) : msg :=
  MsgMetadata (TorrentDownloader.name info) (TorrentDownloader.total_size info)
    (TorrentDownloader.num_files info).

Definition torrent_end (dir id : string) (info : TorrentDownloader.torrent_info)
    : list msg :=
  let save_path := path_join dir (TorrentDownloader.name info) in
  [MsgTorrentFinished save_path (TorrentDownloader.name info);
   MsgToast id save_path;
   MsgCompleted id save_path (TorrentDownloader.name info)].

(** What a torrent job has sent, phase by phase, by the state of its
    monitor. *)
Definition torrent_phases (dir id : string) (s : TorrentDownloader.monitor_state)
    (l : list msg) : Prop :=
  match s with
  | TorrentDownloader.MetadataPhase attempts =>
      length l = attempts /\ Forall (fun m => is_fetching m = true) l
  | TorrentDownloader.DownloadPhase info =>
      exists f d,
        l = f ++ metadata_of info :: d
        /\ Forall (fun m => is_fetching m = true) f
        /\ Forall (fun m => is_torrent_downloading m = true) d
  | TorrentDownloader.MonitorExited =>
      exists f,
        Forall (fun m => is_fetching m = true) f
        /\ (l = f ++ [MsgCancelled]
            \/ exists info d,
                 Forall (fun m => is_torrent_downloading m = true) d
                 /\ (l = f ++ metadata_of info :: d ++ [MsgCancelled]
                     \/ l = f ++ metadata_of info :: d ++ torrent_end dir id info))
  end.

(** The torrent manager, if created, saves into [dir]. *)
Definition manager_dir (dir : string) (st : Sys) : Prop :=
  forall mgr, torrent_manager st = Some mgr -> TorrentDownloader.download_dir mgr = dir.

(** Every torrent job's trace has the phases its monitor's state calls
    for. *)
Definition monitor_phases (dir : string) (st : Sys) : Prop :=
  forall job id m h s,
    threads st !! job = Some (MonitorThread id m h s) ->
    torrent_phases dir id s (job_messages st job).

(** *** Rows of the history *)













(** ** WSManager and the websocket endpoints *)

Module WSManager.

(** [self.connections]: the websocket attached to each identifier.
    Websockets are named by numbers. *)
Abbreviation t := (gmap string nat).

Definition add_connection (id : string) (websocket : nat) (connections : t) : t :=
  <[id := websocket]> connections.

Definition remove_connection (id : string) (connections : t) : t :=
  delete id connections.

(** [send]: the websocket whose [send_json] is called, if any; what that
    call raises is swallowed. *)
Definition send (id : string) (connections : t) : option nat := connections !! id.

(** What happens to the manager: an endpoint accepts a websocket under an
    identifier, an endpoint's [finally] block runs for an identifier, or a
    message is sent to an identifier. *)
Inductive event :=
| Accepted (id : string) (websocket : nat)
| Closed (id : string)
| Sent (id : string) (m : msg).

(** The connections, and the calls of [send_json] so far, in order. *)
Record state := {
  connections : t;
  delivered : list (nat * msg);
}.

Definition init : state := {| connections := ∅; delivered := [] |}.

Definition handle (s : state) (e : event) : state :=
  match e with
  | Accepted id websocket =>
      {| connections := add_connection id websocket (connections s);
         delivered := delivered s |}
  | Closed id =>
      {| connections := remove_connection id (connections s);
         delivered := delivered s |}
  | Sent id m =>
      {| connections := connections s;
         delivered := delivered s
                      ++ match send id (connections s) with
                         | Some websocket => [(websocket, m)]
                         | None => []
                         end |}
  end.

Definition handle_all (l : list event) : state := foldl handle init l.

(** The websocket the last connection event about [id] in [l] leaves
    attached. *)
Definition connects (id : string) (e : event) : bool :=
  match e with
  | Accepted id' _ | Closed id' => String.eqb id' id
  | Sent _ _ => false
  end.

Definition last_attached (id : string) (l : list event) : option nat :=
  match last (filter (fun e => connects id e = true) l) with
  | Some (Accepted _ websocket) => Some websocket
  | _ => None
  end.

End WSManager.

(** ** POST /playlist/download *)

(** The JSON body of the request and the two shapes of the answer. *)
Record playlist_payload := {
  p_video_ids : option (list string);
  p_playlist_mode : option string;
  p_quality : option string;
}.

Inductive playlist_response :=
| PlaylistStarted (message : string)      (* {"success": True, "message": ..} *)
| PlaylistError (status_code : Z) (error : string).

(** [start_single_download]: a fresh Event, a download thread and its
    watcher; nothing is entered in [job_manager]. *)
Definition start_single_download (mode : string) (st : Sys) (video_url : string)
    (index : nat) : Sys :=
  let client_id := "playlist_" +:+ py_str_nat (N.of_nat index) in
  let '(cancel_event, heap') := Event.new (heap st) in
  {| heap := heap'; job_manager := job_manager st;
     torrent_manager := torrent_manager st;
     threads := threads st
                ++ [DownloadThread client_id video_url mode cancel_event
                      Downloader.Extracting false];
     history := history st; ws_log := ws_log st |}.

(** [for idx, vid in enumerate(video_ids): start_single_download(vid, idx)],
    from index [index] on. *)
Fixpoint start_all (mode : string) (st : Sys) (index : nat) (video_ids : list string)
    : Sys :=
  match video_ids with
  | [] => st
  | vid :: rest => start_all mode (start_single_download mode st vid index) (S index) rest
  end.

Definition download_playlist (st : Sys) (payload : playlist_payload)
    : Sys * playlist_response :=
  let video_ids := default [] (p_video_ids payload) in
  let mode := default "video" (p_playlist_mode payload) in
  match video_ids with
  | [] => (st, PlaylistError 400 "no videos")
  | _ =>
      (start_all mode st 0 video_ids,
       PlaylistStarted ("Started " +:+ py_str_nat (N.of_nat (length video_ids))
                        +:+ " downloads"))
  end.

(** [start_single_download.watcher] of job [job], from the return of
    [thread.join()] on: a history row and a notification, and no
    [unregister]. *)
Definition playlist_watcher (st : Sys) (job : nat) (final_name : option string) : Sys :=
  match threads st !! job with
  | Some (DownloadThread client_id url mode cancel_event Downloader.Exited false) =>
      let st1 := add_history_entry st
                   {| h_id := client_id; h_url := url; h_filename := final_name;
                      h_mode := mode; h_status := "completed" |} in
      let st2 := set_thread st1 job
                   (DownloadThread client_id url mode cancel_event
                      Downloader.Exited true) in
      ws_manager_send st2 job client_id (MsgWatcherFinished final_name)
  | _ => st
  end.

(** The process with the playlist endpoint: the state, and which threads
    were started by [download_playlist] (their watcher is the one above). *)
Record PSys := {
  sys : Sys;
  playlist_jobs : gset nat;
}.

Definition pinitial : PSys := {| sys := initial; playlist_jobs := ∅ |}.

Inductive paction :=
| Base (a : action)
| PostPlaylistDownload (payload : playlist_payload).

Section PlaylistMain.

Variable py_hash : string -> Z.
Variable DEFAULT_DL_DIR : string.
Variable TORRENT_DL_DIR : string.

Definition pstep (ps : PSys) (a : paction) : PSys :=
  match a with
  | PostPlaylistDownload payload =>
      {| sys := fst (download_playlist (sys ps) payload);
         playlist_jobs :=
           playlist_jobs ps
           ∪ set_seq (length (threads (sys ps)))
               (length (default [] (p_video_ids payload))) |}
  | Base (WatcherJoined job final_name) =>
      {| sys := if decide (job ∈ playlist_jobs ps)
                then playlist_watcher (sys ps) job final_name
                else watcher (sys ps) job final_name;
         playlist_jobs := playlist_jobs ps |}
  | Base a =>
      {| sys := step py_hash DEFAULT_DL_DIR TORRENT_DL_DIR (sys ps) a;
         playlist_jobs := playlist_jobs ps |}
  end.

Definition prun (ps : PSys) (l : list paction) : PSys := foldl pstep ps l.

End PlaylistMain.

(** The thread a playlist request starts for its video number [k]. *)
Definition playlist_thread (mode : string) (events : nat) (k : nat) (video_url : string)
    : thread :=
  DownloadThread ("playlist_" +:+ py_str_nat (N.of_nat k)) video_url mode (events + k)
    Downloader.Extracting false.

(** The Event a download thread polls. *)
Definition thread_event (t : option thread) : option nat :=
  match t with
  | Some (DownloadThread _ _ _ e _ _) => Some e
  | _ => None
  end.

(** [e] is the Event of a thread started by [download_playlist]. *)
Definition playlist_event (ps : PSys) (e : nat) : Prop :=
  exists job, job ∈ playlist_jobs ps /\ thread_event (threads (sys ps) !! job) = Some e.

(** [ev] is an Event held by one of the two registries. *)
Definition registered_event (st : Sys) (ev : nat) : Prop :=
  (exists id j, job_manager st !! id = Some j /\ JobManager.cancel_event j = ev)
  \/ (exists mgr id, torrent_manager st = Some mgr
                     /\ TorrentDownloader.cancel_events mgr !! id = Some ev).

(** Playlist threads exist, their Events are allocated, unset and in no
    registry; the Events of the registries are allocated. *)
Definition playlist_invariant (ps : PSys) : Prop :=
  (forall job, job ∈ playlist_jobs ps -> job < length (threads (sys ps)))
  /\ (forall e, playlist_event ps e ->
        e < length (heap (sys ps))
        /\ Event.is_set e (heap (sys ps)) = false
        /\ ~ registered_event (sys ps) e)
  /\ (forall ev, registered_event (sys ps) ev -> ev < length (heap (sys ps))).

(** What an action may do to the threads' Events, the heap and the
    registries: threads keep their Events, the heap grows by unset Events
    or has one registered Event set, and an Event that enters a registry is
    a new one. *)
Definition benign (st st' : Sys) : Prop :=
  length (threads st) <= length (threads st')
  /\ (forall j, j < length (threads st) ->
        thread_event (threads st' !! j) = thread_event (threads st !! j))
  /\ ((exists n, heap st' = heap st ++ replicate n false)
      \/ exists ev, registered_event st ev /\ heap st' = Event.set ev (heap st))
  /\ (forall ev, registered_event st' ev ->
        registered_event st ev \/ length (heap st) <= ev < length (heap st')).

(** A run in which a playlist is requested, a media job "m1" is started and
    cancelled, and the cancellation of a playlist channel is attempted. *)
Definition playlist_scenario : list paction :=
  [PostPlaylistDownload
     {| p_video_ids := Some ["http://example.com/a"; "http://example.com/b"];
        p_playlist_mode := None; p_quality := None |};
   Base (PostDownload (Scenario.media "http://example.com/v" (Some "m1")));
   Base (PostCancel (Some "m1"));
   Base (PostCancel (Some "playlist_0"));
   Base (Ydl 0 (Downloader.ExtractOk "a" None))].

(** *** After a cancellation *)

(** What a media job whose Event is set has done since: nothing yet, or its
    worker has ended on one terminal event, which the watcher's
    notification may have followed.  [s0] is the worker's state when the
    Event was found set. *)
Definition after_cancel (s0 s : Downloader.task_state) (w : bool)
    (extra : list msg) : Prop :=
  (s = s0 /\ w = false /\ extra = [])
  \/ (s = Downloader.Exited
      /\ exists t, task_terminal t
           /\ ((w = false /\ extra = [t])
               \/ exists n, w = true /\ extra = [t; MsgWatcherFinished n])).

(** The steps of yt-dlp the worker can take in state [s]: the return of
    [extract_info] or its exception while extracting; a call of the
    progress hook, the return of [download] or its exception while
    transferring. *)
Definition enabled (s : Downloader.task_state) (y : Downloader.ydl_step) : bool :=
  match s, y with
  | Downloader.Extracting, (Downloader.ExtractOk _ _ | Downloader.ExtractRaise _) => true
  | Downloader.Transferring _ _,
    (Downloader.Hook _ | Downloader.DownloadOk | Downloader.DownloadRaise _) => true
  | _, _ => false
  end.

(** *** File names *)

(** A plain file name: it holds no slash and is neither empty nor a single
    dot, so that pathlib keeps it as one component. *)
Definition plain_name (name : string) : bool :=
  string_forall (fun c => negb (Ascii.eqb c "/")) name && kept_component name.

(** *** The phases of a media job *)

Definition is_media_progress (m : msg) : bool :=
  match m with
  | MsgMediaDownloading _ _ _ _ | MsgProcessing => true
  | _ => false
  end.

(** How the worker of a media job ends, after the progress events
    [progress]: on [cancelled], and then it has sent nothing before; on an
    [error]; or on [finished], naming a file inside [dir]. *)
Definition media_end (dir : string) (progress : list msg) (t : msg) : Prop :=
  (progress = [] /\ t = MsgCancelled)
  \/ (exists e, t = MsgError e)
  \/ (exists filename, t = MsgMediaFinished (path_join dir filename) filename).

(** What a media job has sent, phase by phase, by the state of its worker
    and watcher. *)
Definition media_phases (dir : string) (s : Downloader.task_state) (w : bool)
    (l : list msg) : Prop :=
  match s with
  | Downloader.Extracting => w = false /\ l = []
  | Downloader.Transferring _ _ =>
      w = false /\ Forall (fun m => is_media_progress m = true) l
  | Downloader.Exited =>
      exists progress t,
        Forall (fun m => is_media_progress m = true) progress
        /\ media_end dir progress t
        /\ if w then exists n, l = progress ++ [t; MsgWatcherFinished n]
           else l = progress ++ [t]
  end.

(** Every media job's trace has the phases its threads' states call for. *)
Definition worker_phases (dir : string) (st : Sys) : Prop :=
  forall job c u m e s w,
    threads st !! job = Some (DownloadThread c u m e s w) ->
    media_phases dir s w (job_messages st job).

(** * Properties *)

(** ** Identifier derivation *)

Lemma all_digits_NilEmpty (u : Decimal.uint) :
  all_digits (NilEmpty.string_of_uint u) = true.
Proof. induction u; simpl; auto. Qed.

Lemma all_digits_py_str_nat (n : N) : all_digits (py_str_nat n) = true.
Proof.
  unfold py_str_nat, NilZero.string_of_uint.
  destruct (N.to_uint n) eqn:E; try reflexivity; rewrite <- E; apply all_digits_NilEmpty.
Qed.

Lemma all_digits_string_take (n : nat) (s : string) :
  all_digits s = true -> all_digits (string_take n s) = true.
Proof.
  revert s; induction n as [|n IH]; intros [|c s]; simpl; auto.
  intros [Hc Hs]%andb_prop. rewrite Hc. simpl. auto.
Qed.

Lemma length_string_take (n : nat) (s : string) :
  String.length (string_take n s) = Nat.min n (String.length s).
Proof.
  revert s; induction n as [|n IH]; intros [|c s]; simpl; auto.
Qed.

Lemma length_py_str_nat_pos (n : N) : 1 <= String.length (py_str_nat n).
Proof.
  unfold py_str_nat, NilZero.string_of_uint.
  destruct (N.to_uint n); simpl; lia.
Qed.

Lemma falsy_Some_ne (s : string) : s <> "" -> falsy (Some s) = false.
Proof. intros H. simpl. by apply String.eqb_neq. Qed.

Section Properties.

Variable py_hash : string -> Z.
Variable DEFAULT_DL_DIR : string.
Variable TORRENT_DL_DIR : string.

Lemma safe_hash_id_shape (s : string) :
  all_digits (safe_hash_id py_hash s) = true
  /\ 1 <= String.length (safe_hash_id py_hash s) <= 12.
Proof.
  unfold safe_hash_id. split.
  - apply all_digits_string_take, all_digits_py_str_nat.
  - rewrite length_string_take.
    pose proof (length_py_str_nat_pos (Z.to_N (Z.abs (py_hash s)))). lia.
Qed.

Lemma start_download_registers (st : Sys) (p : download_payload) (src : string) :
  src <> "" -> p_url p = Some src -> p_id p = None ->
  let id := safe_hash_id py_hash src in
  is_Some (job_manager (fst (start_download py_hash st p)) !! id)
  /\ (snd (start_download py_hash st p) = Json id "started"
      \/ snd (start_download py_hash st p) = JsonError 400 "job already running").
Proof.
  intros Hsrc Hurl Hid id. unfold start_download.
  rewrite Hurl, Hid, (falsy_Some_ne _ Hsrc). simpl. fold id.
  unfold JobManager.is_running. case_bool_decide as Hrun; simpl.
  - split; [done | by right].
  - split; [| by left]. unfold JobManager.register.
    rewrite lookup_insert_eq. by eexists.
Qed.

(** C10: two creation requests that omit the id and carry the same URL
    (media lane) or the same magnet URI (torrent lane) are given the same
    identifier, [safe_hash_id] of the source: a string of 1 to 12 decimal
    digits.  In the media lane both requests leave a job registered under
    it (answering "started", or "job already running" when it was there
    already); in the torrent lane both answer "started" with it. *)
Theorem safe_hash_id_deterministic (src : string) (st1 st2 : Sys)
    (p1 p2 : download_payload) (q1 q2 : torrent_payload) (h1 h2 : nat) :
  src <> "" ->
  p_url p1 = Some src -> p_id p1 = None ->
  p_url p2 = Some src -> p_id p2 = None ->
  p_magnet q1 = Some src -> p_torrent_id q1 = None ->
  p_magnet q2 = Some src -> p_torrent_id q2 = None ->
  let id := safe_hash_id py_hash src in
  all_digits id = true
  /\ 1 <= String.length id <= 12
  /\ is_Some (job_manager (fst (start_download py_hash st1 p1)) !! id)
  /\ is_Some (job_manager (fst (start_download py_hash st2 p2)) !! id)
  /\ (snd (start_download py_hash st1 p1) = Json id "started"
      \/ snd (start_download py_hash st1 p1) = JsonError 400 "job already running")
  /\ (snd (start_download py_hash st2 p2) = Json id "started"
      \/ snd (start_download py_hash st2 p2) = JsonError 400 "job already running")
  /\ snd (add_torrent py_hash TORRENT_DL_DIR st1 q1 (TorrentDownloader.Added h1))
     = Json id "started"
  /\ snd (add_torrent py_hash TORRENT_DL_DIR st2 q2 (TorrentDownloader.Added h2))
     = Json id "started".
Proof.
  intros Hsrc Hu1 Hi1 Hu2 Hi2 Hm1 Ht1 Hm2 Ht2 id.
  destruct (safe_hash_id_shape src) as [Hd Hl].
  destruct (start_download_registers st1 p1 src Hsrc Hu1 Hi1) as [Hr1 Ha1].
  destruct (start_download_registers st2 p2 src Hsrc Hu2 Hi2) as [Hr2 Ha2].
  subst id. split_and!; try done; try lia.
  - unfold add_torrent. rewrite Hm1, Ht1, (falsy_Some_ne _ Hsrc). reflexivity.
  - unfold add_torrent. rewrite Hm2, Ht2, (falsy_Some_ne _ Hsrc). reflexivity.
Qed.

End Properties.

Lemma safe_hash_id_deterministic_witness :
  let id := safe_hash_id Scenario.hash "http://example.com/v" in
  all_digits id = true
  /\ 1 <= String.length id <= 12
  /\ is_Some (job_manager (fst (start_download Scenario.hash initial
                                  (Scenario.media "http://example.com/v" None))) !! id)
  /\ is_Some (job_manager (fst (start_download Scenario.hash initial
                                  (Scenario.media "http://example.com/v" None))) !! id)
  /\ (snd (start_download Scenario.hash initial (Scenario.media "http://example.com/v" None))
      = Json id "started"
      \/ snd (start_download Scenario.hash initial (Scenario.media "http://example.com/v" None))
         = JsonError 400 "job already running")
  /\ (snd (start_download Scenario.hash initial (Scenario.media "http://example.com/v" None))
      = Json id "started"
      \/ snd (start_download Scenario.hash initial (Scenario.media "http://example.com/v" None))
         = JsonError 400 "job already running")
  /\ snd (add_torrent Scenario.hash Scenario.torrents initial
            (Scenario.magnet "http://example.com/v" None) (TorrentDownloader.Added 0))
     = Json id "started"
  /\ snd (add_torrent Scenario.hash Scenario.torrents initial
            (Scenario.magnet "http://example.com/v" None) (TorrentDownloader.Added 1))
     = Json id "started".
Proof.
  apply (safe_hash_id_deterministic Scenario.hash Scenario.torrents
           "http://example.com/v" initial initial
           (Scenario.media "http://example.com/v" None)
           (Scenario.media "http://example.com/v" None)
           (Scenario.magnet "http://example.com/v" None)
           (Scenario.magnet "http://example.com/v" None) 0 1);
    first [ discriminate | reflexivity ].
Defined.

(** ** What the callbacks add to the log *)

Lemma foldl_progress_sender (job : nat) (client_id : string) (st : Sys) (sent : list msg) :
  foldl (progress_sender job client_id) st sent
  = {| heap := heap st; job_manager := job_manager st;
       torrent_manager := torrent_manager st; threads := threads st;
       history := history st;
       ws_log := ws_log st
                 ++ ((fun m => {| ws_job := job; ws_channel := client_id;
                                  ws_message := m |}) <$> sent) |}.
Proof.
  revert st; induction sent as [|m sent IH]; intros st; simpl.
  - destruct st; simpl. by rewrite app_nil_r.
  - rewrite IH. simpl. by rewrite <- app_assoc.
Qed.

Lemma foldl_torrent_progress_callback (job : nat) (id magnet_link : string)
    (st : Sys) (sent : list msg) :
  foldl (torrent_progress_callback job id magnet_link) st sent
  = {| heap := heap st; job_manager := job_manager st;
       torrent_manager := torrent_manager st; threads := threads st;
       history := history st ++ flat_map (callback_history id magnet_link) sent;
       ws_log := ws_log st
                 ++ ((fun m => {| ws_job := job; ws_channel := "torrent_" +:+ id;
                                  ws_message := m |})
                       <$> flat_map (callback_sends id) sent) |}.
Proof.
  revert st; induction sent as [|m sent IH]; intros st; simpl.
  - destruct st; simpl. by rewrite !app_nil_r.
  - rewrite IH. unfold torrent_progress_callback, callback_sends, callback_history.
    destruct (decide (msg_status m = Some "finished")); simpl;
      rewrite <- ?app_assoc; reflexivity.
Qed.

Lemma messages_tagged (job job' : nat) (channel : string) (l : list msg) :
  ws_message <$> filter (fun s => ws_job s = job')
                   ((fun m => {| ws_job := job; ws_channel := channel;
                                 ws_message := m |}) <$> l)
  = if decide (job = job') then l else [].
Proof.
  induction l as [|m l IH].
  - by destruct (decide (job = job')).
  - rewrite fmap_cons, filter_cons. cbn [ws_job].
    destruct (decide (job = job')) as [Heq|Hne].
    + rewrite fmap_cons, IH. cbn [ws_message]. reflexivity.
    + exact IH.
Qed.

(** ** Shape of a job's trace *)

Lemma quiet_app (l1 l2 : list msg) : quiet l1 -> quiet l2 -> quiet (l1 ++ l2).
Proof. unfold quiet. intros. by apply Forall_app. Qed.

Lemma task_terminal_is_terminal (t : msg) : task_terminal t -> is_terminal t = true.
Proof. intros [->|[[e ->]|(p & f & ->)]]; reflexivity. Qed.

Lemma quiet_terminal_count (l : list msg) : quiet l -> terminal_count l = 0.
Proof.
  unfold quiet, terminal_count. induction 1 as [|m l Hm Hl IH]; [done|].
  rewrite filter_cons. destruct (decide (is_terminal m = true)); [congruence|done].
Qed.

Lemma one_terminal_last_snoc (pre : list msg) (t : msg) :
  quiet pre -> is_terminal t = true -> one_terminal_last (pre ++ [t]) = true.
Proof.
  intros Hq Ht. unfold one_terminal_last, terminal_count in *.
  rewrite filter_app, length_app, last_snoc, Ht.
  pose proof (quiet_terminal_count pre Hq) as Hc. unfold terminal_count in Hc.
  rewrite Hc, filter_cons. destruct (decide (is_terminal t = true)); done.
Qed.

Lemma progress_hook_sends (d : gmap string pyval) (c : bool) :
  match Downloader.progress_hook d c with
  | Downloader.HookRaise _ => True
  | Downloader.HookReturn sent => quiet sent
  end.
Proof.
  unfold Downloader.progress_hook. destruct c; [done|].
  destruct (d !! "status") as [st|]; [|done].
  repeat case_decide; unfold quiet; repeat constructor.
Qed.

Lemma download_task_trace (dir mode : string) (c w : bool)
    (s s' : Downloader.task_state) (y : Downloader.ydl_step) (old sent : list msg) :
  media_trace s w old ->
  Downloader.download_task dir mode c s y = (s', sent) ->
  media_trace s' w (old ++ sent).
Proof.
  intros Hold Hstep.
  destruct w.
  { destruct s; simpl in Hold; try done.
    simpl in Hstep. destruct y; inversion Hstep; subst; by rewrite app_nil_r. }
  destruct s as [|stem ext|]; simpl in Hold.
  - destruct y; simpl in Hstep; try (inversion Hstep; subst; rewrite app_nil_r; done).
    + destruct c; inversion Hstep; subst; simpl.
      * exists old, MsgCancelled. unfold task_terminal. naive_solver.
      * by rewrite app_nil_r.
    + inversion Hstep; subst. simpl. exists old, (MsgError e).
      unfold task_terminal. naive_solver.
  - destruct y; simpl in Hstep; try (inversion Hstep; subst; rewrite app_nil_r; done).
    + pose proof (progress_hook_sends d c) as Hq.
      destruct (Downloader.progress_hook d c) as [e|out]; inversion Hstep; subst; simpl.
      * exists old, (MsgError e). unfold task_terminal. naive_solver.
      * by apply quiet_app.
    + inversion Hstep; subst. simpl. eexists old, _. unfold task_terminal. naive_solver.
    + inversion Hstep; subst. simpl. exists old, (MsgError e). unfold task_terminal. naive_solver.
  - simpl in Hstep. destruct y; inversion Hstep; subst; by rewrite app_nil_r.
Qed.

Lemma monitor_cancel_events (self self' : TorrentDownloader.t) (h : Event.heap)
    (id : string) (handle : nat) (s s' : TorrentDownloader.monitor_state)
    (v : TorrentDownloader.handle_view) (sent : list msg) :
  TorrentDownloader._monitor self h id handle s v = (self', s', sent) ->
  TorrentDownloader.cancel_events self' = TorrentDownloader.cancel_events self.
Proof.
  unfold TorrentDownloader._monitor. intros H.
  repeat (case_match; simplify_eq); done.
Qed.

Lemma monitor_trace (self self' : TorrentDownloader.t) (h : Event.heap)
    (id : string) (handle : nat) (s s' : TorrentDownloader.monitor_state)
    (v : TorrentDownloader.handle_view) (old sent : list msg) :
  is_Some (TorrentDownloader.cancel_events self !! id) ->
  torrent_trace id s old ->
  TorrentDownloader._monitor self h id handle s v = (self', s', sent) ->
  torrent_trace id s' (old ++ flat_map (callback_sends id) sent).
Proof.
  intros [ev Hev] Hold. unfold TorrentDownloader._monitor. rewrite Hev. intros H.
  destruct s as [n|info|]; simpl in Hold.
  - repeat (case_match; simplify_eq); simpl.
    + apply quiet_app; [done|]. repeat constructor.
    + exists old. eauto.
    + apply quiet_app; [done|]. repeat constructor.
  - repeat (case_match; simplify_eq); simpl.
    + exists old. split; [done|]. right. eauto.
    + exists old. eauto.
    + apply quiet_app; [done|]. repeat constructor.
  - simplify_eq. simpl. by rewrite app_nil_r.
Qed.

Lemma job_messages_fresh (st : Sys) (job : nat) :
  (forall s, s ∈ ws_log st -> ws_job s < job) ->
  job_messages st job = [].
Proof.
  intros H. unfold job_messages.
  induction (ws_log st) as [|s l IH]; [done|].
  rewrite filter_cons. destruct (decide (ws_job s = job)) as [Heq|Hne].
  - pose proof (H s ltac:(left)). lia.
  - apply IH. intros s' Hs'. apply H. by right.
Qed.

Lemma trace_invariant_frame (st st' : Sys) :
  trace_invariant st -> manager_extends st st' ->
  threads st' = threads st -> ws_log st' = ws_log st ->
  trace_invariant st'.
Proof.
  intros (I1 & I2 & I3) Hm Ht Hl. unfold trace_invariant, job_messages in *.
  rewrite Ht, Hl. split_and!; [done|done|].
  intros job id m h s Hjob. destruct (I3 _ _ _ _ _ Hjob) as (mgr & Hmgr & Hev).
  destruct (Hm mgr Hmgr) as (mgr' & Hmgr' & Hext). eauto.
Qed.

Lemma trace_invariant_spawn (st st' : Sys) (t : thread) :
  trace_invariant st -> manager_extends st st' ->
  threads st' = threads st ++ [t] -> ws_log st' = ws_log st ->
  job_trace t [] ->
  (forall id m h s, t = MonitorThread id m h s ->
     exists mgr, torrent_manager st' = Some mgr
                 /\ is_Some (TorrentDownloader.cancel_events mgr !! id)) ->
  trace_invariant st'.
Proof.
  intros (I1 & I2 & I3) Hm Ht Hl Hnew Hmon.
  assert (Hfresh : job_messages st (length (threads st)) = [])
    by (by apply job_messages_fresh).
  unfold trace_invariant, job_messages in *. rewrite Ht, Hl. split_and!.
  - intros s Hs. rewrite length_app. specialize (I1 s Hs). lia.
  - intros job t' Hjob. apply lookup_app_Some in Hjob as [Hjob|[Hge Hjob]].
    + by apply I2.
    + apply list_lookup_singleton_Some in Hjob as [Hz ->].
      replace job with (length (threads st)) by lia. by rewrite Hfresh.
  - intros job id m h s Hjob. apply lookup_app_Some in Hjob as [Hjob|[Hge Hjob]].
    + destruct (I3 _ _ _ _ _ Hjob) as (mgr & Hmgr & Hev).
      destruct (Hm mgr Hmgr) as (mgr' & Hmgr' & Hext). eauto.
    + apply list_lookup_singleton_Some in Hjob as [Hz ->]. eauto.
Qed.

Lemma trace_invariant_update (st st' : Sys) (job : nat) (channel : string)
    (t t' : thread) (sent : list msg) :
  trace_invariant st -> manager_extends st st' ->
  threads st !! job = Some t ->
  threads st' = <[job := t']> (threads st) ->
  ws_log st' = ws_log st
               ++ ((fun m => {| ws_job := job; ws_channel := channel;
                                ws_message := m |}) <$> sent) ->
  job_trace t' (job_messages st job ++ sent) ->
  (forall id m h s', t' = MonitorThread id m h s' ->
     exists s, t = MonitorThread id m h s) ->
  trace_invariant st'.
Proof.
  intros (I1 & I2 & I3) Hm Hjob Ht Hl Hnew Hmon.
  pose proof (lookup_lt_Some _ _ _ Hjob) as Hlt.
  unfold trace_invariant, job_messages in *. rewrite Ht, Hl. split_and!.
  - intros s Hs. rewrite length_insert. apply elem_of_app in Hs as [Hs|Hs].
    + by apply I1.
    + apply list_elem_of_fmap in Hs as (m & -> & _). done.
  - intros job' t'' Hjob'. rewrite filter_app, fmap_app, messages_tagged.
    destruct (decide (job = job')) as [<-|Hne].
    + rewrite list_lookup_insert_eq in Hjob' by done. by simplify_eq.
    + rewrite list_lookup_insert_ne in Hjob' by done. rewrite app_nil_r. by apply I2.
  - intros job' id m h s Hjob'.
    assert (exists s0, threads st !! job' = Some (MonitorThread id m h s0)) as [s0 Hs0].
    { destruct (decide (job = job')) as [<-|Hne].
      - rewrite list_lookup_insert_eq in Hjob' by done. simplify_eq.
        destruct (Hmon _ _ _ _ eq_refl) as [s0 ->]. eauto.
      - rewrite list_lookup_insert_ne in Hjob' by done. eauto. }
    destruct (I3 _ _ _ _ _ Hs0) as (mgr & Hmgr & Hev).
    destruct (Hm mgr Hmgr) as (mgr' & Hmgr' & Hext). eauto.
Qed.

Lemma manager_extends_refl (st st' : Sys) :
  torrent_manager st' = torrent_manager st -> manager_extends st st'.
Proof. intros H mgr Hmgr. exists mgr. rewrite H. eauto. Qed.

Section TraceInvariant.

Variable py_hash : string -> Z.
Variable DEFAULT_DL_DIR : string.
Variable TORRENT_DL_DIR : string.

Lemma trace_invariant_initial : trace_invariant initial.
Proof.
  split_and!.
  - intros s Hs. simpl in Hs. by apply elem_of_nil in Hs.
  - intros job t Hjob. simpl in Hjob. by rewrite lookup_nil in Hjob.
  - intros job id m h s Hjob. simpl in Hjob. by rewrite lookup_nil in Hjob.
Qed.

Lemma trace_invariant_start_download (st : Sys) (p : download_payload) :
  trace_invariant st -> trace_invariant (fst (start_download py_hash st p)).
Proof.
  intros Hinv. unfold start_download.
  destruct (falsy (p_url p)); [done|].
  destruct (JobManager.is_running _ _); [done|]. simpl.
  eapply trace_invariant_spawn; [exact Hinv| by apply manager_extends_refl
                                |reflexivity|reflexivity| |done].
  simpl. constructor.
Qed.

Lemma trace_invariant_cancel_download (st : Sys) (id : option string) :
  trace_invariant st -> trace_invariant (fst (cancel_download st id)).
Proof.
  intros Hinv. unfold cancel_download.
  destruct (falsy id); [done|].
  destruct (JobManager.get_cancel_event _ _); [|done]. simpl.
  eapply trace_invariant_frame; [exact Hinv| by apply manager_extends_refl|done|done].
Qed.

Lemma trace_invariant_add_torrent (st : Sys) (p : torrent_payload)
    (lt : TorrentDownloader.lt_answer) :
  trace_invariant st -> trace_invariant (fst (add_torrent py_hash TORRENT_DL_DIR st p lt)).
Proof.
  intros Hinv. unfold add_torrent.
  destruct (falsy (p_magnet p)); [done|].
  set (id := id_or_hash py_hash (p_torrent_id p) (default "" (p_magnet p))).
  destruct lt as [e|e|handle]; simpl.
  - eapply trace_invariant_frame; [exact Hinv| |done|done].
    intros mgr Hmgr. simpl. rewrite Hmgr. simpl. eauto.
  - eapply trace_invariant_frame; [exact Hinv| |done|done].
    intros mgr Hmgr. simpl. rewrite Hmgr. simpl. eauto.
  - eapply trace_invariant_spawn; [exact Hinv| |reflexivity|reflexivity| |].
    + intros mgr Hmgr. simpl. rewrite Hmgr. simpl. eexists; split; [done|].
      intros id' Hid'. cbn [TorrentDownloader.cancel_events].
      rewrite lookup_insert. case_decide; [by eexists|done].
    + simpl. constructor.
    + intros id' m h s Heq. simplify_eq. simpl. eexists; split; [done|].
      simpl. rewrite lookup_insert_eq. by eexists.
Qed.

Lemma trace_invariant_cancel_torrent (st : Sys) (id : option string) :
  trace_invariant st ->
  trace_invariant (fst (cancel_torrent_download TORRENT_DL_DIR st id)).
Proof.
  intros Hinv. unfold cancel_torrent_download.
  destruct (falsy id); [done|]. simpl.
  eapply trace_invariant_frame; [exact Hinv| |done|done].
  intros mgr Hmgr. simpl. rewrite Hmgr. simpl. eauto.
Qed.

Lemma trace_invariant_download_thread (st : Sys) (job : nat) (y : Downloader.ydl_step) :
  trace_invariant st -> trace_invariant (download_thread_step DEFAULT_DL_DIR st job y).
Proof.
  intros Hinv. unfold download_thread_step.
  destruct (threads st !! job) as [[cid url mode ev s w|]|] eqn:Hjob; try done.
  destruct (Downloader.download_task _ _ _ s y) as [s' sent] eqn:Hstep.
  rewrite foldl_progress_sender. simpl.
  eapply trace_invariant_update;
    [exact Hinv| by apply manager_extends_refl |exact Hjob|reflexivity|reflexivity| |done].
  simpl. eapply download_task_trace; [|exact Hstep].
  destruct Hinv as (_ & I2 & _). exact (I2 _ _ Hjob).
Qed.

Lemma trace_invariant_watcher (st : Sys) (job : nat) (final_name : option string) :
  trace_invariant st -> trace_invariant (watcher st job final_name).
Proof.
  intros Hinv. unfold watcher.
  destruct (threads st !! job) as [[cid url mode ev [| |] [|]|]|] eqn:Hjob; try done.
  eapply (trace_invariant_update _ _ job cid _ _ [MsgWatcherFinished final_name]);
    [exact Hinv| by apply manager_extends_refl |exact Hjob|reflexivity|reflexivity| |done].
  destruct Hinv as (_ & I2 & _). specialize (I2 _ _ Hjob). simpl in *.
  destruct I2 as (pre & t & -> & Hq & Ht).
  exists pre, t, final_name. by rewrite <- app_assoc.
Qed.

Lemma trace_invariant_monitor_thread (st : Sys) (job : nat)
    (v : TorrentDownloader.handle_view) :
  trace_invariant st -> trace_invariant (monitor_thread_step st job v).
Proof.
  intros Hinv. unfold monitor_thread_step.
  destruct (threads st !! job) as [[|id m handle s]|] eqn:Hjob; try done.
  destruct (torrent_manager st) as [mgr|] eqn:Hmgr; [|done].
  destruct (TorrentDownloader._monitor mgr (heap st) id handle s v)
    as [[mgr' s'] sent] eqn:Hstep.
  rewrite foldl_torrent_progress_callback. simpl.
  destruct Hinv as (I1 & I2 & I3).
  destruct (I3 _ _ _ _ _ Hjob) as (mgr0 & Hmgr0 & Hev). simplify_eq.
  eapply trace_invariant_update;
    [exact (conj I1 (conj I2 I3))| |exact Hjob|reflexivity|reflexivity| |].
  - intros mgr1 Hmgr1. simpl. eexists; split; [done|]. simplify_eq.
    by rewrite (monitor_cancel_events _ _ _ _ _ _ _ _ _ Hstep).
  - simpl. eapply monitor_trace; [exact Hev| |exact Hstep]. exact (I2 _ _ Hjob).
  - intros ? ? ? ? Heq. simplify_eq. eauto.
Qed.

Lemma trace_invariant_step (st : Sys) (a : action) :
  trace_invariant st ->
  trace_invariant (step py_hash DEFAULT_DL_DIR TORRENT_DL_DIR st a).
Proof.
  destruct a; simpl;
    auto using trace_invariant_start_download, trace_invariant_cancel_download,
      trace_invariant_add_torrent, trace_invariant_cancel_torrent,
      trace_invariant_download_thread, trace_invariant_watcher,
      trace_invariant_monitor_thread.
Qed.

Lemma trace_invariant_run (l : list action) (st : Sys) :
  trace_invariant st ->
  trace_invariant (run py_hash DEFAULT_DL_DIR TORRENT_DL_DIR st l).
Proof.
  revert st. induction l as [|a l IH]; intros st Hinv; [done|].
  simpl. apply IH. by apply trace_invariant_step.
Qed.


End TraceInvariant.


(** Between the exit of a media worker and the run of its watcher, and
    after a torrent monitor has exited on a cancellation, the job's trace
    holds exactly one terminal event, the last one. *)
Lemma worker_exit_one_terminal (py_hash : string -> Z) (dir tdir : string)
    (l : list action) (job : nat) (t : thread) :
  threads (run py_hash dir tdir initial l) !! job = Some t ->
  match t with
  | DownloadThread _ _ _ _ Downloader.Exited false =>
      one_terminal_last (job_messages (run py_hash dir tdir initial l) job) = true
  | MonitorThread _ _ _ TorrentDownloader.MonitorExited =>
      last (job_messages (run py_hash dir tdir initial l) job) = Some MsgCancelled ->
      one_terminal_last (job_messages (run py_hash dir tdir initial l) job) = true
  | _ => True
  end.
Proof.
  intros Hjob.
  destruct (trace_invariant_run py_hash dir tdir l initial trace_invariant_initial)
    as (_ & I2 & _).
  specialize (I2 _ _ Hjob). destruct t as [cid url mode ev [| |] [|]|id m h [| |]];
    simpl in I2; try done.
  - destruct I2 as (pre & t & -> & Hq & Ht).
    apply one_terminal_last_snoc; [done|by apply task_terminal_is_terminal].
  - destruct I2 as (pre & Hq & [->|(p & n & ->)]).
    + intros _. by apply one_terminal_last_snoc.
    + intros Hl. exfalso.
      change (pre ++ [MsgTorrentFinished p n; MsgToast id p; MsgCompleted id p n])
        with (pre ++ [MsgTorrentFinished p n; MsgToast id p] ++ [MsgCompleted id p n])
        in Hl.
      rewrite app_assoc, last_snoc in Hl. discriminate.
Qed.


(** ** The registries in reachable states *)

Section RegistryInvariant.

Variable py_hash : string -> Z.
Variable DEFAULT_DL_DIR : string.
Variable TORRENT_DL_DIR : string.

Lemma registry_invariant_initial : registry_invariant initial.
Proof.
  split.
  - intros id j H. simpl in H. by rewrite lookup_empty in H.
  - intros mgr id ev H. done.
Qed.

Lemma registry_invariant_start_download (st : Sys) (p : download_payload) :
  registry_invariant st -> registry_invariant (fst (start_download py_hash st p)).
Proof.
  intros [R1 R2]. unfold start_download.
  destruct (falsy (p_url p)); [done|].
  set (id := id_or_hash py_hash (p_id p) (default "" (p_url p))).
  destruct (JobManager.is_running id (job_manager st)) eqn:Hrun; [done|].
  split; simpl.
  - intros id' j. unfold JobManager.register. rewrite lookup_insert.
    case_decide as Hid; intros Hj; simplify_eq; simpl.
    + rewrite length_app. simpl. split; [lia|].
      eexists _, _, _. by rewrite lookup_app_r, Nat.sub_diag by lia.
    + destruct (R1 _ _ Hj) as (Hlt & url & mode & s & Hth).
      rewrite length_app. split; [lia|].
      eexists _, _, _. by rewrite lookup_app_l by (by eapply lookup_lt_Some).
  - intros mgr id' ev Hmgr Hev. rewrite length_app. specialize (R2 _ _ _ Hmgr Hev). lia.
Qed.

Lemma registry_invariant_cancel_download (st : Sys) (id : option string) :
  registry_invariant st -> registry_invariant (fst (cancel_download st id)).
Proof.
  intros [R1 R2]. unfold cancel_download.
  destruct (falsy id); [done|].
  destruct (JobManager.get_cancel_event _ _); [|done].
  split; simpl; unfold Event.set; setoid_rewrite length_insert; done.
Qed.

Lemma registry_invariant_add_torrent (st : Sys) (p : torrent_payload)
    (lt : TorrentDownloader.lt_answer) :
  registry_invariant st ->
  registry_invariant (fst (add_torrent py_hash TORRENT_DL_DIR st p lt)).
Proof.
  intros [R1 R2]. unfold add_torrent.
  destruct (falsy (p_magnet p)); [done|].
  set (id := id_or_hash py_hash (p_torrent_id p) (default "" (p_magnet p))).
  assert (Hget : forall id' ev,
            TorrentDownloader.cancel_events
              (get_torrent_manager (torrent_manager st) TORRENT_DL_DIR) !! id' = Some ev ->
            ev < length (heap st)).
  { intros id' ev. unfold get_torrent_manager.
    destruct (torrent_manager st) as [mgr|] eqn:Hmgr; simpl; [by eauto|].
    by rewrite lookup_empty. }
  destruct lt as [e|e|handle]; simpl.
  - split; simpl; [done|]. intros mgr id' ev ? Hev. simplify_eq. eauto.
  - split; simpl; [done|]. intros mgr id' ev ? Hev. simplify_eq. eauto.
  - split; simpl.
    + intros id' j Hj. destruct (R1 _ _ Hj) as (Hlt & url & mode & s & Hth).
      rewrite length_app. split; [lia|].
      eexists _, _, _. by rewrite lookup_app_l by (by eapply lookup_lt_Some).
    + intros mgr id' ev ? Hev. simplify_eq. simpl in Hev. rewrite length_app. simpl.
      rewrite lookup_insert in Hev. case_decide; simplify_eq; [lia|].
      specialize (Hget _ _ Hev). lia.
Qed.

Lemma registry_invariant_cancel_torrent (st : Sys) (id : option string) :
  registry_invariant st ->
  registry_invariant (fst (cancel_torrent_download TORRENT_DL_DIR st id)).
Proof.
  intros [R1 R2]. unfold cancel_torrent_download.
  destruct (falsy id); [done|]. simpl.
  assert (Hlen : length (match
                   TorrentDownloader.cancel_events
                     (get_torrent_manager (torrent_manager st) TORRENT_DL_DIR)
                   !! default "" id
                 with Some ev => Event.set ev (heap st) | None => heap st end)
                 = length (heap st)).
  { case_match; [|done]. unfold Event.set. by rewrite length_insert. }
  split; simpl; rewrite Hlen; [done|].
  intros mgr id' ev ? Hev. simplify_eq. unfold get_torrent_manager in Hev.
  destruct (torrent_manager st) as [mgr|] eqn:Hmgr; simpl in Hev; [by eauto|].
  by rewrite lookup_empty in Hev.
Qed.

Lemma registry_invariant_download_thread (st : Sys) (job : nat) (y : Downloader.ydl_step) :
  registry_invariant st ->
  registry_invariant (download_thread_step DEFAULT_DL_DIR st job y).
Proof.
  intros [R1 R2]. unfold download_thread_step.
  destruct (threads st !! job) as [[cid url mode ev s w|]|] eqn:Hjob; try done.
  destruct (Downloader.download_task _ _ _ s y) as [s' sent] eqn:Hstep.
  rewrite foldl_progress_sender. split; simpl; [|done].
  intros id j Hj. destruct (R1 _ _ Hj) as (Hlt & url' & mode' & s0 & Hth).
  split; [done|]. destruct (decide (JobManager.thread j = job)) as [Heq|Hne].
  - rewrite Heq in Hth |- *. simplify_eq. eexists _, _, _.
    by rewrite list_lookup_insert_eq by (by eapply lookup_lt_Some).
  - eexists _, _, _. by rewrite list_lookup_insert_ne by done.
Qed.

Lemma registry_invariant_watcher (st : Sys) (job : nat) (final_name : option string) :
  registry_invariant st -> registry_invariant (watcher st job final_name).
Proof.
  intros [R1 R2]. unfold watcher.
  destruct (threads st !! job) as [[cid url mode ev [| |] [|]|]|] eqn:Hjob; try done.
  split; simpl; [|done].
  intros id j. unfold JobManager.unregister. rewrite lookup_delete.
  case_decide as Hid; [done|]. intros Hj.
  destruct (R1 _ _ Hj) as (Hlt & url' & mode' & s0 & Hth).
  split; [done|]. eexists _, _, _. rewrite list_lookup_insert_ne; [exact Hth|].
  intros Heq. rewrite Heq in Hjob. by simplify_eq.
Qed.

Lemma registry_invariant_monitor_thread (st : Sys) (job : nat)
    (v : TorrentDownloader.handle_view) :
  registry_invariant st -> registry_invariant (monitor_thread_step st job v).
Proof.
  intros Hinv. unfold monitor_thread_step.
  destruct (threads st !! job) as [[|id m handle s]|] eqn:Hjob; try done.
  destruct (torrent_manager st) as [mgr|] eqn:Hmgr; [|done].
  destruct Hinv as [R1 R2].
  destruct (TorrentDownloader._monitor mgr (heap st) id handle s v)
    as [[mgr' s'] sent] eqn:Hstep.
  rewrite foldl_torrent_progress_callback. split; simpl.
  - intros id' j Hj. destruct (R1 _ _ Hj) as (Hlt & url' & mode' & s0 & Hth).
    split; [done|]. eexists _, _, _. rewrite list_lookup_insert_ne; [exact Hth|].
    intros Heq. rewrite Heq in Hjob. by simplify_eq.
  - intros mgr1 id' ev ? Hev. simplify_eq.
    rewrite (monitor_cancel_events _ _ _ _ _ _ _ _ _ Hstep) in Hev. eauto.
Qed.

Lemma registry_invariant_run (l : list action) (st : Sys) :
  registry_invariant st ->
  registry_invariant (run py_hash DEFAULT_DL_DIR TORRENT_DL_DIR st l).
Proof.
  revert st. induction l as [|a l IH]; intros st Hinv; [done|].
  simpl. apply IH. destruct a; simpl;
    auto using registry_invariant_start_download, registry_invariant_cancel_download,
      registry_invariant_add_torrent, registry_invariant_cancel_torrent,
      registry_invariant_download_thread, registry_invariant_watcher,
      registry_invariant_monitor_thread.
Qed.

End RegistryInvariant.

(** ** Duplicate creation requests *)

(** Media lane: a creation request whose identifier has a registered job is
    rejected and leaves the state as it was. *)
Lemma start_download_rejects_running (py_hash : string -> Z) (st : Sys)
    (p : download_payload) :
  falsy (p_url p) = false ->
  JobManager.is_running
    (id_or_hash py_hash (p_id p) (default "" (p_url p))) (job_manager st) = true ->
  start_download py_hash st p = (st, JsonError 400 "job already running").
Proof. intros Hu Hr. unfold start_download. by rewrite Hu, Hr. Qed.

Section ActiveJobs.

Variable py_hash : string -> Z.
Variable DEFAULT_DL_DIR : string.
Variable TORRENT_DL_DIR : string.

Lemma active_registered_step (st : Sys) (a : action) :
  active_registered st ->
  active_registered (step py_hash DEFAULT_DL_DIR TORRENT_DL_DIR st a).
Proof.
  intros Hact. destruct a as [p|id|p lt|id|j y|j n|j v]; simpl.
  - unfold start_download. destruct (falsy (p_url p)); [done|].
    set (id := id_or_hash py_hash (p_id p) (default "" (p_url p))).
    destruct (JobManager.is_running id (job_manager st)) eqn:Hrun; [done|].
    apply bool_decide_eq_false in Hrun.
    intros t cid url mode ev s Ht. simpl in *. unfold JobManager.register.
    apply lookup_app_Some in Ht as [Ht|[Hge Ht]].
    + specialize (Hact _ _ _ _ _ _ Ht). rewrite lookup_insert_ne; [done|].
      intros <-. apply Hrun. by eexists.
    + apply list_lookup_singleton_Some in Ht as [Hz Ht]. simplify_eq.
      rewrite lookup_insert_eq. do 2 f_equal. lia.
  - unfold cancel_download. destruct (falsy id); [done|].
    by destruct (JobManager.get_cancel_event _ _).
  - unfold add_torrent. destruct (falsy (p_magnet p)); [done|].
    destruct lt as [e|e|handle]; simpl; [done|done|].
    intros t cid url mode ev s Ht. simpl in *.
    apply lookup_app_Some in Ht as [Ht|[Hge Ht]]; [by eapply Hact|].
    by apply list_lookup_singleton_Some in Ht as [Hz Ht].
  - unfold cancel_torrent_download. by destruct (falsy id).
  - unfold download_thread_step.
    destruct (threads st !! j) as [[cid url mode ev s w|]|] eqn:Hj; try done.
    destruct (Downloader.download_task _ _ _ s y) as [s' sent] eqn:Hstep.
    rewrite foldl_progress_sender.
    intros t cid' url' mode' ev' s0 Ht. simpl in *.
    destruct (decide (j = t)) as [<-|Hne].
    + rewrite list_lookup_insert_eq in Ht by (by eapply lookup_lt_Some).
      simplify_eq. by eapply Hact.
    + rewrite list_lookup_insert_ne in Ht by done. by eapply Hact.
  - unfold watcher.
    destruct (threads st !! j) as [[cid url mode ev [| |] [|]|]|] eqn:Hj; try done.
    intros t cid' url' mode' ev' s0 Ht. simpl in *. unfold JobManager.unregister.
    destruct (decide (j = t)) as [<-|Hne].
    + rewrite list_lookup_insert_eq in Ht by (by eapply lookup_lt_Some). done.
    + rewrite list_lookup_insert_ne in Ht by done.
      pose proof (Hact _ _ _ _ _ _ Ht) as Hreg.
      pose proof (Hact _ _ _ _ _ _ Hj) as Hreg'.
      rewrite lookup_delete_ne; [done|]. intros <-. congruence.
  - unfold monitor_thread_step.
    destruct (threads st !! j) as [[|id m handle s]|] eqn:Hj; try done.
    destruct (torrent_manager st) as [mgr|] eqn:Hmgr; [|done].
    destruct (TorrentDownloader._monitor mgr (heap st) id handle s v)
      as [[mgr' s'] sent] eqn:Hstep.
    rewrite foldl_torrent_progress_callback.
    intros t cid' url' mode' ev' s0 Ht. simpl in *.
    destruct (decide (j = t)) as [<-|Hne].
    + rewrite list_lookup_insert_eq in Ht by (by eapply lookup_lt_Some). done.
    + rewrite list_lookup_insert_ne in Ht by done. by eapply Hact.
Qed.

Lemma active_registered_run (l : list action) (st : Sys) :
  active_registered st ->
  active_registered (run py_hash DEFAULT_DL_DIR TORRENT_DL_DIR st l).
Proof.
  revert st. induction l as [|a l IH]; intros st Hact; [done|].
  simpl. apply IH. by apply active_registered_step.
Qed.

(** Media lane, in every reachable state: while a job's worker runs, and
    until its watcher has run, a creation request that resolves to the job's
    identifier is answered 400 "job already running" and changes nothing;
    no two such jobs share an identifier. *)
Lemma start_download_rejects_active (l : list action) (job : nat)
    (cid url mode : string) (ev : nat) (s : Downloader.task_state)
    (p : download_payload) :
  let st := run py_hash DEFAULT_DL_DIR TORRENT_DL_DIR initial l in
  threads st !! job = Some (DownloadThread cid url mode ev s false) ->
  falsy (p_url p) = false ->
  id_or_hash py_hash (p_id p) (default "" (p_url p)) = cid ->
  start_download py_hash st p = (st, JsonError 400 "job already running")
  /\ forall job' url' mode' ev' s',
       threads st !! job' = Some (DownloadThread cid url' mode' ev' s' false) ->
       job' = job.
Proof.
  intros st Hjob Hurl Hcid.
  assert (Hact : active_registered st).
  { apply active_registered_run. intros t ? ? ? ? ? Ht. simpl in Ht.
    by rewrite lookup_nil in Ht. }
  pose proof (Hact _ _ _ _ _ _ Hjob) as Hreg. split.
  - apply start_download_rejects_running; [done|]. rewrite Hcid.
    unfold JobManager.is_running. apply bool_decide_eq_true. by eexists.
  - intros job' url' mode' ev' s' Hjob'.
    pose proof (Hact _ _ _ _ _ _ Hjob') as Hreg'. congruence.
Qed.

End ActiveJobs.

(** C1, torrent lane: with job "t1" active (its monitor still fetching
    metadata), a second creation request for "t1" is answered "started", a
    second monitor thread is started, and the registry entries of the first
    job are overwritten; a cancellation requested for the first job before
    the second request is then never observed by the first monitor. *)
Theorem add_torrent_accepts_active_id :
  let first :=
    add_torrent Scenario.hash Scenario.torrents initial
      (Scenario.magnet Scenario.magnet_a (Some "t1")) (TorrentDownloader.Added 0) in
  let second :=
    add_torrent Scenario.hash Scenario.torrents (fst first)
      (Scenario.magnet Scenario.magnet_b (Some "t1")) (TorrentDownloader.Added 1) in
  snd first = Json "t1" "started"
  /\ threads (fst first)
     = [MonitorThread "t1" Scenario.magnet_a 0 (TorrentDownloader.MetadataPhase 0)]
  /\ torrent_handle (fst first) "t1" = Some 0
  /\ torrent_cancel_event (fst first) "t1" = Some 0
  /\ snd second = Json "t1" "started"
  /\ threads (fst second)
     = [MonitorThread "t1" Scenario.magnet_a 0 (TorrentDownloader.MetadataPhase 0);
        MonitorThread "t1" Scenario.magnet_b 1 (TorrentDownloader.MetadataPhase 0)]
  /\ torrent_handle (fst second) "t1" = Some 1
  /\ torrent_cancel_event (fst second) "t1" = Some 1
  /\ job_messages
       (Scenario.reach
          [PostTorrentAdd (Scenario.magnet Scenario.magnet_a (Some "t1"))
             (TorrentDownloader.Added 0);
           PostTorrentCancel (Some "t1");
           MonitorTick 0 Scenario.seeking]) 0
     = [MsgCancelled]
  /\ job_messages
       (Scenario.reach
          [PostTorrentAdd (Scenario.magnet Scenario.magnet_a (Some "t1"))
             (TorrentDownloader.Added 0);
           PostTorrentCancel (Some "t1");
           PostTorrentAdd (Scenario.magnet Scenario.magnet_b (Some "t1"))
             (TorrentDownloader.Added 1);
           MonitorTick 0 Scenario.seeking]) 0
     = [MsgFetchingMetadata 4].
Proof. vm_compute. repeat split. Qed.

(** ** Cancellation of a media job during the transfer *)

(** What [download_task] does at a progress tick once the token is set. *)
Lemma download_task_hook_cancelled (dir mode stem : string) (ext : option string)
    (d : gmap string pyval) :
  Downloader.download_task dir mode true (Downloader.Transferring stem ext)
    (Downloader.Hook d)
  = (Downloader.Exited, [MsgError "Download cancelled"]).
Proof. reflexivity. Qed.

(** Once the transfer has begun, no step of [download_task] sends a
    [cancelled] event. *)
Lemma transferring_never_sends_cancelled (dir mode stem : string) (ext : option string)
    (c : bool) (y : Downloader.ydl_step) :
  MsgCancelled ∉ snd (Downloader.download_task dir mode c
                        (Downloader.Transferring stem ext) y).
Proof.
  destruct y as [stem' ext'|e|d| |e]; simpl; try (by apply not_elem_of_nil).
  - unfold Downloader.progress_hook. destruct c; simpl.
    + by intros ?%list_elem_of_singleton.
    + destruct (d !! "status") as [st|]; simpl.
      * repeat case_decide; simpl;
          try (by apply not_elem_of_nil); by intros ?%list_elem_of_singleton.
      * by intros ?%list_elem_of_singleton.
  - by intros ?%list_elem_of_singleton.
  - by intros ?%list_elem_of_singleton.
Qed.

(** C3: job "m1" is cancelled after two [downloading] events.  At the next
    progress tick the worker ends with an [error] event carrying "Download
    cancelled"; no [cancelled] event is sent, and the watcher then sends a
    [finished] event on the same channel. *)
Theorem cancel_mid_transfer_messages :
  channel_messages (Scenario.reach Scenario.cancel_mid_transfer) "m1"
  = [MsgMediaDownloading (PInt 0) (PInt 0) (PInt 2048) (PInt 3);
     MsgMediaDownloading (PInt 0) (PInt 0) (PInt 2048) (PInt 2);
     MsgError "Download cancelled";
     MsgWatcherFinished None]
  /\ threads (Scenario.reach Scenario.cancel_mid_transfer)
     = [DownloadThread "m1" "http://example.com/v" "video" 0 Downloader.Exited true].
Proof. vm_compute. split; reflexivity. Qed.

(** ** History entries of media jobs *)

(** The watcher records a history entry whatever the worker's outcome. *)
Lemma watcher_adds_history (st : Sys) (job : nat) (final_name : option string)
    (client_id url mode : string) (ev : nat) :
  threads st !! job = Some (DownloadThread client_id url mode ev Downloader.Exited false) ->
  history (watcher st job final_name)
  = history st ++ [{| h_id := client_id; h_url := url; h_filename := final_name;
                      h_mode := mode; h_status := "completed" |}].
Proof. intros H. unfold watcher. by rewrite H. Qed.

(** C4: job "m1" is cancelled while yt-dlp extracts; the worker ends with a
    [cancelled] event, and the watcher hands a history entry with status
    "completed" to [add_history_entry]. *)
Theorem cancelled_media_job_history :
  job_messages (Scenario.reach Scenario.cancel_while_extracting) 0
  = [MsgCancelled; MsgWatcherFinished None]
  /\ history (Scenario.reach Scenario.cancel_while_extracting)
     = [{| h_id := "m1"; h_url := "http://example.com/v"; h_filename := None;
           h_mode := "video"; h_status := "completed" |}].
Proof. vm_compute. split; reflexivity. Qed.

(** ** Release of the swarm handle *)

(** C5, as the code has it: [add_torrent] registers the handle in the
    session; one iteration of the monitor removes it from the session (and
    deletes the [handles] entry) exactly when it sees the cancellation
    inside the download loop, where it ends with [cancelled]; every other
    iteration leaves the manager as it was.  In particular the handle stays
    registered when the transfer completes (the monitor ends with
    [finished] and [completed]) and when the cancellation is seen during
    metadata acquisition (the monitor ends with [cancelled]). *)
Theorem monitor_releases_handle_on_download_cancel (self : TorrentDownloader.t)
    (h : Event.heap) (id magnet : string) (handle : nat)
    (s : TorrentDownloader.monitor_state) (v : TorrentDownloader.handle_view) :
  let r := TorrentDownloader._monitor self h id handle s v in
  let cancelled := cancel_observed self h id in
  (exists self' h',
     TorrentDownloader.add_torrent self h id magnet (TorrentDownloader.Added handle)
     = TorrentDownloader.AddTorrentStarted self' h' handle
     /\ handle ∈ TorrentDownloader.session self')
  /\ (if cancel_in_download s v cancelled
      then r = ({| TorrentDownloader.download_dir := TorrentDownloader.download_dir self;
                   TorrentDownloader.session :=
                     TorrentDownloader.session self ∖ {[handle]};
                   TorrentDownloader.handles :=
                     delete id (TorrentDownloader.handles self);
                   TorrentDownloader.cancel_events :=
                     TorrentDownloader.cancel_events self |},
                TorrentDownloader.MonitorExited, [MsgCancelled])
      else r.1.1 = self)
  /\ match s with
     | TorrentDownloader.DownloadPhase info =>
         if TorrentDownloader.is_seed v
         then r = (self, TorrentDownloader.MonitorExited,
                   [MsgTorrentFinished
                      (path_join (TorrentDownloader.download_dir self)
                         (TorrentDownloader.name info))
                      (TorrentDownloader.name info);
                    MsgCompleted id
                      (path_join (TorrentDownloader.download_dir self)
                         (TorrentDownloader.name info))
                      (TorrentDownloader.name info)])
         else True
     | TorrentDownloader.MetadataPhase _ =>
         if negb (TorrentDownloader.has_metadata v) && cancelled
         then r = (self, TorrentDownloader.MonitorExited, [MsgCancelled])
         else True
     | TorrentDownloader.MonitorExited => True
     end.
Proof.
  simpl. split_and!.
  - eexists _, _. split; [reflexivity|]. simpl. set_solver.
  - unfold cancel_in_download, cancel_observed, TorrentDownloader._monitor.
    destruct s as [n|info|]; simpl; [by repeat case_match|by repeat case_match|done].
  - unfold cancel_observed, TorrentDownloader._monitor.
    destruct s as [n|info|]; simpl; [|by repeat case_match|done].
    destruct (TorrentDownloader.has_metadata v); simpl; [done|].
    by repeat case_match.
Qed.

(** C5 fails as stated: torrent job "t1" runs to completion, its monitor
    exits after [finished], and handle 0 is still registered in the session
    (and in [handles]). *)
Lemma handle_kept_after_completion :
  threads (Scenario.reach Scenario.torrent_happy_path)
  = [MonitorThread "t1" Scenario.magnet_a 0 TorrentDownloader.MonitorExited]
  /\ filter (fun m => is_terminal m = true)
       (job_messages (Scenario.reach Scenario.torrent_happy_path) 0)
     = [MsgTorrentFinished "/home/u/Downloads/Torrents/ubuntu.iso" "ubuntu.iso";
        MsgToast "t1" "/home/u/Downloads/Torrents/ubuntu.iso"]
  /\ 0 ∈ torrent_session (Scenario.reach Scenario.torrent_happy_path)
  /\ torrent_handle (Scenario.reach Scenario.torrent_happy_path) "t1" = Some 0.
Proof.
  split_and!.
  - by vm_compute.
  - by vm_compute.
  - refine (bool_decide_unpack _ _). by vm_compute.
  - by vm_compute.
Qed.

(** ** The eta of [downloading] events *)

Lemma round_half_even_close (q : Q) :
  (inject_Z (round_half_even q) - q <= 1 # 2)%Q
  /\ (q - inject_Z (round_half_even q) <= 1 # 2)%Q.
Proof.
  unfold round_half_even.
  pose proof (Qfloor_le q) as Hlo. pose proof (Qlt_floor q) as Hhi.
  rewrite inject_Z_plus in Hhi. change (inject_Z 1) with 1%Q in Hhi.
  set (f := Qfloor q) in *.
  destruct (Qcompare_spec (q - inject_Z f) (1 # 2)) as [E|L|G].
  - destruct (Z.even f); [|rewrite inject_Z_plus; change (inject_Z 1) with 1%Q];
      split; lra.
  - split; lra.
  - rewrite inject_Z_plus. change (inject_Z 1) with 1%Q. split; lra.
Qed.





(** From 2^53 on the double is no longer the exact quotient: 2^53 + 1
    bytes at one byte per second give 2^53 seconds. *)
Lemma py_int_div_rounds :
  py_int_div 9007199254740993 1 = 9007199254740992%Z.
Proof. by vm_compute. Qed.





(** ** Progress values of torrent jobs *)

Lemma round_half_even_bounds (q : Q) :
  (Qfloor q <= round_half_even q <= Qfloor q + 1)%Z.
Proof.
  unfold round_half_even.
  destruct (Qcompare (q - inject_Z (Qfloor q)) (1 # 2)); try lia.
  destruct (Z.even (Qfloor q)); lia.
Qed.

Lemma round_half_even_mono (q1 q2 : Q) :
  (q1 <= q2)%Q -> (round_half_even q1 <= round_half_even q2)%Z.
Proof.
  intros Hle.
  pose proof (Qfloor_resp_le _ _ Hle) as Hf.
  pose proof (round_half_even_bounds q1) as B1.
  pose proof (round_half_even_bounds q2) as B2.
  destruct (Z.eq_dec (Qfloor q1) (Qfloor q2)) as [Heq|Hne]; [|lia].
  unfold round_half_even in *. rewrite <- Heq in *.
  set (f := Qfloor q1) in *.
  destruct (Qcompare_spec (q1 - inject_Z f) (1 # 2)) as [E1|L1|G1];
    destruct (Qcompare_spec (q2 - inject_Z f) (1 # 2)) as [E2|L2|G2];
    try lia; try (destruct (Z.even f); lia); exfalso; lra.
Qed.

Lemma round_half_even_inject_Z (z : Z) : round_half_even (inject_Z z) = z.
Proof.
  unfold round_half_even. rewrite Qfloor_Z.
  destruct (Qcompare_spec (inject_Z z - inject_Z z) (1 # 2)) as [E|L|G];
    try reflexivity; exfalso; lra.
Qed.

Lemma percent_mono (p1 p2 : Q) : (p1 <= p2)%Q -> (percent p1 <= percent p2)%Q.
Proof.
  intros Hle. unfold percent, py_round2.
  assert (H : (round_half_even (p1 * 100 * 100) <= round_half_even (p2 * 100 * 100))%Z)
    by (apply round_half_even_mono; lra).
  rewrite Zle_Qle in H.
  apply Qmult_le_compat_r; [exact H|]. discriminate.
Qed.

Lemma percent_le_100 (p : Q) : (p <= 1)%Q -> (percent p <= 100)%Q.
Proof.
  intros Hle. unfold percent, py_round2.
  assert (H : (round_half_even (p * 100 * 100) <= 10000)%Z).
  { replace 10000%Z with (round_half_even (inject_Z 10000))
      by apply round_half_even_inject_Z.
    apply round_half_even_mono.
    assert (inject_Z 10000 == 10000)%Q by reflexivity. lra. }
  rewrite Zle_Qle in H.
  assert (inject_Z 10000 == 10000)%Q by reflexivity.
  unfold Qdiv. change (/ 100)%Q with (1 # 100)%Q. lra.
Qed.

Lemma StronglySorted_sublist {A} (R : relation A) (l1 l2 : list A) :
  l1 `sublist_of` l2 -> StronglySorted R l2 -> StronglySorted R l1.
Proof.
  induction 1 as [|x l1 l2 Hsub IH|x l1 l2 Hsub IH]; intros Hs.
  - constructor.
  - apply StronglySorted_cons in Hs as [Hx Hs]. apply StronglySorted_cons.
    split; [|by apply IH]. rewrite Forall_forall in *.
    intros y Hy. apply Hx. by eapply elem_of_sublist.
  - apply StronglySorted_cons in Hs as [_ Hs]. by apply IH.
Qed.

Lemma Forall_sublist_of {A} (P : A -> Prop) (l1 l2 : list A) :
  l1 `sublist_of` l2 -> Forall P l2 -> Forall P l1.
Proof.
  intros Hsub. rewrite !Forall_forall. intros H x Hx.
  apply H. by eapply elem_of_sublist.
Qed.

Lemma StronglySorted_percent (l : list Q) :
  StronglySorted Qle l -> StronglySorted Qle (percent <$> l).
Proof.
  induction 1 as [|x l Hs IH Hx]; [constructor|].
  rewrite fmap_cons. constructor; [done|].
  apply Forall_fmap. eapply Forall_impl; [exact Hx|].
  intros y Hy. by apply percent_mono.
Qed.

Lemma torrent_progress_values_app (l1 l2 : list msg) :
  torrent_progress_values (l1 ++ l2)
  = torrent_progress_values l1 ++ torrent_progress_values l2.
Proof. apply flat_map_app. Qed.

Lemma download_task_values (dir mode : string) (c : bool)
    (s s' : Downloader.task_state) (y : Downloader.ydl_step) (sent : list msg) :
  Downloader.download_task dir mode c s y = (s', sent) ->
  torrent_progress_values sent = [].
Proof.
  unfold Downloader.download_task, Downloader.progress_hook. intros H.
  repeat (case_match; simplify_eq); done.
Qed.

Lemma monitor_values (self self' : TorrentDownloader.t) (h : Event.heap)
    (id : string) (handle : nat) (s s' : TorrentDownloader.monitor_state)
    (v : TorrentDownloader.handle_view) (sent : list msg) :
  TorrentDownloader._monitor self h id handle s v = (self', s', sent) ->
  torrent_progress_values (flat_map (callback_sends id) sent)
  `sublist_of` [percent (TorrentDownloader.progress (TorrentDownloader.status v))].
Proof.
  unfold TorrentDownloader._monitor. intros H.
  repeat (case_match; simplify_eq); simpl; try apply sublist_nil_l; reflexivity.
Qed.

Section ProgressValues.

Variable py_hash : string -> Z.
Variable DEFAULT_DL_DIR : string.
Variable TORRENT_DL_DIR : string.

Lemma step_values (st : Sys) (a : action) (job : nat) :
  exists extra,
    torrent_progress_values
      (job_messages (step py_hash DEFAULT_DL_DIR TORRENT_DL_DIR st a) job)
    = torrent_progress_values (job_messages st job) ++ extra
    /\ extra `sublist_of` (percent <$> engine_progress [a] job).
Proof.
  assert (Hsame : forall st',
            ws_log st' = ws_log st ->
            exists extra,
              torrent_progress_values (job_messages st' job)
              = torrent_progress_values (job_messages st job) ++ extra
              /\ extra `sublist_of` (percent <$> engine_progress [a] job)).
  { intros st' Hl. exists []. unfold job_messages. rewrite Hl, app_nil_r.
    split; [done|apply sublist_nil_l]. }
  destruct a as [p|id|p lt|id|j y|j n|j v]; simpl.
  - apply Hsame. unfold start_download. by repeat case_match.
  - apply Hsame. unfold cancel_download. by repeat case_match.
  - apply Hsame. unfold add_torrent, TorrentDownloader.add_torrent.
    by repeat case_match.
  - apply Hsame. unfold cancel_torrent_download. by repeat case_match.
  - unfold download_thread_step.
    destruct (threads st !! j) as [[cid url mode ev s w|]|] eqn:Hj;
      try (by apply Hsame).
    destruct (Downloader.download_task _ _ _ s y) as [s' sent] eqn:Hstep.
    rewrite foldl_progress_sender. exists []. unfold job_messages. simpl.
    rewrite filter_app, fmap_app, messages_tagged, torrent_progress_values_app.
    split; [|apply sublist_nil_l]. f_equal.
    destruct (decide (j = job)); [|done]. by eapply download_task_values.
  - unfold watcher.
    destruct (threads st !! j) as [[cid url mode ev [| |] [|]|]|] eqn:Hj;
      try (by apply Hsame).
    exists []. unfold job_messages. simpl.
    rewrite filter_app, fmap_app, torrent_progress_values_app.
    split; [|apply sublist_nil_l]. f_equal.
    rewrite filter_cons. simpl. by destruct (decide (j = job)).
  - unfold monitor_thread_step.
    destruct (threads st !! j) as [[|id m handle s]|] eqn:Hj; try (by apply Hsame).
    destruct (torrent_manager st) as [mgr|] eqn:Hmgr; [|by apply Hsame].
    destruct (TorrentDownloader._monitor mgr (heap st) id handle s v)
      as [[mgr' s'] sent] eqn:Hstep.
    rewrite foldl_torrent_progress_callback. unfold job_messages. simpl.
    rewrite filter_app, fmap_app, messages_tagged, torrent_progress_values_app.
    rewrite app_nil_r.
    destruct (decide (j = job)) as [Heq|Hne].
    + eexists. split; [reflexivity|]. simpl. by eapply monitor_values.
    + exists []. split; [done|apply sublist_nil_l].
Qed.

Lemma run_values (l : list action) (job : nat) :
  torrent_progress_values
    (job_messages (run py_hash DEFAULT_DL_DIR TORRENT_DL_DIR initial l) job)
  `sublist_of` (percent <$> engine_progress l job).
Proof.
  induction l as [|a l IH] using rev_ind; [done|].
  unfold run in *. rewrite foldl_snoc.
  destruct (step_values (foldl (step py_hash DEFAULT_DL_DIR TORRENT_DL_DIR) initial l)
              a job) as (extra & -> & Hextra).
  unfold engine_progress in *. rewrite flat_map_app, fmap_app.
  by apply sublist_app.
Qed.

(** C7, as the code has it: the progress of a torrent [downloading] event is
    [round(100 * p, 2)] for the fraction [p] libtorrent reports at that
    iteration.  Whatever the schedule: whenever the fractions reported to a
    job's monitor never decrease, the progress values of the job's
    [downloading] events never decrease; and, separately, whenever those
    fractions are at most 1, the values are at most 100. *)
Theorem torrent_progress_monotone (l : list action) (job : nat) :
  let values :=
    torrent_progress_values
      (job_messages (run py_hash DEFAULT_DL_DIR TORRENT_DL_DIR initial l) job) in
  values `sublist_of` (percent <$> engine_progress l job)
  /\ (StronglySorted Qle (engine_progress l job) -> StronglySorted Qle values)
  /\ (Forall (fun p => (p <= 1)%Q) (engine_progress l job) ->
      Forall (fun x => (x <= 100)%Q) values).
Proof.
  intros values. pose proof (run_values l job) as Hsub.
  split_and!; [done| |].
  - intros Hsorted.
    eapply StronglySorted_sublist; [exact Hsub|]. by apply StronglySorted_percent.
  - intros Hle. eapply Forall_sublist_of; [exact Hsub|]. apply Forall_fmap.
    eapply Forall_impl; [exact Hle|]. intros p Hp. by apply percent_le_100.
Qed.

End ProgressValues.

Lemma torrent_progress_monotone_witness :
  let values :=
    torrent_progress_values
      (job_messages (Scenario.reach Scenario.torrent_progress_rise) 0) in
  length values = 3
  /\ StronglySorted Qle values
  /\ Forall (fun x => (x <= 100)%Q) values.
Proof.
  destruct (torrent_progress_monotone Scenario.hash Scenario.downloads
              Scenario.torrents Scenario.torrent_progress_rise 0)
    as (_ & Hsorted & Hle).
  split_and!.
  - reflexivity.
  - apply Hsorted. simpl. repeat constructor; discriminate.
  - apply Hle. simpl. repeat constructor; discriminate.
Defined.

(** C7 fails as stated: libtorrent reports 1/2 and then 3/10 to the monitor
    of "t1" (no cancellation occurs), and the two [downloading] events carry
    50 and then 30. *)
Lemma torrent_progress_can_decrease :
  exists p1 p2,
    torrent_progress_values
      (job_messages (Scenario.reach Scenario.torrent_progress_drop) 0)
    = [p1; p2]
    /\ (p1 == 50)%Q /\ (p2 == 30)%Q /\ (p2 < p1)%Q
    /\ ~ StronglySorted Qle
           (torrent_progress_values
              (job_messages (Scenario.reach Scenario.torrent_progress_drop) 0)).
Proof.
  eexists _, _. split_and!.
  - vm_compute. reflexivity.
  - reflexivity.
  - reflexivity.
  - reflexivity.
  - vm_compute. intros H.
    apply StronglySorted_cons in H as [H _].
    apply Forall_cons in H as [H _]. by vm_compute in H.
Qed.

(** ** The registries after a worker has exited *)


Section RegistryCleanup.

Variable py_hash : string -> Z.
Variable DEFAULT_DL_DIR : string.
Variable TORRENT_DL_DIR : string.


End RegistryCleanup.



(** ** Cancellation requests *)

Lemma event_set_idempotent (r : nat) (h : Event.heap) :
  Event.set r (Event.set r h) = Event.set r h.
Proof. unfold Event.set. apply list_insert_insert_eq. Qed.

Lemma event_is_set_after_set (r : nat) (h : Event.heap) :
  r < length h -> Event.is_set r (Event.set r h) = true.
Proof.
  intros Hlt. unfold Event.is_set, Event.set.
  by rewrite list_lookup_insert_eq.
Qed.

Lemma with_heap_same (st : Sys) : with_heap st (heap st) = st.
Proof. by destruct st. Qed.

Section Cancellation.

Variable py_hash : string -> Z.
Variable DEFAULT_DL_DIR : string.
Variable TORRENT_DL_DIR : string.

(** What the two cancellation endpoints do, in every reachable state [st]
    and for every non-empty identifier.  Media lane: when no job is registered under the
    identifier, the request leaves the state as it is and is answered 404
    "not found"; otherwise it is answered "cancelling" and changes nothing
    but the job's Event, which is then set, the worker thread standing where
    it stood.  Torrent lane: the request is answered "cancelling" in every
    case; with no Event held for the identifier the state is left as it is,
    otherwise the Event is set.  In both lanes, repeating the request gives
    the same state and the same answer. *)
Theorem cancel_request (l : list action) (id : string) :
  id <> "" ->
  let st := run py_hash DEFAULT_DL_DIR TORRENT_DL_DIR initial l in
  let r := cancel_download st (Some id) in
  let q := cancel_torrent_download TORRENT_DL_DIR st (Some id) in
  match job_manager st !! id with
  | None => r = (st, JsonError 404 "not found")
  | Some j =>
      r = (with_heap st (Event.set (JobManager.cancel_event j) (heap st)),
           Json id "cancelling")
      /\ Event.is_set (JobManager.cancel_event j) (heap (fst r)) = true
      /\ exists url mode s,
           threads (fst r) !! JobManager.thread j
           = Some (DownloadThread id url mode (JobManager.cancel_event j) s false)
  end
  /\ cancel_download (fst r) (Some id) = r
  /\ snd q = Json id "cancelling"
  /\ match torrent_manager st with
     | Some mgr =>
         match TorrentDownloader.cancel_events mgr !! id with
         | None => fst q = st
         | Some ev =>
             fst q = with_heap st (Event.set ev (heap st))
             /\ Event.is_set ev (heap (fst q)) = true
         end
     | None =>
         fst q = {| heap := heap st; job_manager := job_manager st;
                    torrent_manager := Some (TorrentDownloader.init TORRENT_DL_DIR);
                    threads := threads st; history := history st;
                    ws_log := ws_log st |}
     end
  /\ cancel_torrent_download TORRENT_DL_DIR (fst q) (Some id) = q.
Proof.
  intros Hid st r q.
  destruct (registry_invariant_run py_hash DEFAULT_DL_DIR TORRENT_DL_DIR l initial
              registry_invariant_initial) as [R1 R2].
  fold st in R1, R2.
  assert (Hf : falsy (Some id) = false) by by apply falsy_Some_ne.
  split_and!.
  - subst r. unfold cancel_download, JobManager.get_cancel_event. rewrite Hf. simpl.
    destruct (job_manager st !! id) as [j|] eqn:Hj; simpl; [|done].
    destruct (R1 _ _ Hj) as (Hlt & url & mode & s & Hth).
    split_and!; [done| by apply event_is_set_after_set |eauto].
  - subst r. unfold cancel_download, JobManager.get_cancel_event. rewrite Hf. simpl.
    destruct (job_manager st !! id) as [j|] eqn:Hj; simpl.
    + rewrite Hj. simpl. by rewrite event_set_idempotent.
    + by rewrite Hj.
  - subst q. unfold cancel_torrent_download. by rewrite Hf.
  - subst q. unfold cancel_torrent_download. rewrite Hf. simpl.
    destruct (torrent_manager st) as [mgr|] eqn:Hmgr; simpl.
    + destruct (TorrentDownloader.cancel_events mgr !! id) as [ev|] eqn:Hev.
      * split; [by unfold with_heap; rewrite Hmgr|]. simpl.
        apply event_is_set_after_set. eauto.
      * rewrite <- Hmgr. apply with_heap_same.
    + by rewrite lookup_empty.
  - subst q. unfold cancel_torrent_download. rewrite Hf. simpl.
    destruct (TorrentDownloader.cancel_events _ !! id) as [ev|] eqn:Hev; [|done].
    by rewrite event_set_idempotent.
Qed.

End Cancellation.

Lemma cancel_request_witness :
  let st := Scenario.reach [PostDownload (Scenario.media "http://example.com/v" (Some "m1"))] in
  let r := cancel_download st (Some "m1") in
  let q := cancel_torrent_download Scenario.torrents st (Some "m1") in
  (r = (with_heap st [true], Json "m1" "cancelling")
   /\ Event.is_set 0 (heap (fst r)) = true
   /\ exists url mode s,
        threads (fst r) !! 0 = Some (DownloadThread "m1" url mode 0 s false))
  /\ cancel_download (fst r) (Some "m1") = r
  /\ snd q = Json "m1" "cancelling"
  /\ fst q = {| heap := heap st; job_manager := job_manager st;
                torrent_manager := Some (TorrentDownloader.init Scenario.torrents);
                threads := threads st; history := history st;
                ws_log := ws_log st |}
  /\ cancel_torrent_download Scenario.torrents (fst q) (Some "m1") = q.
Proof.
  apply (cancel_request Scenario.hash Scenario.downloads Scenario.torrents
           [PostDownload (Scenario.media "http://example.com/v" (Some "m1"))] "m1").
  discriminate.
Defined.

(** C9: with torrent job "t1" active, a request to [POST /torrent/cancel]
    for the unknown identifier "ghost" leaves the state as it is and is
    answered "cancelling", as if a job had been told to stop.  For the same
    identifier in the same state, [POST /cancel] answers 404 "not found", and
    [get_status] of the very manager answers "not found". *)
Theorem cancel_unknown_torrent_answer :
  let st := Scenario.reach
              [PostTorrentAdd (Scenario.magnet Scenario.magnet_a (Some "t1"))
                 (TorrentDownloader.Added 0)] in
  torrent_cancel_event st "ghost" = None
  /\ torrent_handle st "ghost" = None
  /\ cancel_torrent_download Scenario.torrents st (Some "ghost")
     = (st, Json "ghost" "cancelling")
  /\ cancel_download st (Some "ghost") = (st, JsonError 404 "not found")
  /\ (fun mgr => TorrentDownloader.get_status mgr "ghost"
                    (fun _ => Scenario.status_at 0 0 1000 0))
     <$> torrent_manager st
     = Some TorrentDownloader.StatusNotFound.
Proof. by vm_compute. Qed.

(** * Properties of the rest of the code *)

(** ** [sanitize_filename] *)

Lemma string_forall_filter (p : ascii -> bool) (s : string) :
  string_forall p (string_filter p s) = true.
Proof. induction s as [|c s IH]; simpl; [done|]. destruct (p c) eqn:E; simpl; by rewrite ?E. Qed.

Lemma string_filter_id (p : ascii -> bool) (s : string) :
  string_forall p s = true -> string_filter p s = s.
Proof.
  induction s as [|c s IH]; simpl; [done|].
  intros [Hc Hs]%andb_prop. by rewrite Hc, IH.
Qed.

Lemma string_forall_lstrip (p : ascii -> bool) (s : string) :
  string_forall p s = true -> string_forall p (py_lstrip s) = true.
Proof.
  induction s as [|c s IH]; simpl; [done|].
  intros H. destruct (py_isspace c); [|done].
  apply andb_prop in H as [_ H]. by apply IH.
Qed.

Lemma string_forall_rstrip (p : ascii -> bool) (s : string) :
  string_forall p s = true -> string_forall p (py_rstrip s) = true.
Proof.
  induction s as [|c s IH]; simpl; [done|].
  intros [Hc Hs]%andb_prop. specialize (IH Hs).
  destruct (py_rstrip s) as [|c' r]; simpl in *.
  - destruct (py_isspace c); simpl; by rewrite ?Hc.
  - by rewrite Hc, IH.
Qed.

Lemma first_char_lstrip (s : string) :
  first_char_ok (fun c => negb (py_isspace c)) (py_lstrip s) = true.
Proof.
  induction s as [|c s IH]; simpl; [done|].
  destruct (py_isspace c) eqn:E; [done|]. simpl. by rewrite E.
Qed.

Lemma first_char_rstrip (p : ascii -> bool) (s : string) :
  first_char_ok p s = true -> first_char_ok p (py_rstrip s) = true.
Proof.
  destruct s as [|c s]; simpl; [done|]. intros Hc.
  destruct (py_rstrip s); simpl; [|done]. by destruct (py_isspace c).
Qed.

Lemma last_char_rstrip (s : string) :
  last_char_ok (fun c => negb (py_isspace c)) (py_rstrip s) = true.
Proof.
  induction s as [|c s IH]; simpl; [done|].
  destruct (py_rstrip s) as [|c' r] eqn:E.
  - destruct (py_isspace c) eqn:Ec; simpl; [done|]. by rewrite Ec.
  - exact IH.
Qed.

Lemma lstrip_id (s : string) :
  first_char_ok (fun c => negb (py_isspace c)) s = true -> py_lstrip s = s.
Proof. destruct s as [|c s]; simpl; [done|]. by intros ->%negb_true_iff. Qed.

Lemma rstrip_id (s : string) :
  last_char_ok (fun c => negb (py_isspace c)) s = true -> py_rstrip s = s.
Proof.
  induction s as [|c s IH]; simpl; [done|].
  destruct s as [|c' s']; simpl in *.
  - by intros ->%negb_true_iff.
  - intros H. rewrite (IH H). done.
Qed.

Lemma sanitize_filename_clean (title : string) :
  clean_title (sanitize_filename title) = true.
Proof.
  unfold clean_title, sanitize_filename, py_strip.
  rewrite string_forall_rstrip, first_char_rstrip, last_char_rstrip; try done.
  - apply first_char_lstrip.
  - apply string_forall_lstrip, string_forall_filter.
Qed.

Lemma sanitize_filename_fixed (title : string) :
  clean_title title = true -> sanitize_filename title = title.
Proof.
  unfold clean_title. intros [[Hf Hh]%andb_prop Hl]%andb_prop.
  unfold sanitize_filename, py_strip.
  by rewrite string_filter_id, lstrip_id, rstrip_id.
Qed.

(** X1: whatever the title, the result holds none of the nine forbidden
    characters and neither begins nor ends with white space; the
    titles the function returns unchanged are exactly those of that form,
    so that sanitising twice is sanitising once. *)
Theorem sanitize_filename_spec (title : string) :
  string_forall (fun c => negb (forbidden c)) (sanitize_filename title) = true
  /\ first_char_ok (fun c => negb (py_isspace c)) (sanitize_filename title) = true
  /\ last_char_ok (fun c => negb (py_isspace c)) (sanitize_filename title) = true
  /\ (sanitize_filename title = title <-> clean_title title = true)
  /\ sanitize_filename (sanitize_filename title) = sanitize_filename title.
Proof.
  pose proof (sanitize_filename_clean title) as Hc.
  assert (Hc' := Hc). unfold clean_title in Hc'.
  apply andb_prop in Hc' as [[Hf Hh]%andb_prop Hl].
  split_and!; try done.
  - split; [intros <-; exact Hc | apply sanitize_filename_fixed].
  - by apply sanitize_filename_fixed.
Qed.

Lemma rstrip_empty (s : string) :
  py_rstrip s = EmptyString <-> string_forall py_isspace s = true.
Proof.
  induction s as [|c s IH]; simpl; [done|].
  destruct (py_rstrip s) as [|c' r] eqn:E.
  - destruct (py_isspace c); simpl; [|by split]. by rewrite <- IH.
  - split; [done|]. intros [_ H]%andb_prop. by apply IH in H.
Qed.

Lemma forall_space_lstrip (s : string) :
  string_forall py_isspace (py_lstrip s) = string_forall py_isspace s.
Proof.
  induction s as [|c s IH]; simpl; [done|].
  destruct (py_isspace c) eqn:E; simpl; [done|]. by rewrite E.
Qed.

Lemma forall_filter_or (p q : ascii -> bool) (s : string) :
  string_forall q (string_filter (fun c => negb (p c)) s)
  = string_forall (fun c => p c || q c) s.
Proof.
  induction s as [|c s IH]; simpl; [done|].
  destruct (p c); simpl; [done|]. by rewrite IH.
Qed.

Lemma length_string_filter (p : ascii -> bool) (s : string) :
  String.length (string_filter p s) <= String.length s.
Proof. induction s as [|c s IH]; simpl; [done|]. destruct (p c); simpl; lia. Qed.

Lemma length_lstrip (s : string) : String.length (py_lstrip s) <= String.length s.
Proof. induction s as [|c s IH]; simpl; [done|]. destruct (py_isspace c); simpl; lia. Qed.

Lemma length_rstrip (s : string) : String.length (py_rstrip s) <= String.length s.
Proof.
  induction s as [|c s IH]; simpl; [done|].
  destruct (py_rstrip s); [destruct (py_isspace c)|]; simpl in *; lia.
Qed.

(** X2: the result is the empty string exactly when every character of
    the title is a forbidden character or white space, and it is never
    longer than the title. *)
Theorem sanitize_filename_empty (title : string) :
  (sanitize_filename title = EmptyString
   <-> string_forall (fun c => forbidden c || py_isspace c) title = true)
  /\ String.length (sanitize_filename title) <= String.length title.
Proof.
  unfold sanitize_filename, py_strip. split.
  - by rewrite rstrip_empty, forall_space_lstrip, forall_filter_or.
  - pose proof (length_rstrip (py_lstrip (string_filter (fun c => negb (forbidden c)) title))).
    pose proof (length_lstrip (string_filter (fun c => negb (forbidden c)) title)).
    pose proof (length_string_filter (fun c => negb (forbidden c)) title). lia.
Qed.

(** ** [format_filesize] *)

Lemma Qeq_refl_eq (x y : Q) : x = y -> (x == y)%Q.
Proof. by intros ->. Qed.

Lemma round_half_even_tie (q : Q) :
  (inject_Z (round_half_even q) - q == 1 # 2)%Q
  \/ (q - inject_Z (round_half_even q) == 1 # 2)%Q ->
  Z.even (round_half_even q) = true.
Proof.
  unfold round_half_even.
  pose proof (Qfloor_le q) as Hlo. pose proof (Qlt_floor q) as Hhi.
  rewrite inject_Z_plus in Hhi. change (inject_Z 1) with 1%Q in Hhi.
  set (f := Qfloor q) in *.
  destruct (Qcompare_spec (q - inject_Z f) (1 # 2)) as [E|L|G].
  - intros _. destruct (Z.even f) eqn:Hf; [done|].
    rewrite Z.even_add, Hf. reflexivity.
  - intros [H|H]; exfalso; lra.
  - rewrite inject_Z_plus. change (inject_Z 1) with 1%Q.
    intros [H|H]; exfalso; lra.
Qed.

Lemma Qmagnitude_nonneg (x : Q) : (0 <= x)%Q -> Qmagnitude x = x.
Proof. intros H. unfold Qmagnitude. apply Qle_bool_iff in H. by rewrite H. Qed.

Lemma length_string_app (a b : string) :
  String.length (a +:+ b) = String.length a + String.length b.
Proof. induction a as [|c a IH]; simpl; [done|]. by rewrite IH. Qed.

Lemma string_app_nonempty (a b : string) : b <> EmptyString -> a +:+ b <> EmptyString.
Proof.
  intros Hb H. apply (f_equal String.length) in H.
  rewrite length_string_app in H. destruct b; [done|]. simpl in H. lia.
Qed.

(** X3: a size of 1 byte up to just under 1 GiB is shown as a whole number
    of MiB followed by " MB": the number nearest to the size, which is even
    whenever the size lies exactly half way between two whole numbers; hence
    0 for sizes up to half a MiB and 1024 for the last half MiB below
    1 GiB.  The result is never empty. *)
Theorem format_filesize_megabytes (n : Z) :
  (0 < n < 2 ^ 30)%Z ->
  exists k : Z,
    format_filesize n = py_str_nat (Z.to_N k) +:+ " MB"
    /\ (0 <= k <= 1024)%Z
    /\ (- 2 ^ 19 <= 2 ^ 20 * k - n <= 2 ^ 19)%Z
    /\ ((2 ^ 20 * k - n = 2 ^ 19 \/ n - 2 ^ 20 * k = 2 ^ 19)%Z -> Z.even k = true)
    /\ (k = 0%Z <-> (n <= 2 ^ 19)%Z)
    /\ (k = 1024%Z <-> (2 ^ 30 - 2 ^ 19 <= n)%Z)
    /\ format_filesize n <> EmptyString.
Proof.
  intros [Hpos Hlt].
  change (2 ^ 30)%Z with 1073741824%Z in *. change (2 ^ 19)%Z with 524288%Z.
  change (2 ^ 20)%Z with 1048576%Z.
  set (mb := (inject_Z n / inject_Z (1024 * 1024))%Q).
  assert (Hmb : (mb == inject_Z n * (1 # 1048576))%Q) by reflexivity.
  assert (Hn0 : (0 < inject_Z n)%Q)
    by (change (inject_Z 0 < inject_Z n)%Q; rewrite <- Zlt_Qlt; lia).
  assert (Hn1 : (inject_Z n < 1073741824)%Q).
  { change 1073741824%Q with (inject_Z 1073741824). rewrite <- Zlt_Qlt; lia. }
  assert (Hmb0 : (0 <= mb)%Q) by lra.
  assert (Hmb1 : (mb < 1024)%Q) by lra.
  assert (Hfmt : format_filesize n
                 = py_str_nat (Z.to_N (round_half_even mb)) +:+ " MB").
  { unfold format_filesize. fold mb.
    destruct (Z.eqb_spec n 0) as [->|_]; [lia|].
    destruct (Qle_bool 1024 mb) eqn:E; [apply Qle_bool_iff in E; lra|].
    unfold py_format_0f. rewrite (Qmagnitude_nonneg mb Hmb0).
    apply Qle_bool_iff in Hmb0. by rewrite Hmb0. }
  set (k := round_half_even mb) in *.
  destruct (round_half_even_close mb) as [Hc1 Hc2]. fold k in Hc1, Hc2.
  assert (Hk0 : (0 <= k)%Z).
  { replace 0%Z with (round_half_even (inject_Z 0)) by apply round_half_even_inject_Z.
    apply round_half_even_mono. exact Hmb0. }
  assert (Hk1 : (k <= 1024)%Z).
  { replace 1024%Z with (round_half_even (inject_Z 1024))
      by apply round_half_even_inject_Z.
    apply round_half_even_mono. change (inject_Z 1024) with 1024%Q. lra. }
  assert (Hb : (- 524288 <= 1048576 * k - n <= 524288)%Z).
  { split; rewrite Zle_Qle, <- Z.add_opp_r, inject_Z_plus, inject_Z_opp, inject_Z_mult;
      change (inject_Z 1048576) with 1048576%Q;
      change (inject_Z 524288) with 524288%Q;
      change (inject_Z (-524288)) with (-524288)%Q; lra. }
  exists k. split_and!; try done; try lia.
  - intros Htie. apply round_half_even_tie. fold k.
    destruct Htie as [Ht|Ht]; [left|right];
      apply (f_equal inject_Z) in Ht;
      rewrite <- Z.add_opp_r, inject_Z_plus, inject_Z_opp, inject_Z_mult in Ht;
      change (inject_Z 1048576) with 1048576%Q in Ht;
      change (inject_Z 524288) with 524288%Q in Ht;
      apply Qeq_refl_eq in Ht; lra.
  - split; [lia|]. intros Hn.
    assert (Hle : (k <= 0)%Z); [|lia].
    replace 0%Z with (round_half_even (1 # 2)) by reflexivity.
    apply round_half_even_mono.
    assert ((inject_Z n <= 524288)%Q).
    { change 524288%Q with (inject_Z 524288). rewrite <- Zle_Qle; lia. }
    lra.
  - split; [lia|]. intros Hn.
    assert (Hge : (1024 <= k)%Z); [|lia].
    replace 1024%Z with (round_half_even (2047 # 2)) by reflexivity.
    apply round_half_even_mono.
    assert ((1073217536 <= inject_Z n)%Q).
    { change 1073217536%Q with (inject_Z 1073217536). rewrite <- Zle_Qle; lia. }
    lra.
  - rewrite Hfmt. by apply string_app_nonempty.
Qed.

Lemma format_filesize_megabytes_witness :
  exists k : Z,
    format_filesize 1572864 = py_str_nat (Z.to_N k) +:+ " MB"
    /\ (0 <= k <= 1024)%Z
    /\ (- 2 ^ 19 <= 2 ^ 20 * k - 1572864 <= 2 ^ 19)%Z
    /\ ((2 ^ 20 * k - 1572864 = 2 ^ 19 \/ 1572864 - 2 ^ 20 * k = 2 ^ 19)%Z ->
        Z.even k = true)
    /\ (k = 0%Z <-> (1572864 <= 2 ^ 19)%Z)
    /\ (k = 1024%Z <-> (2 ^ 30 - 2 ^ 19 <= 1572864)%Z)
    /\ format_filesize 1572864 <> EmptyString.
Proof. apply (format_filesize_megabytes 1572864). lia. Defined.

(** X4: a size of 1 GiB or more is shown in GiB with two decimals followed
    by " GB": the number of hundredths of a GiB nearest to the size, which
    is even whenever the size lies exactly half way between two hundredths;
    it is at least 1.00. *)
Theorem format_filesize_gigabytes (n : Z) :
  (2 ^ 30 <= n < 2 ^ 53)%Z ->
  exists v : Z,
    format_filesize n
    = (py_str_nat (Z.to_N (v / 100)) +:+ "." +:+ two_digits (v mod 100)) +:+ " GB"
    /\ (100 <= v)%Z
    /\ (0 <= v mod 100 < 100)%Z
    /\ (- 2 ^ 29 <= 2 ^ 30 * v - 100 * n <= 2 ^ 29)%Z
    /\ ((2 ^ 30 * v - 100 * n = 2 ^ 29 \/ 100 * n - 2 ^ 30 * v = 2 ^ 29)%Z ->
        Z.even v = true).
Proof.
  intros [Hge _].
  change (2 ^ 30)%Z with 1073741824%Z in *. change (2 ^ 29)%Z with 536870912%Z.
  set (mb := (inject_Z n / inject_Z (1024 * 1024))%Q).
  assert (Hmb : (mb == inject_Z n * (1 # 1048576))%Q) by reflexivity.
  assert (Hn : (1073741824 <= inject_Z n)%Q).
  { change 1073741824%Q with (inject_Z 1073741824). rewrite <- Zle_Qle; lia. }
  assert (Hmb1 : (1024 <= mb)%Q) by lra.
  set (x := (mb / 1024)%Q).
  assert (Hx : (x == mb * (1 # 1024))%Q) by reflexivity.
  assert (Hx0 : (0 <= x)%Q) by lra.
  assert (Hfmt : format_filesize n
                 = (py_str_nat (Z.to_N (round_half_even (x * 100) / 100)) +:+ "."
                    +:+ two_digits (round_half_even (x * 100) mod 100)) +:+ " GB").
  { unfold format_filesize. fold mb.
    destruct (Z.eqb_spec n 0) as [->|_]; [lia|].
    apply Qle_bool_iff in Hmb1. rewrite Hmb1. fold x.
    unfold py_format_2f. rewrite (Qmagnitude_nonneg x Hx0).
    apply Qle_bool_iff in Hx0. by rewrite Hx0. }
  set (v := round_half_even (x * 100)) in *.
  destruct (round_half_even_close (x * 100)) as [Hc1 Hc2]. fold v in Hc1, Hc2.
  exists v. split; [done|]. split; [|split; [|split]].
  - replace 100%Z with (round_half_even (inject_Z 100))
      by apply round_half_even_inject_Z.
    apply round_half_even_mono. change (inject_Z 100) with 100%Q. lra.
  - apply Z.mod_pos_bound. lia.
  - split; rewrite Zle_Qle, <- Z.add_opp_r, inject_Z_plus, !inject_Z_opp, !inject_Z_mult;
      change (inject_Z 1073741824) with 1073741824%Q;
      change (inject_Z 536870912) with 536870912%Q;
      change (inject_Z (-536870912)) with (-536870912)%Q;
      change (inject_Z 100) with 100%Q; lra.
  - intros Htie. apply round_half_even_tie. fold v.
    destruct Htie as [Ht|Ht]; [left|right];
      apply (f_equal inject_Z) in Ht;
      rewrite <- Z.add_opp_r, inject_Z_plus, inject_Z_opp, !inject_Z_mult in Ht;
      change (inject_Z 1073741824) with 1073741824%Q in Ht;
      change (inject_Z 536870912) with 536870912%Q in Ht;
      change (inject_Z 100) with 100%Q in Ht;
      apply Qeq_refl_eq in Ht; lra.
Qed.

Lemma format_filesize_gigabytes_witness :
  exists v : Z,
    format_filesize 1207959552
    = (py_str_nat (Z.to_N (v / 100)) +:+ "." +:+ two_digits (v mod 100)) +:+ " GB"
    /\ (100 <= v)%Z
    /\ (0 <= v mod 100 < 100)%Z
    /\ (- 2 ^ 29 <= 2 ^ 30 * v - 100 * 1207959552 <= 2 ^ 29)%Z
    /\ ((2 ^ 30 * v - 100 * 1207959552 = 2 ^ 29
         \/ 100 * 1207959552 - 2 ^ 30 * v = 2 ^ 29)%Z ->
        Z.even v = true).
Proof.
  apply (format_filesize_gigabytes 1207959552). split; [by vm_compute|by vm_compute].
Defined.

(** ** The format selection of [get_formats] *)

Module GetFormatsFacts.
Import GetFormats.

Lemma has_label_elem (q : string) (d : list (string * video_format)) :
  has_label q d = true <-> q ∈ (fst <$> d).
Proof.
  unfold has_label. rewrite existsb_exists. split.
  - intros ([q' e] & Hin & Heq). apply String.eqb_eq in Heq. simpl in Heq. subst.
    apply list_elem_of_fmap. exists (q, e). split; [done|]. by apply list_elem_of_In.
  - intros ([q' e] & -> & Hin)%list_elem_of_fmap. exists (q', e).
    split; [by apply list_elem_of_In|]. apply String.eqb_refl.
Qed.

Lemma has_label_false (q : string) (d : list (string * video_format)) :
  has_label q d = false <-> q ∉ (fst <$> d).
Proof. rewrite <- has_label_elem. by destruct (has_label q d). Qed.

Lemma collect_snoc (pick : ydl_format -> option (string * video_format))
    (d : list (string * video_format)) (l : list ydl_format) (f : ydl_format) :
  collect pick d (l ++ [f])
  = match pick f with
    | Some (q, e) => add_absent q e (collect pick d l)
    | None => collect pick d l
    end.
Proof. unfold collect. by rewrite foldl_snoc. Qed.

Lemma scan_collect (l : list ydl_format) (c v : list (string * video_format)) :
  foldl scan_video (c, v) l = (collect pick_combined c l, collect pick_video_only v l).
Proof.
  revert c v. induction l as [|f l IH]; intros c v; [done|].
  simpl. unfold collect in *. simpl.
  assert (Hstep : scan_video (c, v) f
                  = (match pick_combined f with
                     | Some (q, e) => add_absent q e c | None => c end,
                     match pick_video_only f with
                     | Some (q, e) => add_absent q e v | None => v end)).
  { unfold scan_video, pick_combined, pick_video_only, usable_height.
    destruct (height f) as [h|]; [|done].
    destruct (h =? 0)%Z; [done|].
    destruct (has_codec (vcodec f)), (has_codec (acodec f)); done. }
  rewrite Hstep. apply IH.
Qed.

Lemma collect_NoDup (pick : ydl_format -> option (string * video_format))
    (l : list ydl_format) :
  NoDup (fst <$> collect pick [] l).
Proof.
  induction l as [|f l IH] using rev_ind; [constructor|].
  rewrite collect_snoc. destruct (pick f) as [[q e]|]; [|done].
  unfold add_absent. destruct (has_label q _) eqn:E; [done|].
  rewrite fmap_app. apply NoDup_app. split_and!; [done| |apply NoDup_singleton].
  intros x Hx Hx'. simpl in Hx'. apply list_elem_of_singleton in Hx'. subst.
  by apply has_label_false in E.
Qed.

Lemma collect_has_label (pick : ydl_format -> option (string * video_format))
    (l : list ydl_format) (q : string) :
  q ∈ (fst <$> collect pick [] l) <-> exists g, g ∈ l /\ fst <$> pick g = Some q.
Proof.
  induction l as [|f l IH] using rev_ind.
  - simpl. split; [by intros ?%elem_of_nil|]. by intros (g & ?%elem_of_nil & _).
  - rewrite collect_snoc.
    assert (Hex : (exists g, g ∈ l ++ [f] /\ fst <$> pick g = Some q)
                  <-> (exists g, g ∈ l /\ fst <$> pick g = Some q)
                      \/ fst <$> pick f = Some q).
    { split.
      - intros (g & [Hg|Hg]%elem_of_app & Hp); [eauto|].
        apply list_elem_of_singleton in Hg. subst. eauto.
      - intros [(g & Hg & Hp)|Hp]; [exists g|exists f]; rewrite elem_of_app;
          (split; [|done]); [by left|right]. by apply list_elem_of_singleton. }
    rewrite Hex, <- IH. clear Hex IH.
    destruct (pick f) as [[q' e]|] eqn:Hpick; simpl;
      [|split; [by left|by intros [?|?]]].
    unfold add_absent. destruct (has_label q' _) eqn:E.
    + apply has_label_elem in E. split; [auto|]. intros [H|H]; [done|]. by simplify_eq.
    + rewrite fmap_app, elem_of_app. simpl. rewrite list_elem_of_singleton.
      split; (intros [?|?]; [by left|right; congruence]).
Qed.

Lemma collect_first (pick : ydl_format -> option (string * video_format))
    (l : list ydl_format) (q : string) (e : video_format) :
  (q, e) ∈ collect pick [] l -> exists f, first_pick pick l q e f.
Proof.
  induction l as [|f l IH] using rev_ind; [by intros ?%elem_of_nil|].
  rewrite collect_snoc. intros Hin.
  assert (Hold : (q, e) ∈ collect pick [] l -> exists f0, first_pick pick (l ++ [f]) q e f0).
  { intros H. destruct (IH H) as (f0 & pre & post & -> & Hp & Hpre).
    exists f0, pre, (post ++ [f]). by rewrite <- app_assoc. }
  destruct (pick f) as [[q' e']|] eqn:Hpick; [|auto].
  unfold add_absent in Hin. destruct (has_label q' _) eqn:E; [auto|].
  apply elem_of_app in Hin as [Hin|Hin]; [auto|].
  apply list_elem_of_singleton in Hin. simplify_eq.
  exists f, l, []. split_and!; [done|done|].
  intros g Hg Hp. apply has_label_false in E. apply E.
  apply collect_has_label. eauto.
Qed.

Lemma insert_desc_perm (x : video_format) (l : list video_format) :
  insert_desc x l ≡ₚ x :: l.
Proof.
  induction l as [|y l IH]; simpl; [done|].
  destruct (sort_key x <? sort_key y)%Z; [|done].
  rewrite IH. apply Permutation_swap.
Qed.

Lemma sorted_desc_perm (l : list video_format) : sorted_desc l ≡ₚ l.
Proof.
  induction l as [|x l IH]; simpl; [done|].
  by rewrite insert_desc_perm, IH.
Qed.

Lemma insert_desc_sorted (x : video_format) (l : list video_format) :
  StronglySorted (fun a b => (sort_key b <= sort_key a)%Z) l ->
  StronglySorted (fun a b => (sort_key b <= sort_key a)%Z) (insert_desc x l).
Proof.
  induction 1 as [|y l Hs IH Hy]; simpl; [repeat constructor|].
  destruct (Z.ltb_spec (sort_key x) (sort_key y)) as [Hlt|Hge].
  - constructor; [done|]. rewrite insert_desc_perm. constructor; [lia|done].
  - constructor; [by constructor|]. constructor; [done|].
    eapply Forall_impl; [exact Hy|]. simpl. intros z Hz. lia.
Qed.

Lemma sorted_desc_sorted (l : list video_format) :
  StronglySorted (fun a b => (sort_key b <= sort_key a)%Z) (sorted_desc l).
Proof.
  induction l as [|x l IH]; simpl; [constructor|]. by apply insert_desc_sorted.
Qed.

Lemma sorted_strict (l : list video_format) :
  StronglySorted (fun a b => (sort_key b <= sort_key a)%Z) l ->
  NoDup (sort_key <$> l) ->
  StronglySorted (fun a b => (sort_key b < sort_key a)%Z) l.
Proof.
  induction 1 as [|x l Hs IH Hx]; intros Hnd; [constructor|].
  rewrite fmap_cons in Hnd. apply NoDup_cons in Hnd as [Hnin Hnd].
  constructor; [by apply IH|].
  rewrite Forall_forall in *. intros y Hy. specialize (Hx y Hy).
  assert (sort_key y <> sort_key x); [|lia].
  intros Heq. apply Hnin. rewrite <- Heq. by apply list_elem_of_fmap_2.
Qed.

Lemma pick_combined_entry (f : ydl_format) (q : string) (e : video_format) :
  pick_combined f = Some (q, e) ->
  exists h, usable_height f = Some h /\ h <> 0%Z
            /\ q = get_quality_label h /\ e = combined_entry f h.
Proof.
  unfold pick_combined. intros H.
  destruct (usable_height f) as [h|] eqn:Hh; [|done].
  destruct (_ && _); [|done]. simplify_eq. exists h. split_and!; try done.
  unfold usable_height in Hh. destruct (height f) as [h'|]; [|done].
  destruct (Z.eqb_spec h' 0); by simplify_eq.
Qed.

Lemma pick_video_only_entry (f : ydl_format) (q : string) (e : video_format) :
  pick_video_only f = Some (q, e) ->
  exists h, usable_height f = Some h /\ h <> 0%Z
            /\ q = get_quality_label h /\ e = video_only_entry f h.
Proof.
  unfold pick_video_only. intros H.
  destruct (usable_height f) as [h|] eqn:Hh; [|done].
  destruct (_ && _); [|done]. simplify_eq. exists h. split_and!; try done.
  unfold usable_height in Hh. destruct (height f) as [h'|]; [|done].
  destruct (Z.eqb_spec h' 0); by simplify_eq.
Qed.

Lemma all_video_formats_eq (formats : list ydl_format) :
  all_video_formats formats
  = collect pick_video_only [] formats
    ++ filter (fun p => has_label (fst p) (collect pick_video_only [] formats) = false)
         (collect pick_combined [] formats).
Proof. unfold all_video_formats. by rewrite scan_collect. Qed.

Lemma all_video_formats_elem (formats : list ydl_format) (q : string) (e : video_format) :
  (q, e) ∈ all_video_formats formats
  <-> (q, e) ∈ collect pick_video_only [] formats
      \/ ((q, e) ∈ collect pick_combined [] formats
          /\ q ∉ (fst <$> collect pick_video_only [] formats)).
Proof.
  rewrite all_video_formats_eq, elem_of_app, list_elem_of_filter. simpl.
  rewrite has_label_false. tauto.
Qed.

Lemma all_video_formats_label (formats : list ydl_format) (q : string) (e : video_format) :
  (q, e) ∈ all_video_formats formats ->
  v_quality e = q /\ q = get_quality_label (sort_key e).
Proof.
  intros [H|[H _]]%all_video_formats_elem;
    apply collect_first in H as (f & pre & post & _ & Hp & _).
  - apply pick_video_only_entry in Hp as (h & _ & _ & -> & ->). done.
  - apply pick_combined_entry in Hp as (h & _ & _ & -> & ->). done.
Qed.

Lemma all_video_formats_NoDup (formats : list ydl_format) :
  NoDup (fst <$> all_video_formats formats).
Proof.
  rewrite all_video_formats_eq, fmap_app. apply NoDup_app. split_and!.
  - apply collect_NoDup.
  - intros q Hq ([q' e] & -> & [Hf _]%list_elem_of_filter)%list_elem_of_fmap.
    simpl in *. by apply has_label_false in Hf.
  - eapply sublist_NoDup; [apply (collect_NoDup pick_combined formats)|].
    apply fmap_sublist, sublist_filter.
Qed.

Lemma entries_quality (formats : list ydl_format) :
  v_quality <$> (snd <$> all_video_formats formats) = fst <$> all_video_formats formats.
Proof.
  rewrite <- list_fmap_compose. apply list_fmap_ext.
  intros i [q e] Hi. simpl.
  apply (all_video_formats_label formats q e). eapply list_elem_of_lookup_2, Hi.
Qed.

Lemma entries_keys_NoDup (formats : list ydl_format) :
  NoDup (sort_key <$> (snd <$> all_video_formats formats)).
Proof.
  apply (NoDup_fmap_1 get_quality_label).
  rewrite <- !list_fmap_compose.
  replace ((get_quality_label ∘ sort_key ∘ snd) <$> all_video_formats formats)
    with (fst <$> all_video_formats formats); [apply all_video_formats_NoDup|].
  apply list_fmap_ext. intros i [q e] Hi. simpl.
  apply (all_video_formats_label formats q e). eapply list_elem_of_lookup_2, Hi.
Qed.

(** X5: whatever yt-dlp lists, [video_formats] is not empty, holds one entry
    per quality label at most, and is ordered by strictly decreasing
    height. *)
Theorem video_formats_shape (formats : list ydl_format) :
  video_formats formats <> []
  /\ NoDup (v_quality <$> video_formats formats)
  /\ StronglySorted (fun a b => (sort_key b < sort_key a)%Z) (video_formats formats).
Proof.
  unfold video_formats.
  pose proof (sorted_desc_perm (snd <$> all_video_formats formats)) as Hperm.
  pose proof (sorted_desc_sorted (snd <$> all_video_formats formats)) as Hsorted.
  destruct (sorted_desc (snd <$> all_video_formats formats)) as [|x l] eqn:E.
  - split_and!; [done|apply NoDup_singleton|repeat constructor].
  - split_and!; [done| |].
    + rewrite Hperm, entries_quality. apply all_video_formats_NoDup.
    + apply sorted_strict; [done|]. rewrite Hperm. apply entries_keys_NoDup.
Qed.

Lemma video_formats_elem (formats : list ydl_format) (e : video_format) :
  e ∈ video_formats formats
  <-> (all_video_formats formats = [] /\ e = fallback_video)
      \/ exists q, (q, e) ∈ all_video_formats formats.
Proof.
  unfold video_formats.
  pose proof (sorted_desc_perm (snd <$> all_video_formats formats)) as Hperm.
  destruct (sorted_desc (snd <$> all_video_formats formats)) as [|x l] eqn:E.
  - symmetry in Hperm. apply Permutation_nil_r in Hperm.
    apply fmap_nil_inv in Hperm. rewrite Hperm, list_elem_of_singleton.
    split; [naive_solver|]. intros [[_ ->]|[q Hq]]; [done|]. by apply elem_of_nil in Hq.
  - rewrite Hperm, list_elem_of_fmap. split.
    + intros ([q e'] & -> & Hin). right. by exists q.
    + intros [[Hnil _]|[q Hq]].
      * rewrite Hnil in Hperm. by apply Permutation_nil_r in Hperm.
      * by exists (q, e).
Qed.

Lemma all_video_formats_nil (formats : list ydl_format) :
  all_video_formats formats = []
  <-> forall f, f ∈ formats -> pick_video_only f = None /\ pick_combined f = None.
Proof.
  rewrite all_video_formats_eq. split.
  - intros [Hv Hc]%app_eq_nil. rewrite Hv in Hc. simpl in Hc.
    assert (collect pick_combined [] formats = []) as Hc'.
    { destruct (collect pick_combined [] formats) as [|p l]; [done|].
      rewrite filter_cons in Hc. by destruct (decide _) as [|[]]. }
    intros f Hf. split.
    + destruct (pick_video_only f) as [[q e]|] eqn:Hp; [|done].
      assert (q ∈ (fst <$> collect pick_video_only [] formats)) as Hq.
      { apply collect_has_label. exists f. by rewrite Hp. }
      rewrite Hv in Hq. by apply elem_of_nil in Hq.
    + destruct (pick_combined f) as [[q e]|] eqn:Hp; [|done].
      assert (q ∈ (fst <$> collect pick_combined [] formats)) as Hq.
      { apply collect_has_label. exists f. by rewrite Hp. }
      rewrite Hc' in Hq. by apply elem_of_nil in Hq.
  - intros Hnone.
    assert (forall pick, (forall f, f ∈ formats -> pick f = None) ->
                         collect pick [] formats = []) as Hnil.
    { intros pick Hp. destruct (collect pick [] formats) as [|[q e] l] eqn:E; [done|].
      assert (q ∈ (fst <$> collect pick [] formats)) as Hq.
      { rewrite E. simpl. apply list_elem_of_here. }
      apply collect_has_label in Hq as (g & Hg & Hq). by rewrite (Hp g Hg) in Hq. }
    rewrite (Hnil pick_video_only), (Hnil pick_combined); [done| |];
      intros f Hf; by destruct (Hnone f Hf).
Qed.

(** X6: where the entries of [video_formats] come from.  An entry is built
    from the first video-only format of its quality label; a label that no
    video-only format has takes the first format with both codecs; the
    fallback entry appears only when no format has a usable height and a
    video codec.  Every such format has its label in the list. *)
Theorem video_formats_provenance (formats : list ydl_format) :
  (forall e, e ∈ video_formats formats ->
     (e = fallback_video
      /\ forall f, f ∈ formats -> pick_video_only f = None /\ pick_combined f = None)
     \/ (exists f, first_pick pick_video_only formats (v_quality e) e f)
     \/ ((exists f, first_pick pick_combined formats (v_quality e) e f)
         /\ forall g, g ∈ formats -> fst <$> pick_video_only g <> Some (v_quality e)))
  /\ (forall f h, f ∈ formats -> usable_height f = Some h ->
        has_codec (vcodec f) = true ->
        get_quality_label h ∈ (v_quality <$> video_formats formats)).
Proof.
  split.
  - intros e [[Hnil ->]|[q Hq]]%video_formats_elem.
    + left. split; [done|]. by apply all_video_formats_nil.
    + right. destruct (all_video_formats_label _ _ _ Hq) as [Hl _]. rewrite Hl.
      apply all_video_formats_elem in Hq as [Hv|[Hc Hnv]].
      * left. by apply collect_first.
      * right. split; [by apply collect_first|].
        intros g Hg Hp. apply Hnv, collect_has_label. by exists g.
  - intros f h Hf Hh Hv.
    assert (exists e, (get_quality_label h, e) ∈ all_video_formats formats) as [e He].
    { destruct (decide (get_quality_label h
                          ∈ (fst <$> collect pick_video_only [] formats)))
        as [Hin|Hnin].
      - apply list_elem_of_fmap in Hin as ([q e] & Hq & Hin). simpl in Hq. subst q.
        exists e. apply all_video_formats_elem. by left.
      - assert (get_quality_label h ∈ (fst <$> collect pick_combined [] formats))
          as Hin.
        { apply collect_has_label. exists f. split; [done|].
          unfold pick_combined. rewrite Hh, Hv. simpl.
          destruct (has_codec (acodec f)) eqn:Ha; [done|].
          exfalso. apply Hnin, collect_has_label. exists f. split; [done|].
          unfold pick_video_only. by rewrite Hh, Hv, Ha. }
        apply list_elem_of_fmap in Hin as ([q e] & Hq & Hin). simpl in Hq. subst q.
        exists e. apply all_video_formats_elem. by right. }
    apply list_elem_of_fmap. exists e. split.
    + symmetry. by apply (all_video_formats_label formats).
    + apply video_formats_elem. right. by exists (get_quality_label h).
Qed.

Lemma scan_audio_best (l : list ydl_format) :
  best_audio_of l (foldl scan_audio None l).
Proof.
  induction l as [|x l IH] using rev_ind.
  - left. split; [done|]. by intros f ?%elem_of_nil.
  - rewrite foldl_app. simpl. unfold scan_audio at 1.
    destruct (audio_only x) eqn:Hx.
    + destruct IH as [[-> Hnone]|(pre & f & post & Hl & Hf & -> & Hpre & Hpost)].
      * right. exists l, x, []. split_and!; try done.
        -- intros g Hg Hag. by rewrite (Hnone g Hg) in Hag.
        -- by intros g ?%elem_of_nil.
      * cbn [a_abr audio_entry default option_rect id].
        destruct (Qle_bool (abr_of x) (abr_of f)) eqn:Hle; simpl.
        -- apply Qle_bool_iff in Hle. right. exists pre, f, (post ++ [x]).
           split_and!; try done.
           ++ by rewrite Hl, <- app_assoc.
           ++ intros g [Hg| ->%list_elem_of_singleton]%elem_of_app Hag; auto.
        -- assert (abr_of f < abr_of x)%Q as Hlt.
           { apply Qnot_le_lt. intros Hc. apply Qle_bool_iff in Hc. congruence. }
           right. exists l, x, []. split_and!; try done.
           ++ rewrite Hl.
              intros g [Hg|[->|Hg]%elem_of_cons]%elem_of_app Hag; [|done|].
              ** eapply Qlt_trans; [by apply Hpre|done].
              ** eapply Qle_lt_trans; [by apply Hpost|done].
           ++ by intros g ?%elem_of_nil.
    + destruct IH as [[-> Hnone]|(pre & f & post & Hl & Hf & -> & Hpre & Hpost)].
      * left. split; [done|].
        intros g [Hg| ->%list_elem_of_singleton]%elem_of_app; auto.
      * right. exists pre, f, (post ++ [x]). split_and!; try done.
        -- by rewrite Hl, <- app_assoc.
        -- intros g [Hg| ->%list_elem_of_singleton]%elem_of_app Hag; [auto|congruence].
Qed.

Lemma audio_entry_ext (f : ydl_format) :
  a_ext (audio_entry f) ∈ ["webm"; "opus"; "m4a"].
Proof.
  unfold audio_entry. cbn [a_ext].
  destruct (existsb _ _) eqn:He; [|apply list_elem_of_here].
  apply existsb_exists in He as (s & Hs & ->%String.eqb_eq).
  by apply list_elem_of_In.
Qed.

(** X7: [audio_formats] holds exactly one entry.  It is the fallback entry
    when no format is audio-only; otherwise it is built from the first
    audio-only format of greatest bit rate: every audio-only format before
    it has a strictly smaller bit rate and none after it has a greater
    one.  Its extension is always one of webm, opus and m4a. *)
Theorem audio_formats_best (formats : list ydl_format) :
  ((audio_formats formats = [fallback_audio]
    /\ forall f, f ∈ formats -> audio_only f = false)
   \/ exists pre f post,
        formats = pre ++ f :: post
        /\ audio_only f = true
        /\ audio_formats formats = [audio_entry f]
        /\ (forall g, g ∈ pre -> audio_only g = true -> (abr_of g < abr_of f)%Q)
        /\ (forall g, g ∈ post -> audio_only g = true -> (abr_of g <= abr_of f)%Q))
  /\ forall e, e ∈ audio_formats formats -> a_ext e ∈ ["webm"; "opus"; "m4a"].
Proof.
  unfold audio_formats.
  destruct (scan_audio_best formats)
    as [[-> Hnone]|(pre & f & post & Hl & Hf & -> & Hpre & Hpost)].
  - split; [by left|].
    intros e ->%list_elem_of_singleton. apply list_elem_of_here.
  - split; [right; by exists pre, f, post|].
    intros e ->%list_elem_of_singleton. apply audio_entry_ext.
Qed.

(** A codec that yt-dlp reports as null is not the string "none": a format
    with a height and both codecs null is listed as a combined entry, and
    a format with a null video codec is not audio-only. *)
Lemma null_codecs_listed :
  let f := {| format_id := Some "18"; ext := Some (Some "mp4"); height := Some 480%Z;
              vcodec := Some None; acodec := Some None;
              filesize := None; filesize_approx := None; abr := None |} in
  let g := {| format_id := Some "140"; ext := Some (Some "m4a"); height := None;
              vcodec := Some None; acodec := Some (Some "aac");
              filesize := None; filesize_approx := None; abr := Some (128 # 1) |} in
  video_formats [f; g] = [combined_entry f 480]
  /\ audio_formats [f; g] = [fallback_audio].
Proof. by vm_compute. Qed.

End GetFormatsFacts.

(** ** Nothing is undone *)

Lemma is_set_new (e : nat) (h : Event.heap) :
  Event.is_set e h = true -> Event.is_set e (snd (Event.new h)) = true.
Proof.
  unfold Event.is_set, Event.new. simpl. intros H.
  destruct (h !! e) as [b|] eqn:He; [|done].
  by rewrite (lookup_app_l_Some _ _ _ _ He).
Qed.

Lemma is_set_set (e r : nat) (h : Event.heap) :
  Event.is_set e h = true -> Event.is_set e (Event.set r h) = true.
Proof.
  unfold Event.is_set, Event.set. intros H.
  destruct (h !! e) as [b|] eqn:He; [|done]. simpl in H. subst b.
  destruct (decide (r = e)) as [->|Hne].
  - by rewrite list_lookup_insert_eq by (by eapply lookup_lt_Some).
  - by rewrite list_lookup_insert_ne, He by done.
Qed.

Lemma monitor_le_refl (s : TorrentDownloader.monitor_state) : monitor_le s s.
Proof. destruct s; simpl; done. Qed.

Lemma monitor_le_trans (s1 s2 s3 : TorrentDownloader.monitor_state) :
  monitor_le s1 s2 -> monitor_le s2 s3 -> monitor_le s1 s3.
Proof. destruct s1, s2, s3; simpl; try done; try lia; congruence. Qed.

Lemma thread_advances_refl (t : thread) : thread_advances t t.
Proof. destruct t; simpl; split_and!; auto using monitor_le_refl. Qed.

Lemma thread_advances_trans (t1 t2 t3 : thread) :
  thread_advances t1 t2 -> thread_advances t2 t3 -> thread_advances t1 t3.
Proof.
  destruct t1, t2, t3; simpl; try done.
  - intros (-> & -> & -> & -> & ? & ?) (-> & -> & -> & -> & ? & ?).
    split_and!; auto; lia.
  - intros (-> & -> & -> & ?) (-> & -> & -> & ?).
    split_and!; eauto using monitor_le_trans.
Qed.

Lemma manager_kept_refl (m : option TorrentDownloader.t) : manager_kept m m.
Proof. intros mgr ->. exists mgr. split_and!; eauto. Qed.

Lemma manager_kept_trans (m1 m2 m3 : option TorrentDownloader.t) :
  manager_kept m1 m2 -> manager_kept m2 m3 -> manager_kept m1 m3.
Proof.
  intros H12 H23 mgr Hm.
  destruct (H12 _ Hm) as (mgr2 & Hm2 & Hd2 & Hc2).
  destruct (H23 _ Hm2) as (mgr3 & Hm3 & Hd3 & Hc3).
  exists mgr3. split_and!; [done|congruence|].
  intros id ev Hev. destruct (Hc2 _ _ Hev) as [ev2 Hev2]. eauto.
Qed.

Lemma evolves_refl (st : Sys) : evolves st st.
Proof.
  split_and!; eauto using manager_kept_refl, thread_advances_refl.
Qed.

Lemma evolves_trans (st1 st2 st3 : Sys) :
  evolves st1 st2 -> evolves st2 st3 -> evolves st1 st3.
Proof.
  intros (A1 & A2 & A3 & A4 & A5 & A6) (B1 & B2 & B3 & B4 & B5 & B6).
  split_and!; eauto using manager_kept_trans.
  - lia.
  - by etrans.
  - by etrans.
  - intros j t Ht. destruct (A5 _ _ Ht) as (t2 & Ht2 & Hadv).
    destruct (B5 _ _ Ht2) as (t3 & Ht3 & Hadv').
    eauto using thread_advances_trans.
Qed.

Lemma threads_kept_app (l : list thread) (t : thread) (j : nat) (t0 : thread) :
  l !! j = Some t0 ->
  exists t', (l ++ [t]) !! j = Some t' /\ thread_advances t0 t'.
Proof.
  intros H. exists t0. split; [|apply thread_advances_refl].
  by apply lookup_app_l_Some.
Qed.

Lemma threads_kept_insert (l : list thread) (job : nat) (t0 t1 : thread)
    (j : nat) (t : thread) :
  l !! job = Some t0 -> thread_advances t0 t1 ->
  l !! j = Some t ->
  exists t', <[job := t1]> l !! j = Some t' /\ thread_advances t t'.
Proof.
  intros Hjob Hadv Hj. destruct (decide (job = j)) as [->|Hne].
  - exists t1. rewrite list_lookup_insert_eq by (by eapply lookup_lt_Some).
    split; [done|]. congruence.
  - exists t. rewrite list_lookup_insert_ne by done.
    split; [done|apply thread_advances_refl].
Qed.

Lemma download_task_rank (dir mode : string) (c : bool) (s s' : Downloader.task_state)
    (y : Downloader.ydl_step) (sent : list msg) :
  Downloader.download_task dir mode c s y = (s', sent) ->
  task_rank s <= task_rank s'.
Proof.
  unfold Downloader.download_task. intros H.
  destruct s, y; repeat case_match; simplify_eq; simpl; lia.
Qed.

Lemma monitor_advances (self self' : TorrentDownloader.t) (h : Event.heap)
    (id : string) (handle : nat) (s s' : TorrentDownloader.monitor_state)
    (v : TorrentDownloader.handle_view) (sent : list msg) :
  TorrentDownloader._monitor self h id handle s v = (self', s', sent) ->
  monitor_le s s'
  /\ TorrentDownloader.download_dir self' = TorrentDownloader.download_dir self
  /\ TorrentDownloader.cancel_events self' = TorrentDownloader.cancel_events self.
Proof.
  unfold TorrentDownloader._monitor. intros H.
  destruct s; repeat case_match; simplify_eq; simpl; split_and!; done || lia.
Qed.

Section Evolution.

Variable py_hash : string -> Z.
Variable DEFAULT_DL_DIR : string.
Variable TORRENT_DL_DIR : string.

Lemma get_torrent_manager_kept (m : option TorrentDownloader.t) :
  manager_kept m (Some (get_torrent_manager m TORRENT_DL_DIR)).
Proof. intros mgr ->. exists mgr. simpl. split_and!; eauto. Qed.

Lemma evolves_step (st : Sys) (a : action) :
  evolves st (step py_hash DEFAULT_DL_DIR TORRENT_DL_DIR st a).
Proof.
  destruct a as [p|id|p lt|id|job y|job final_name|job v]; simpl.
  - unfold start_download.
    destruct (falsy (p_url p)); [apply evolves_refl|].
    destruct (JobManager.is_running _ _); [apply evolves_refl|].
    split_and!; simpl; eauto using manager_kept_refl, threads_kept_app.
    + intros e. apply is_set_new.
    + rewrite length_app. lia.
  - unfold cancel_download.
    destruct (falsy id); [apply evolves_refl|].
    destruct (JobManager.get_cancel_event _ _) as [ev|]; [|apply evolves_refl].
    split_and!; simpl; eauto using manager_kept_refl, thread_advances_refl.
    + intros e. apply is_set_set.
    + unfold Event.set. by rewrite length_insert.
  - unfold add_torrent.
    destruct (falsy (p_magnet p)); [apply evolves_refl|].
    destruct lt as [e|e|handle]; simpl.
    + split_and!; simpl;
        eauto using get_torrent_manager_kept, thread_advances_refl.
    + split_and!; simpl;
        eauto using get_torrent_manager_kept, thread_advances_refl.
    + split_and!; simpl; eauto using threads_kept_app.
      * intros e. apply is_set_new.
      * rewrite length_app. lia.
      * eapply manager_kept_trans; [apply get_torrent_manager_kept|].
        intros mgr ?. simplify_eq. eexists. split_and!; [done|done|].
        simpl. intros id ev Hev. rewrite lookup_insert. case_decide; eauto.
  - unfold cancel_torrent_download.
    destruct (falsy id); [apply evolves_refl|]. simpl.
    split_and!; simpl; eauto using get_torrent_manager_kept, thread_advances_refl.
    + intros e He. case_match; [by apply is_set_set|done].
    + case_match; [|done]. unfold Event.set. by rewrite length_insert.
  - unfold download_thread_step.
    destruct (threads st !! job) as [[cid url mode ev s w|]|] eqn:Hjob;
      try apply evolves_refl.
    destruct (Downloader.download_task _ _ _ s y) as [s' sent] eqn:Hstep.
    rewrite foldl_progress_sender.
    split_and!; simpl; eauto using manager_kept_refl.
    + by apply prefix_app_r.
    + intros j t. eapply threads_kept_insert; [done|]. simpl.
      split_and!; eauto using download_task_rank.
  - unfold watcher.
    destruct (threads st !! job) as [[cid url mode ev [| |] [|]|]|] eqn:Hjob;
      try apply evolves_refl.
    split_and!; simpl; eauto using manager_kept_refl.
    + by apply prefix_app_r.
    + by apply prefix_app_r.
    + intros j t. eapply threads_kept_insert; [done|]. simpl. split_and!; auto.
  - unfold monitor_thread_step.
    destruct (threads st !! job) as [[|id m handle s]|] eqn:Hjob;
      try apply evolves_refl.
    destruct (torrent_manager st) as [mgr|] eqn:Hmgr; [|apply evolves_refl].
    destruct (TorrentDownloader._monitor mgr (heap st) id handle s v)
      as [[mgr' s'] sent] eqn:Hstep.
    apply monitor_advances in Hstep as (Hle & Hdir & Hev).
    rewrite foldl_torrent_progress_callback.
    split_and!; simpl; eauto.
    + by apply prefix_app_r.
    + by apply prefix_app_r.
    + intros j t. eapply threads_kept_insert; [done|]. simpl. split_and!; auto.
    + rewrite Hmgr. intros mgr0 ?. simplify_eq. exists mgr'. split_and!; [done..|].
      intros id' ev. rewrite Hev. eauto.
Qed.

Lemma evolves_run (st : Sys) (l : list action) :
  evolves st (run py_hash DEFAULT_DL_DIR TORRENT_DL_DIR st l).
Proof.
  revert st. induction l as [|a l IH]; intros st; [apply evolves_refl|].
  simpl. eapply evolves_trans; [apply evolves_step|apply IH].
Qed.

(** X8: nothing that happened is undone.  Whatever requests arrive and
    however the threads interleave, an Event that is set stays set, no
    Event is freed, the history and the log of sent messages only grow at
    their end, every thread keeps its request, its Event or handle and never
    moves back to an earlier phase, and the torrent manager, once created,
    keeps its directory and keeps a cancellation Event for every identifier
    that had one (the Event itself may have been replaced by a later
    [add_torrent] for that identifier). *)
Theorem run_evolves (l1 l2 : list action) :
  evolves (run py_hash DEFAULT_DL_DIR TORRENT_DL_DIR initial l1)
    (run py_hash DEFAULT_DL_DIR TORRENT_DL_DIR initial (l1 ++ l2)).
Proof. unfold run. rewrite foldl_app. apply evolves_run. Qed.

End Evolution.

(** ** One action at a time *)

Section Effects.

Variable py_hash : string -> Z.
Variable DEFAULT_DL_DIR : string.
Variable TORRENT_DL_DIR : string.

Lemma step_effect_step (st : Sys) (a : action) :
  step_effect DEFAULT_DL_DIR st (step py_hash DEFAULT_DL_DIR TORRENT_DL_DIR st a).
Proof.
  destruct a as [p|id|p lt|id|job y|job final_name|job v]; simpl.
  - unfold start_download.
    destruct (falsy (p_url p)); [by apply EffectNone|].
    destruct (JobManager.is_running _ _); [by apply EffectNone|].
    eapply EffectSpawn; [|reflexivity..]. by simpl.
  - unfold cancel_download.
    destruct (falsy id); [by apply EffectNone|].
    destruct (JobManager.get_cancel_event _ _); by apply EffectNone.
  - unfold add_torrent.
    destruct (falsy (p_magnet p)); [by apply EffectNone|].
    destruct lt as [e|e|handle]; simpl; [by apply EffectNone..|].
    eapply EffectSpawn; [|reflexivity..]. by simpl.
  - unfold cancel_torrent_download.
    destruct (falsy id); by apply EffectNone.
  - unfold download_thread_step.
    destruct (threads st !! job) as [[cid url mode ev s w|]|] eqn:Hjob;
      try by apply EffectNone.
    destruct (Downloader.download_task _ _ _ s y) as [s' sent] eqn:Hstep.
    rewrite foldl_progress_sender.
    eapply EffectAdvance; [exact Hjob|by eapply TaskStep|done|done|].
    simpl. by rewrite app_nil_r.
  - unfold watcher.
    destruct (threads st !! job) as [[cid url mode ev [| |] [|]|]|] eqn:Hjob;
      try by apply EffectNone.
    eapply EffectAdvance; [exact Hjob|apply WatcherStep|done|done|done].
  - unfold monitor_thread_step.
    destruct (threads st !! job) as [[|id m handle s]|] eqn:Hjob;
      try by apply EffectNone.
    destruct (torrent_manager st) as [mgr|] eqn:Hmgr; [|by apply EffectNone].
    destruct (TorrentDownloader._monitor mgr (heap st) id handle s v)
      as [[mgr' s'] sent] eqn:Hstep.
    rewrite foldl_torrent_progress_callback.
    eapply EffectAdvance; [exact Hjob|by eapply MonitorStep|done|done|done].
Qed.

End Effects.

Lemma transition_channel (dir : string) (st : Sys) (t t' : thread)
    (sent : list msg) (rows : list history_entry) :
  thread_transition dir st t t' sent rows -> channel_of t' = channel_of t.
Proof. by destruct 1. Qed.

Lemma sends_on_own_channel_effect (dir : string) (st st' : Sys) :
  step_effect dir st st' -> sends_on_own_channel st -> sends_on_own_channel st'.
Proof.
  unfold sends_on_own_channel.
  intros [Ht Hl _|t _ Ht Hl _|job t t' sent rows Hjob Htr Ht Hl _] Hinv;
    rewrite Hl, Ht.
  - done.
  - eapply Forall_impl; [exact Hinv|]. simpl. intros s (t0 & Hs & Hc).
    exists t0. split; [by apply lookup_app_l_Some|done].
  - pose proof (lookup_lt_Some _ _ _ Hjob) as Hlt.
    apply transition_channel in Htr. apply Forall_app. split.
    + eapply Forall_impl; [exact Hinv|]. simpl. intros s (t0 & Hs & Hc).
      destruct (decide (job = ws_job s)) as [Heq|Hne].
      * exists t'. rewrite <- Heq in Hs |- *.
        rewrite list_lookup_insert_eq by done. split; [done|]. congruence.
      * exists t0. by rewrite list_lookup_insert_ne by done.
    + unfold tagged. apply Forall_fmap, Forall_forall. intros m _. simpl.
      exists t'. by rewrite list_lookup_insert_eq by done.
Qed.

Section Channels.

Variable py_hash : string -> Z.
Variable DEFAULT_DL_DIR : string.
Variable TORRENT_DL_DIR : string.

Lemma sends_on_own_channel_run (l : list action) (st : Sys) :
  sends_on_own_channel st ->
  sends_on_own_channel (run py_hash DEFAULT_DL_DIR TORRENT_DL_DIR st l).
Proof.
  revert st. induction l as [|a l IH]; intros st Hinv; [done|].
  simpl. apply IH.
  eapply sends_on_own_channel_effect; [apply step_effect_step|done].
Qed.

(** X9: every message ever passed to [ws_manager.send] was sent on behalf
    of a thread that exists, and on that thread's own channel: the client
    identifier for a media job, the torrent identifier prefixed with
    torrent_ for a torrent job. *)
Theorem sends_go_to_own_channel (l : list action) :
  sends_on_own_channel (run py_hash DEFAULT_DL_DIR TORRENT_DL_DIR initial l).
Proof. apply sends_on_own_channel_run. constructor. Qed.

End Channels.

(** ** The phases of a torrent job *)

Lemma job_messages_effect (dir : string) (st st' : Sys) (job : nat) (t' : thread) :
  step_effect dir st st' -> sends_on_own_channel st ->
  threads st' !! job = Some t' ->
  (started t' /\ threads st !! job = None /\ job_messages st' job = [])
  \/ (threads st !! job = Some t' /\ job_messages st' job = job_messages st job)
  \/ exists t sent rows,
       threads st !! job = Some t
       /\ thread_transition dir st t t' sent rows
       /\ job_messages st' job = job_messages st job ++ sent.
Proof.
  intros [Ht Hl _|t Hst Ht Hl _|j t0 t1 sent rows Hj Htr Ht Hl _] Hinv;
    unfold job_messages; rewrite Hl, Ht; intros Hjob.
  - right. by left.
  - apply lookup_app_Some in Hjob as [Hjob|[Hge Hjob]]; [right; by left|].
    apply list_lookup_singleton_Some in Hjob as [Hz ->].
    left. split; [done|]. split; [by apply lookup_ge_None_2|].
    apply (job_messages_fresh st). intros s Hs.
    unfold sends_on_own_channel in Hinv. rewrite Forall_forall in Hinv.
    destruct (Hinv s Hs) as (t0 & Ht0 & _). apply lookup_lt_Some in Ht0. lia.
  - pose proof (lookup_lt_Some _ _ _ Hj) as Hlt. right.
    unfold tagged. rewrite filter_app, fmap_app, messages_tagged.
    destruct (decide (j = job)) as [->|Hne].
    + rewrite list_lookup_insert_eq in Hjob by done. simplify_eq.
      right. by exists t0, sent, rows.
    + rewrite list_lookup_insert_ne in Hjob by done. left.
      by rewrite app_nil_r.
Qed.

Lemma monitor_step_phases (self self' : TorrentDownloader.t) (h : Event.heap)
    (id : string) (handle : nat) (s s' : TorrentDownloader.monitor_state)
    (v : TorrentDownloader.handle_view) (old sent : list msg) :
  is_Some (TorrentDownloader.cancel_events self !! id) ->
  torrent_phases (TorrentDownloader.download_dir self) id s old ->
  TorrentDownloader._monitor self h id handle s v = (self', s', sent) ->
  torrent_phases (TorrentDownloader.download_dir self) id s'
    (old ++ flat_map (callback_sends id) sent).
Proof.
  intros [ev Hev] Hold. unfold TorrentDownloader._monitor. rewrite Hev. intros H.
  destruct s as [n|info|]; simpl in Hold.
  - destruct Hold as [Hlen Hf].
    repeat (case_match; simplify_eq); simpl.
    + exists old, []. split_and!; [done|done|constructor].
    + exists old. split; [done|]. by left.
    + rewrite length_app. simpl. split; [lia|].
      apply Forall_app. split; [done|]. by repeat constructor.
  - destruct Hold as (f & d & -> & Hf & Hd).
    repeat (case_match; simplify_eq); simpl.
    + exists f. split; [done|]. right. exists info, d. split; [done|]. right.
      by rewrite <- app_assoc.
    + exists f. split; [done|]. right. exists info, d. split; [done|]. left.
      by rewrite <- app_assoc.
    + exists f, (d ++ [MsgTorrentDownloading
                         (py_round2 (TorrentDownloader.progress (TorrentDownloader.status v) * 100))
                         (TorrentDownloader.download_rate (TorrentDownloader.status v))
                         (TorrentDownloader.upload_rate (TorrentDownloader.status v))
                         (TorrentDownloader.num_peers (TorrentDownloader.status v))
                         (TorrentDownloader.num_seeds (TorrentDownloader.status v))
                         (TorrentDownloader.eta_of (TorrentDownloader.status v))
                         (TorrentDownloader.state (TorrentDownloader.status v))]).
      split_and!; [by rewrite <- app_assoc|done|].
      apply Forall_app. split; [done|]. by repeat constructor.
  - simplify_eq. simpl. by rewrite app_nil_r.
Qed.

Section Phases.

Variable py_hash : string -> Z.
Variable DEFAULT_DL_DIR : string.
Variable TORRENT_DL_DIR : string.

Lemma manager_dir_step (st : Sys) (a : action) :
  manager_dir TORRENT_DL_DIR st ->
  manager_dir TORRENT_DL_DIR (step py_hash DEFAULT_DL_DIR TORRENT_DL_DIR st a).
Proof.
  intros Hinv.
  assert (TorrentDownloader.download_dir
            (get_torrent_manager (torrent_manager st) TORRENT_DL_DIR)
          = TORRENT_DL_DIR) as Hget.
  { unfold get_torrent_manager. destruct (torrent_manager st) eqn:E; simpl; auto. }
  destruct a as [p|id|p lt|id|job y|job final_name|job v]; simpl.
  - unfold start_download. repeat case_match; simplify_eq; done.
  - unfold cancel_download. repeat case_match; simplify_eq; done.
  - unfold add_torrent. destruct (falsy (p_magnet p)); [done|].
    destruct lt; simpl; intros mgr H; simpl in H; simplify_eq; simpl; exact Hget.
  - unfold cancel_torrent_download. destruct (falsy id); [done|].
    simpl. intros mgr H. simpl in H. by simplify_eq.
  - unfold download_thread_step.
    destruct (threads st !! job) as [[cid url mode ev s w|]|]; try done.
    destruct (Downloader.download_task _ _ _ s y) as [s' sent].
    by rewrite foldl_progress_sender.
  - unfold watcher. repeat case_match; simplify_eq; done.
  - unfold monitor_thread_step.
    destruct (threads st !! job) as [[|id m handle s]|]; try done.
    destruct (torrent_manager st) as [mgr|] eqn:Hmgr; [|done].
    destruct (TorrentDownloader._monitor mgr (heap st) id handle s v)
      as [[mgr' s'] sent] eqn:Hstep.
    apply monitor_advances in Hstep as (_ & Hdir & _).
    rewrite foldl_torrent_progress_callback. simpl.
    intros mgr0 H. simpl in H. simplify_eq. rewrite Hdir. by apply Hinv.
Qed.

Lemma monitor_phases_step (st : Sys) (a : action) :
  trace_invariant st -> sends_on_own_channel st ->
  manager_dir TORRENT_DL_DIR st ->
  monitor_phases TORRENT_DL_DIR st ->
  monitor_phases TORRENT_DL_DIR (step py_hash DEFAULT_DL_DIR TORRENT_DL_DIR st a).
Proof.
  intros (_ & _ & I3) Hch Hdir Hinv job id m h s' Hjob.
  destruct (job_messages_effect _ _ _ _ _
              (step_effect_step py_hash DEFAULT_DL_DIR TORRENT_DL_DIR st a) Hch Hjob)
    as [(Hst & _ & ->)|[[Hold ->]|(t & sent & rows & Hold & Htr & ->)]].
  - simpl in Hst. subst s'. simpl. done.
  - by eapply Hinv.
  - inversion Htr as [| |i m0 h0 s v mgr mgr' s0 sent0 Hmgr Hstep]; subst.
    destruct (I3 _ _ _ _ _ Hold) as (mgr0 & Hmgr0 & Hev).
    rewrite Hmgr in Hmgr0. injection Hmgr0 as <-.
    pose proof (Hdir _ Hmgr) as Hd. rewrite <- Hd.
    eapply monitor_step_phases; [exact Hev| |exact Hstep].
    rewrite Hd. by eapply Hinv.
Qed.

Lemma monitor_phases_run (l : list action) (st : Sys) :
  trace_invariant st -> sends_on_own_channel st ->
  manager_dir TORRENT_DL_DIR st ->
  monitor_phases TORRENT_DL_DIR st ->
  monitor_phases TORRENT_DL_DIR (run py_hash DEFAULT_DL_DIR TORRENT_DL_DIR st l).
Proof.
  revert st. induction l as [|a l IH]; intros st H1 H2 H3 H4; [done|].
  simpl. apply IH.
  - by apply trace_invariant_step.
  - eapply sends_on_own_channel_effect; [apply step_effect_step|done].
  - by apply manager_dir_step.
  - by apply monitor_phases_step.
Qed.

(** X10: the trace of a torrent job follows the phases of [_monitor].
    While the monitor waits for the metadata it has sent exactly as many
    [fetching_metadata] events as attempts it counts, and nothing else.
    In the download loop the trace is those events, the one [metadata]
    event of the torrent, then [downloading] events only.  A monitor that
    has exited ended either on [cancelled] (in either phase) or on the
    [finished] event, the toast and the [completed] event, all three
    carrying the same save path: the torrent directory joined with the
    torrent's name the way pathlib joins them, whatever that name is. *)
Theorem torrent_job_phases (l : list action) (job : nat) (id magnet_link : string)
    (handle : nat) (s : TorrentDownloader.monitor_state) :
  threads (run py_hash DEFAULT_DL_DIR TORRENT_DL_DIR initial l) !! job
  = Some (MonitorThread id magnet_link handle s) ->
  torrent_phases TORRENT_DL_DIR id s
    (job_messages (run py_hash DEFAULT_DL_DIR TORRENT_DL_DIR initial l) job).
Proof.
  apply monitor_phases_run.
  - apply trace_invariant_initial.
  - constructor.
  - intros mgr H. done.
  - intros j i m h s0 H. simpl in H. by rewrite lookup_nil in H.
Qed.

End Phases.

Lemma torrent_job_phases_witness :
  torrent_phases Scenario.torrents "t1" TorrentDownloader.MonitorExited
    (job_messages (Scenario.reach Scenario.torrent_happy_path) 0).
Proof.
  apply (torrent_job_phases Scenario.hash Scenario.downloads Scenario.torrents
           Scenario.torrent_happy_path 0 "t1" Scenario.magnet_a 0).
  reflexivity.
Defined.

(** ** Rows of the history *)














Section History.

Variable py_hash : string -> Z.
Variable DEFAULT_DL_DIR : string.
Variable TORRENT_DL_DIR : string.




End History.

(** ** The job registry and the websocket manager *)

(** X12: [JobManager] is a registry with one entry per identifier.  After
    [register] the identifier is running and its Event is the one just
    given, replacing any earlier one; after [unregister] it is not running
    and has no Event; entries of other identifiers are never touched;
    registering and unregistering a fresh identifier restores the
    registry; and an identifier is running exactly when it has an Event
    to cancel. *)
Theorem job_manager_registry (jobs : gmap string JobManager.job) (id id' : string)
    (thread cancel_event : nat) :
  JobManager.is_running id (JobManager.register id thread cancel_event jobs) = true
  /\ JobManager.get_cancel_event id (JobManager.register id thread cancel_event jobs)
     = Some cancel_event
  /\ JobManager.is_running id (JobManager.unregister id jobs) = false
  /\ JobManager.get_cancel_event id (JobManager.unregister id jobs) = None
  /\ (id <> id' ->
      JobManager.is_running id' (JobManager.register id thread cancel_event jobs)
      = JobManager.is_running id' jobs
      /\ JobManager.get_cancel_event id'
           (JobManager.register id thread cancel_event jobs)
         = JobManager.get_cancel_event id' jobs
      /\ JobManager.is_running id' (JobManager.unregister id jobs)
         = JobManager.is_running id' jobs
      /\ JobManager.get_cancel_event id' (JobManager.unregister id jobs)
         = JobManager.get_cancel_event id' jobs)
  /\ (JobManager.is_running id jobs = false ->
      JobManager.unregister id (JobManager.register id thread cancel_event jobs) = jobs)
  /\ (JobManager.is_running id jobs = true
      <-> is_Some (JobManager.get_cancel_event id jobs)).
Proof.
  unfold JobManager.is_running, JobManager.get_cancel_event, JobManager.register,
    JobManager.unregister.
  split_and!.
  - rewrite lookup_insert_eq. by apply bool_decide_eq_true.
  - by rewrite lookup_insert_eq.
  - rewrite lookup_delete_eq. apply bool_decide_eq_false. by intros [? ?].
  - by rewrite lookup_delete_eq.
  - intros Hne. by rewrite lookup_insert_ne, lookup_delete_ne by done.
  - intros Hfresh. apply bool_decide_eq_false in Hfresh.
    rewrite delete_insert_eq. apply delete_id.
    by apply eq_None_not_Some.
  - rewrite bool_decide_eq_true, fmap_is_Some. done.
Qed.

Section Endpoints.

Variable py_hash : string -> Z.

(** X13: [POST /cancel] and [POST /download] agree on what is running.
    For a request that names a url and an identifier, the cancellation is
    answered 404 exactly when the download would be started, and is
    accepted exactly when the download would be refused as already
    running. *)
Theorem cancel_and_start_agree (st : Sys) (url id : string)
    (mode format_id : option string) :
  url <> "" -> id <> "" ->
  let payload := {| p_url := Some url; p_id := Some id;
                    p_mode := mode; p_format_id := format_id |} in
  (snd (cancel_download st (Some id)) = JsonError 404 "not found"
   <-> snd (start_download py_hash st payload) = Json id "started")
  /\ (snd (cancel_download st (Some id)) = Json id "cancelling"
      <-> snd (start_download py_hash st payload)
          = JsonError 400 "job already running").
Proof.
  intros Hurl Hid payload. subst payload.
  unfold cancel_download, start_download. cbn [p_url p_id p_mode].
  rewrite !falsy_Some_ne by done. unfold id_or_hash.
  apply String.eqb_neq in Hid. rewrite Hid. simpl.
  unfold JobManager.is_running, JobManager.get_cancel_event.
  destruct (job_manager st !! id) as [j|] eqn:Hj.
  - rewrite bool_decide_eq_true_2 by eauto. simpl. split; split; done.
  - rewrite bool_decide_eq_false_2 by (by intros [? ?]). simpl. split; split; done.
Qed.

End Endpoints.

Lemma cancel_and_start_agree_witness :
  (snd (cancel_download initial (Some "m1")) = JsonError 404 "not found"
   <-> snd (start_download Scenario.hash initial
              (Scenario.media "http://example.com/v" (Some "m1")))
       = Json "m1" "started")
  /\ (snd (cancel_download initial (Some "m1")) = Json "m1" "cancelling"
      <-> snd (start_download Scenario.hash initial
                 (Scenario.media "http://example.com/v" (Some "m1")))
          = JsonError 400 "job already running").
Proof.
  apply (cancel_and_start_agree Scenario.hash initial "http://example.com/v" "m1"
           None None); discriminate.
Defined.

Module WSManagerFacts.
Import WSManager.

Lemma last_attached_snoc (id : string) (l : list event) (e : event) :
  last_attached id (l ++ [e])
  = match e with
    | Accepted id' websocket =>
        if String.eqb id' id then Some websocket else last_attached id l
    | Closed id' => if String.eqb id' id then None else last_attached id l
    | Sent _ _ => last_attached id l
    end.
Proof.
  unfold last_attached. rewrite filter_app, filter_cons, filter_nil.
  destruct e as [id' w|id'|id' m]; cbn [connects].
  - destruct (String.eqb id' id) eqn:E; case_decide; try done.
    + by rewrite last_snoc.
    + by rewrite app_nil_r.
  - destruct (String.eqb id' id) eqn:E; case_decide; try done.
    + by rewrite last_snoc.
    + by rewrite app_nil_r.
  - case_decide; [done|]. by rewrite app_nil_r.
Qed.

Lemma connections_last (l : list event) (id : string) :
  connections (handle_all l) !! id = last_attached id l.
Proof.
  unfold handle_all.
  induction l as [|e l IH] using rev_ind.
  { unfold init. cbn [foldl connections]. by rewrite lookup_empty. }
  rewrite foldl_app, last_attached_snoc. simpl.
  destruct e as [id' w|id'|id' m]; simpl.
  - unfold add_connection. destruct (String.eqb_spec id' id) as [->|Hne].
    + by rewrite lookup_insert_eq.
    + by rewrite lookup_insert_ne.
  - unfold remove_connection. destruct (String.eqb_spec id' id) as [->|Hne].
    + by rewrite lookup_delete_eq.
    + by rewrite lookup_delete_ne.
  - done.
Qed.

(** X14: the websocket manager remembers only the last connection event of
    each identifier.  Whatever was accepted, closed and sent before, a
    message sent to an identifier reaches the websocket accepted last under
    it, provided no endpoint closed that identifier since, whichever
    websocket that endpoint served; otherwise the message is dropped, and
    nothing else is delivered. *)
Theorem send_reaches_last_accepted (l : list event) (id : string) (m : msg) :
  delivered (handle_all (l ++ [Sent id m]))
  = delivered (handle_all l)
    ++ match last_attached id l with
       | Some websocket => [(websocket, m)]
       | None => []
       end.
Proof.
  unfold handle_all at 1. rewrite foldl_app. simpl. unfold send.
  fold (handle_all l). by rewrite connections_last.
Qed.

End WSManagerFacts.

(** ** Playlist downloads *)

Lemma start_all_spec (mode : string) (ids : list string) (st : Sys) (index : nat) :
  start_all mode st index ids
  = {| heap := heap st ++ replicate (length ids) false;
       job_manager := job_manager st;
       torrent_manager := torrent_manager st;
       threads := threads st
                  ++ imap (fun k url =>
                             DownloadThread
                               ("playlist_" +:+ py_str_nat (N.of_nat (index + k)))
                               url mode (length (heap st) + k)
                               Downloader.Extracting false) ids;
       history := history st; ws_log := ws_log st |}.
Proof.
  revert st index. induction ids as [|vid ids IH]; intros st index; simpl.
  - destruct st. simpl. by rewrite !app_nil_r.
  - rewrite IH. unfold start_single_download. simpl.
    rewrite <- !app_assoc, length_app. simpl. rewrite !Nat.add_0_r.
    do 3 f_equal. apply imap_ext. intros k url _. simpl.
    replace (index + S k) with (S (index + k)) by lia.
    by replace (length (heap st) + S k) with (length (heap st) + 1 + k) by lia.
Qed.

(** X15: what [POST /playlist/download] starts.  For a request that lists
    [n] videos, [n >= 1], the answer reports [n] downloads and the state
    gains exactly [n] threads and [n] fresh, unset Events: the thread of
    video number [k] works on that video, polls its own Event and sends on
    channel playlist_k.  The job registry is left as it was, so none of
    these threads is known to [POST /cancel], and the channels are the same
    for every playlist request. *)
Theorem download_playlist_starts (st : Sys) (payload : playlist_payload)
    (video_ids : list string) :
  p_video_ids payload = Some video_ids -> video_ids <> [] ->
  let mode := default "video" (p_playlist_mode payload) in
  let st' := fst (download_playlist st payload) in
  snd (download_playlist st payload)
  = PlaylistStarted ("Started " +:+ py_str_nat (N.of_nat (length video_ids))
                     +:+ " downloads")
  /\ threads st' = threads st ++ imap (playlist_thread mode (length (heap st))) video_ids
  /\ heap st' = heap st ++ replicate (length video_ids) false
  /\ job_manager st' = job_manager st
  /\ torrent_manager st' = torrent_manager st
  /\ history st' = history st
  /\ ws_log st' = ws_log st.
Proof.
  intros Hids Hne mode st'. subst mode st'. unfold download_playlist.
  rewrite Hids. simpl. destruct video_ids as [|vid ids]; [done|].
  cbn [fst snd]. rewrite start_all_spec. simpl. split_and!; done.
Qed.

Lemma download_playlist_starts_witness :
  snd (download_playlist initial
         {| p_video_ids := Some ["http://example.com/a"; "http://example.com/b"];
            p_playlist_mode := None; p_quality := None |})
  = PlaylistStarted "Started 2 downloads"
  /\ threads (fst (download_playlist initial
                     {| p_video_ids := Some ["http://example.com/a";
                                              "http://example.com/b"];
                        p_playlist_mode := None; p_quality := None |}))
     = [DownloadThread "playlist_0" "http://example.com/a" "video" 0
          Downloader.Extracting false;
        DownloadThread "playlist_1" "http://example.com/b" "video" 1
          Downloader.Extracting false].
Proof.
  destruct (download_playlist_starts initial
              {| p_video_ids := Some ["http://example.com/a"; "http://example.com/b"];
                 p_playlist_mode := None; p_quality := None |}
              ["http://example.com/a"; "http://example.com/b"] eq_refl)
    as (H1 & H2 & _); [discriminate|].
  split; [exact H1|exact H2].
Defined.

Lemma effect_benign_threads (dir : string) (st st' : Sys) :
  step_effect dir st st' ->
  length (threads st) <= length (threads st')
  /\ forall j, j < length (threads st) ->
       thread_event (threads st' !! j) = thread_event (threads st !! j).
Proof.
  intros [Ht Hl _|t _ Ht Hl _|job t t' sent rows Hjob Htr Ht Hl _]; rewrite Ht.
  - done.
  - rewrite length_app. split; [lia|]. intros j Hj. by rewrite lookup_app_l.
  - rewrite length_insert. split; [done|]. intros j Hj.
    destruct (decide (job = j)) as [<-|Hne].
    + rewrite list_lookup_insert_eq by done. rewrite Hjob. by destruct Htr.
    + by rewrite list_lookup_insert_ne.
Qed.

Section PlaylistFacts.

Variable py_hash : string -> Z.
Variable DEFAULT_DL_DIR : string.
Variable TORRENT_DL_DIR : string.

Lemma get_torrent_manager_registered (st : Sys) (id : string) (ev : nat) :
  TorrentDownloader.cancel_events
    (get_torrent_manager (torrent_manager st) TORRENT_DL_DIR) !! id = Some ev ->
  registered_event st ev.
Proof.
  unfold get_torrent_manager. intros H. right.
  destruct (torrent_manager st) as [mgr|] eqn:Hmgr; simpl in H; [by eauto|].
  by rewrite lookup_empty in H.
Qed.

Lemma step_heap (st : Sys) (a : action) :
  (exists n, heap (step py_hash DEFAULT_DL_DIR TORRENT_DL_DIR st a)
             = heap st ++ replicate n false)
  \/ exists ev, registered_event st ev
                /\ heap (step py_hash DEFAULT_DL_DIR TORRENT_DL_DIR st a)
                   = Event.set ev (heap st).
Proof.
  assert (forall h : Event.heap, h = h ++ replicate 0 false) as Hsame.
  { intros h. simpl. by rewrite app_nil_r. }
  destruct a as [p|id|p lt|id|job y|job final_name|job v]; simpl.
  - unfold start_download. left.
    destruct (falsy (p_url p)); [by exists 0|].
    destruct (JobManager.is_running _ _); [by exists 0|]. by exists 1.
  - unfold cancel_download.
    destruct (falsy id); [left; by exists 0|].
    destruct (JobManager.get_cancel_event _ _) as [ev|] eqn:Hev;
      [|left; by exists 0].
    right. exists ev. split; [|done]. left.
    unfold JobManager.get_cancel_event in Hev.
    destruct (job_manager st !! default "" id) as [j|] eqn:Hj; [|done].
    simpl in Hev. simplify_eq. eauto.
  - unfold add_torrent. left.
    destruct (falsy (p_magnet p)); [by exists 0|].
    destruct lt as [e|e|handle]; simpl; [by exists 0..|by exists 1].
  - unfold cancel_torrent_download.
    destruct (falsy id); [left; by exists 0|]. simpl.
    destruct (TorrentDownloader.cancel_events _ !! _) as [ev|] eqn:Hev;
      [|left; by exists 0].
    right. exists ev. split; [|done]. by eapply get_torrent_manager_registered.
  - unfold download_thread_step. left.
    destruct (threads st !! job) as [[cid url mode ev s w|]|]; try by exists 0.
    destruct (Downloader.download_task _ _ _ s y) as [s' sent].
    rewrite foldl_progress_sender. by exists 0.
  - unfold watcher. left.
    destruct (threads st !! job) as [[cid url mode ev [| |] [|]|]|]; by exists 0.
  - unfold monitor_thread_step. left.
    destruct (threads st !! job) as [[|id m handle s]|]; try by exists 0.
    destruct (torrent_manager st) as [mgr|]; [|by exists 0].
    destruct (TorrentDownloader._monitor mgr (heap st) id handle s v)
      as [[mgr' s'] sent].
    rewrite foldl_torrent_progress_callback. by exists 0.
Qed.

Lemma step_registered (st : Sys) (a : action) (ev : nat) :
  registered_event (step py_hash DEFAULT_DL_DIR TORRENT_DL_DIR st a) ev ->
  registered_event st ev
  \/ length (heap st) <= ev
     < length (heap (step py_hash DEFAULT_DL_DIR TORRENT_DL_DIR st a)).
Proof.
  destruct a as [p|id|p lt|id|job y|job final_name|job v]; simpl.
  - unfold start_download.
    destruct (falsy (p_url p)); [by left|].
    destruct (JobManager.is_running _ _); [by left|]. simpl.
    intros [(id & j & Hj & <-)|Hr]; [|left; by right].
    simpl in Hj. unfold JobManager.register in Hj. rewrite lookup_insert in Hj.
    case_decide; simplify_eq; simpl.
    + right. rewrite length_app. simpl. lia.
    + left. left. eauto.
  - unfold cancel_download.
    destruct (falsy id); [by left|].
    destruct (JobManager.get_cancel_event _ _); by left.
  - unfold add_torrent.
    destruct (falsy (p_magnet p)); [by left|].
    destruct lt as [e|e|handle]; simpl.
    + intros [Hl|(mgr & id & Hmgr & Hev)]; [left; by left|].
      simpl in Hmgr. simplify_eq. left. by eapply get_torrent_manager_registered.
    + intros [Hl|(mgr & id & Hmgr & Hev)]; [left; by left|].
      simpl in Hmgr. simplify_eq. left. by eapply get_torrent_manager_registered.
    + intros [Hl|(mgr & id & Hmgr & Hev)]; [left; by left|].
      simpl in Hmgr. simplify_eq. simpl in Hev. rewrite lookup_insert in Hev.
      case_decide; simplify_eq.
      * right. rewrite length_app. simpl. lia.
      * left. by eapply get_torrent_manager_registered.
  - unfold cancel_torrent_download.
    destruct (falsy id); [by left|]. simpl.
    intros [Hl|(mgr & id' & Hmgr & Hev)]; [left; by left|].
    simpl in Hmgr. simplify_eq. left. by eapply get_torrent_manager_registered.
  - unfold download_thread_step.
    destruct (threads st !! job) as [[cid url mode ev' s w|]|]; try by left.
    destruct (Downloader.download_task _ _ _ s y) as [s' sent].
    rewrite foldl_progress_sender. by left.
  - unfold watcher.
    destruct (threads st !! job) as [[cid url mode ev' [| |] [|]|]|]; try by left.
    simpl. intros [(id & j & Hj & <-)|Hr]; [|left; by right].
    simpl in Hj. unfold JobManager.unregister in Hj.
    apply lookup_delete_Some in Hj as [_ Hj].
    left. left. eauto.
  - unfold monitor_thread_step.
    destruct (threads st !! job) as [[|id m handle s]|]; try by left.
    destruct (torrent_manager st) as [mgr|] eqn:Hmgr; [|by left].
    destruct (TorrentDownloader._monitor mgr (heap st) id handle s v)
      as [[mgr' s'] sent] eqn:Hstep.
    rewrite foldl_torrent_progress_callback. simpl.
    intros [Hl|(mgr0 & id' & Hmgr0 & Hev)]; [left; by left|].
    simpl in Hmgr0. simplify_eq.
    rewrite (monitor_cancel_events _ _ _ _ _ _ _ _ _ Hstep) in Hev.
    left. right. eauto.
Qed.

Lemma benign_step (st : Sys) (a : action) :
  benign st (step py_hash DEFAULT_DL_DIR TORRENT_DL_DIR st a).
Proof.
  destruct (effect_benign_threads _ _ _
              (step_effect_step py_hash DEFAULT_DL_DIR TORRENT_DL_DIR st a))
    as [B1 B2].
  split_and!; [done|done|apply step_heap|apply step_registered].
Qed.

Lemma benign_playlist_watcher (st : Sys) (job : nat) (final_name : option string) :
  benign st (playlist_watcher st job final_name).
Proof.
  assert (benign st st) as Hrefl.
  { split_and!; [done|done| |by left]. left. exists 0. simpl. by rewrite app_nil_r. }
  unfold playlist_watcher.
  destruct (threads st !! job) as [[cid url mode ev [| |] [|]|]|] eqn:Hjob; try done.
  split_and!; simpl.
  - by rewrite length_insert.
  - intros j Hj. destruct (decide (job = j)) as [<-|Hne].
    + rewrite list_lookup_insert_eq by done. by rewrite Hjob.
    + by rewrite list_lookup_insert_ne.
  - left. exists 0. simpl. by rewrite app_nil_r.
  - intros ev0 Hev0. left. exact Hev0.
Qed.

Lemma playlist_invariant_benign (ps ps' : PSys) :
  benign (sys ps) (sys ps') -> playlist_jobs ps' = playlist_jobs ps ->
  playlist_invariant ps -> playlist_invariant ps'.
Proof.
  intros (B1 & B2 & B3 & B4) Hjobs (P1 & P2 & P3).
  assert (length (heap (sys ps)) <= length (heap (sys ps'))) as Hlen.
  { destruct B3 as [[n ->]|(ev & _ & ->)].
    - rewrite length_app. lia.
    - unfold Event.set. by rewrite length_insert. }
  split_and!.
  - intros job Hjob. rewrite Hjobs in Hjob. specialize (P1 _ Hjob). lia.
  - intros e (job & Hjob & He). rewrite Hjobs in Hjob.
    rewrite B2 in He by auto.
    destruct (P2 e) as (Hlt & Hunset & Hunreg); [by exists job|].
    split_and!.
    + lia.
    + destruct B3 as [[n ->]|(ev & Hreg & ->)].
      * unfold Event.is_set in *. by rewrite lookup_app_l.
      * unfold Event.is_set, Event.set in *.
        rewrite list_lookup_insert_ne; [done|]. by intros ->.
    + intros Hreg. destruct (B4 _ Hreg) as [Hold|Hnew]; [done|lia].
  - intros ev Hreg. destruct (B4 _ Hreg) as [Hold|Hnew]; [|lia].
    specialize (P3 _ Hold). lia.
Qed.

Lemma playlist_invariant_download_playlist (ps : PSys) (payload : playlist_payload) :
  playlist_invariant ps ->
  playlist_invariant (pstep py_hash DEFAULT_DL_DIR TORRENT_DL_DIR ps
                        (PostPlaylistDownload payload)).
Proof.
  intros (P1 & P2 & P3). simpl. unfold download_playlist.
  destruct (default [] (p_video_ids payload)) as [|vid ids] eqn:Hids.
  { simpl. rewrite (right_id_L ∅ (∪)). by destruct ps. }
  rewrite <- Hids. clear Hids vid ids.
  set (ids := default [] (p_video_ids payload)).
  set (mode := default "video" (p_playlist_mode payload)).
  cbn [fst]. rewrite start_all_spec.
  unfold playlist_invariant, playlist_event, registered_event. simpl.
  split_and!.
  - intros job [Hjob|Hjob%elem_of_set_seq]%elem_of_union;
      rewrite length_app, length_imap; [specialize (P1 _ Hjob)|]; lia.
  - intros e (job & [Hjob|Hjob%elem_of_set_seq]%elem_of_union & He).
    + pose proof (P1 _ Hjob) as Hlt. rewrite lookup_app_l in He by done.
      destruct (P2 e) as (Hlt' & Hunset & Hunreg); [by exists job|].
      split_and!; [rewrite length_app; lia| |done].
      unfold Event.is_set in *. by rewrite lookup_app_l.
    + rewrite lookup_app_r in He by lia.
      rewrite list_lookup_imap in He.
      destruct (ids !! (job - length (threads (sys ps)))) as [url|] eqn:Hurl;
        [|done].
      simpl in He. injection He as <-.
      pose proof (lookup_lt_Some _ _ _ Hurl) as Hk.
      split_and!.
      * rewrite length_app, length_replicate. lia.
      * unfold Event.is_set. rewrite lookup_app_r by lia.
        rewrite lookup_replicate_2; [done|lia].
      * intros Hreg. specialize (P3 _ Hreg). lia.
  - intros ev Hreg. specialize (P3 _ Hreg). rewrite length_app. lia.
Qed.

Lemma playlist_invariant_step (ps : PSys) (a : paction) :
  playlist_invariant ps ->
  playlist_invariant (pstep py_hash DEFAULT_DL_DIR TORRENT_DL_DIR ps a).
Proof.
  intros Hinv. destruct a as [a|payload];
    [|by apply playlist_invariant_download_playlist].
  assert (forall st', benign (sys ps) st' ->
            playlist_invariant {| sys := st'; playlist_jobs := playlist_jobs ps |})
    as Hb.
  { intros st' Hb. by eapply playlist_invariant_benign. }
  assert (forall a0,
            playlist_invariant
              {| sys := step py_hash DEFAULT_DL_DIR TORRENT_DL_DIR (sys ps) a0;
                 playlist_jobs := playlist_jobs ps |}) as Hstep.
  { intros a0. apply Hb, benign_step. }
  destruct a as [p|id|p lt|id|job y|job final_name|job v]; try apply Hstep.
  cbn [pstep]. destruct (decide (job ∈ playlist_jobs ps)).
  - apply Hb, benign_playlist_watcher.
  - apply (Hstep (WatcherJoined job final_name)).
Qed.

Lemma playlist_invariant_run (l : list paction) (ps : PSys) :
  playlist_invariant ps ->
  playlist_invariant (prun py_hash DEFAULT_DL_DIR TORRENT_DL_DIR ps l).
Proof.
  revert ps. induction l as [|a l IH]; intros ps Hinv; [done|].
  simpl. apply IH. by apply playlist_invariant_step.
Qed.

(** X16: a playlist download cannot be cancelled.  In every state the
    process can reach, the Event polled by a thread that
    [download_playlist] started is unset and is held by neither registry,
    so no request to [POST /cancel] or [POST /torrent/cancel] ever sets
    it. *)
Theorem playlist_jobs_never_cancelled (l : list paction) (job : nat)
    (client_id url mode : string) (cancel_event : nat)
    (s : Downloader.task_state) (w : bool) :
  let ps := prun py_hash DEFAULT_DL_DIR TORRENT_DL_DIR pinitial l in
  job ∈ playlist_jobs ps ->
  threads (sys ps) !! job = Some (DownloadThread client_id url mode cancel_event s w) ->
  Event.is_set cancel_event (heap (sys ps)) = false
  /\ ~ registered_event (sys ps) cancel_event.
Proof.
  intros ps Hjob Hth.
  assert (playlist_invariant pinitial) as Hinit.
  { split_and!.
    - intros j Hj. simpl in Hj. by apply elem_of_empty in Hj.
    - intros e (j & Hj & _). simpl in Hj. by apply elem_of_empty in Hj.
    - intros ev [(id & j & Hj & _)|(mgr & id & Hmgr & _)]; simpl in *; [|done].
      by rewrite lookup_empty in Hj. }
  destruct (playlist_invariant_run l pinitial Hinit) as (_ & P2 & _).
  destruct (P2 cancel_event) as (_ & Hunset & Hunreg); [|done].
  exists job. split; [done|]. fold ps. by rewrite Hth.
Qed.

End PlaylistFacts.

Lemma playlist_jobs_never_cancelled_witness :
  Event.is_set 0
    (heap (sys (prun Scenario.hash Scenario.downloads Scenario.torrents pinitial
                  playlist_scenario))) = false
  /\ ~ registered_event
         (sys (prun Scenario.hash Scenario.downloads Scenario.torrents pinitial
                 playlist_scenario)) 0.
Proof.
  apply (playlist_jobs_never_cancelled Scenario.hash Scenario.downloads
           Scenario.torrents playlist_scenario 0 "playlist_0"
           "http://example.com/a" "video" 0 (Downloader.Transferring "a" None) false).
  - refine (bool_decide_unpack _ _). by vm_compute.
  - reflexivity.
Defined.

(** ** After a cancellation *)

Lemma download_task_cancelled (dir mode : string) (s s' : Downloader.task_state)
    (y : Downloader.ydl_step) (sent : list msg) :
  Downloader.download_task dir mode true s y = (s', sent) ->
  (s' = s /\ sent = [])
  \/ (s <> Downloader.Exited /\ s' = Downloader.Exited
      /\ exists t, sent = [t] /\ task_terminal t).
Proof.
  unfold Downloader.download_task, Downloader.progress_hook, task_terminal.
  intros H. destruct s, y; simplify_eq; first [by left | right; naive_solver].
Qed.

Section AfterCancel.

Variable py_hash : string -> Z.
Variable DEFAULT_DL_DIR : string.
Variable TORRENT_DL_DIR : string.

Lemma after_cancel_step (st : Sys) (a : action) (job : nat)
    (c u m : string) (e : nat) (s0 s : Downloader.task_state) (w : bool)
    (base extra : list msg) :
  sends_on_own_channel st ->
  Event.is_set e (heap st) = true ->
  s0 <> Downloader.Exited ->
  threads st !! job = Some (DownloadThread c u m e s w) ->
  job_messages st job = base ++ extra ->
  after_cancel s0 s w extra ->
  exists s' w' extra',
    threads (step py_hash DEFAULT_DL_DIR TORRENT_DL_DIR st a) !! job
    = Some (DownloadThread c u m e s' w')
    /\ job_messages (step py_hash DEFAULT_DL_DIR TORRENT_DL_DIR st a) job
       = base ++ extra'
    /\ after_cancel s0 s' w' extra'.
Proof.
  intros Hch Hset Hs0 Hjob Hmsg Hac.
  destruct (evolves_step py_hash DEFAULT_DL_DIR TORRENT_DL_DIR st a)
    as (_ & _ & _ & _ & Hth & _).
  destruct (Hth _ _ Hjob) as (t' & Hjob' & Hadv).
  destruct (job_messages_effect _ _ _ _ _
              (step_effect_step py_hash DEFAULT_DL_DIR TORRENT_DL_DIR st a) Hch Hjob')
    as [(_ & Hnone & _)|[[Hold Hsame]|(t & sent & rows & Hold & Htr & Hnew)]].
  - by rewrite Hjob in Hnone.
  - rewrite Hjob in Hold. simplify_eq. exists s, w, extra.
    split_and!; [done|congruence|done].
  - rewrite Hjob in Hold. simplify_eq. rewrite Hnew, Hmsg, <- app_assoc.
    inversion Htr as [c0 u0 m0 e0 s1 w1 y s' sent0 Hstep|c0 u0 m0 e0 n|]; subst.
    + rewrite Hset in Hstep.
      apply download_task_cancelled in Hstep
        as [[-> ->]|(Hrun & -> & t & -> & Hterm)].
      * exists s, w, extra. by rewrite app_nil_r.
      * exists Downloader.Exited, w, (extra ++ [t]). split_and!; [done..|].
        destruct Hac as [(-> & -> & ->)|(-> & _)]; [|done].
        right. split; [done|]. exists t. split; [done|]. by left.
    + exists Downloader.Exited, true, (extra ++ [MsgWatcherFinished n]).
      split_and!; [done..|].
      destruct Hac as [(<- & _)|(_ & t & Hterm & [[_ ->]|(n' & ? & _)])]; try done.
      right. split; [done|]. exists t. split; [done|]. right. by exists n.
Qed.

Lemma after_cancel_run (st0 : Sys) (l2 : list action) (job : nat)
    (client_id url mode : string) (cancel_event : nat) (s0 : Downloader.task_state) :
  sends_on_own_channel st0 ->
  threads st0 !! job
  = Some (DownloadThread client_id url mode cancel_event s0 false) ->
  s0 <> Downloader.Exited ->
  Event.is_set cancel_event (heap st0) = true ->
  exists s w extra,
    threads (run py_hash DEFAULT_DL_DIR TORRENT_DL_DIR st0 l2) !! job
    = Some (DownloadThread client_id url mode cancel_event s w)
    /\ job_messages (run py_hash DEFAULT_DL_DIR TORRENT_DL_DIR st0 l2) job
       = job_messages st0 job ++ extra
    /\ after_cancel s0 s w extra.
Proof.
  intros Hch Hjob Hs0 Hset.
  induction l2 as [|a l2 IH] using rev_ind.
  - exists s0, false, []. simpl. rewrite app_nil_r. split_and!; [done..|]. by left.
  - destruct IH as (s & w & extra & Hth & Hmsg & Hac).
    unfold run in *. rewrite foldl_app. simpl.
    eapply after_cancel_step; try done.
    + by apply sends_on_own_channel_run.
    + destruct (evolves_run py_hash DEFAULT_DL_DIR TORRENT_DL_DIR st0 l2)
        as (Hev & _). by apply Hev.
Qed.

(** With its Event set, every step the worker can take ends it on one
    terminal event. *)
Lemma cancelled_worker_step (st : Sys) (job : nat) (c u m : string) (e : nat)
    (s : Downloader.task_state) (y : Downloader.ydl_step) :
  threads st !! job = Some (DownloadThread c u m e s false) ->
  Event.is_set e (heap st) = true ->
  enabled s y = true ->
  exists t,
    task_terminal t
    /\ threads (step py_hash DEFAULT_DL_DIR TORRENT_DL_DIR st (Ydl job y)) !! job
       = Some (DownloadThread c u m e Downloader.Exited false)
    /\ job_messages (step py_hash DEFAULT_DL_DIR TORRENT_DL_DIR st (Ydl job y)) job
       = job_messages st job ++ [t].
Proof.
  intros Hjob Hset Hen. pose proof (lookup_lt_Some _ _ _ Hjob) as Hlt.
  assert (exists t, task_terminal t
            /\ Downloader.download_task DEFAULT_DL_DIR m true s y
               = (Downloader.Exited, [t])) as (t & Hterm & Hstep).
  { unfold task_terminal.
    destruct s, y; try discriminate Hen; simpl; eexists; (split; [|reflexivity]);
      eauto. }
  exists t. split; [done|].
  cbn [step]. unfold download_thread_step. rewrite Hjob, Hset, Hstep.
  rewrite foldl_progress_sender. unfold job_messages. cbn [threads ws_log set_thread].
  split; [by rewrite list_lookup_insert_eq by done|].
  rewrite filter_app, fmap_app. f_equal.
  rewrite messages_tagged. by rewrite decide_True by done.
Qed.

(** X17: a cancellation stops a media job at its next step.  Take any
    reachable state in which the Event of a media job is set while its
    worker still runs.  Whatever happens next, the job sends no further
    progress event: its trace grows by nothing until the worker's next
    step, and after the worker's end only by the watcher's notification.
    And as long as the worker has not ended, every step it can take (the
    return of [extract_info], a call of the progress hook, the return of
    [download], an exception of yt-dlp) ends it, sending exactly one
    terminal event. *)
Theorem cancelled_job_stops (l1 l2 : list action) (job : nat)
    (client_id url mode : string) (cancel_event : nat) (s0 : Downloader.task_state) :
  let st0 := run py_hash DEFAULT_DL_DIR TORRENT_DL_DIR initial l1 in
  let st := run py_hash DEFAULT_DL_DIR TORRENT_DL_DIR st0 l2 in
  threads st0 !! job
  = Some (DownloadThread client_id url mode cancel_event s0 false) ->
  s0 <> Downloader.Exited ->
  Event.is_set cancel_event (heap st0) = true ->
  exists s w extra,
    threads st !! job = Some (DownloadThread client_id url mode cancel_event s w)
    /\ job_messages st job = job_messages st0 job ++ extra
    /\ after_cancel s0 s w extra
    /\ (s <> Downloader.Exited ->
        forall y, enabled s y = true ->
          let st' := step py_hash DEFAULT_DL_DIR TORRENT_DL_DIR st (Ydl job y) in
          exists t,
            task_terminal t
            /\ threads st' !! job
               = Some (DownloadThread client_id url mode cancel_event
                         Downloader.Exited false)
            /\ job_messages st' job = job_messages st0 job ++ [t]).
Proof.
  intros st0 st Hjob Hs0 Hset.
  assert (sends_on_own_channel st0) as Hch.
  { apply sends_on_own_channel_run. constructor. }
  destruct (after_cancel_run st0 l2 job _ _ _ _ _ Hch Hjob Hs0 Hset)
    as (s & w & extra & Hth & Hmsg & Hac).
  exists s, w, extra. split_and!; [done..|].
  intros Hs y Hen st'.
  destruct Hac as [(-> & -> & ->)|(-> & _)]; [|done].
  rewrite app_nil_r in Hmsg. rewrite <- Hmsg.
  eapply cancelled_worker_step; [exact Hth| |done].
  destruct (evolves_run py_hash DEFAULT_DL_DIR TORRENT_DL_DIR st0 l2) as (Hev & _).
  by apply Hev.
Qed.

End AfterCancel.

Lemma cancelled_job_stops_witness :
  exists t,
    task_terminal t
    /\ threads (Scenario.reach (take 6 Scenario.cancel_mid_transfer)) !! 0
       = Some (DownloadThread "m1" "http://example.com/v" "video" 0
                 Downloader.Exited false)
    /\ job_messages (Scenario.reach (take 6 Scenario.cancel_mid_transfer)) 0
       = job_messages (Scenario.reach (take 5 Scenario.cancel_mid_transfer)) 0 ++ [t].
Proof.
  destruct (cancelled_job_stops Scenario.hash Scenario.downloads Scenario.torrents
              (take 5 Scenario.cancel_mid_transfer) [] 0 "m1" "http://example.com/v"
              "video" 0 (Downloader.Transferring "clip" (Some "webm"))
              eq_refl ltac:(discriminate) eq_refl)
    as (s & w & extra & Hth & _ & _ & Hnext).
  assert (s = Downloader.Transferring "clip" (Some "webm")) as ->.
  { vm_compute in Hth. congruence. }
  exact (Hnext ltac:(discriminate)
           (Downloader.Hook (Scenario.downloading (PInt 2048) (PInt 1))) eq_refl).
Defined.

(** ** The phases of a media job *)

Lemma progress_hook_progress (d : gmap string pyval) (c : bool) :
  match Downloader.progress_hook d c with
  | Downloader.HookRaise _ => True
  | Downloader.HookReturn sent => Forall (fun m => is_media_progress m = true) sent
  end.
Proof.
  unfold Downloader.progress_hook. destruct c; [done|].
  destruct (d !! "status") as [st|]; [|done].
  repeat case_decide; repeat constructor.
Qed.

Lemma download_task_phases (dir mode : string) (c : bool)
    (s s' : Downloader.task_state) (y : Downloader.ydl_step) (old sent : list msg) :
  media_phases dir s false old ->
  Downloader.download_task dir mode c s y = (s', sent) ->
  media_phases dir s' false (old ++ sent).
Proof.
  intros Hold Hstep. unfold media_end.
  destruct s as [|stem ext|]; simpl in Hold.
  - destruct Hold as [_ ->].
    destruct y; simpl in Hstep; try (inversion Hstep; subst; done).
    + destruct c; inversion Hstep; subst; simpl; [|done].
      exists [], MsgCancelled. split_and!; [constructor|by left|done].
    + inversion Hstep; subst. simpl. exists [], (MsgError e).
      split_and!; [constructor|right; left; by exists e|done].
  - destruct Hold as [_ Hold].
    destruct y; simpl in Hstep;
      try (inversion Hstep; subst; rewrite app_nil_r; done).
    + pose proof (progress_hook_progress d c) as Hq.
      destruct (Downloader.progress_hook d c) as [e|out]; inversion Hstep; subst; simpl.
      * exists old, (MsgError e). split_and!; [done|right; left; by exists e|done].
      * split; [done|]. by apply Forall_app.
    + inversion Hstep; subst. simpl. eexists old, _.
      split_and!; [done| |reflexivity]. right. right. by eexists.
    + inversion Hstep; subst. simpl. exists old, (MsgError e).
      split_and!; [done|right; left; by exists e|done].
  - simpl in Hstep. destruct y; inversion Hstep; subst; by rewrite app_nil_r.
Qed.

Lemma worker_phases_effect (dir : string) (st st' : Sys) :
  step_effect dir st st' -> sends_on_own_channel st ->
  worker_phases dir st -> worker_phases dir st'.
Proof.
  intros Heff Hch Hinv job c u m e s' w' Hjob.
  destruct (job_messages_effect _ _ _ _ _ Heff Hch Hjob)
    as [(Hst & _ & ->)|[[Hold ->]|(t & sent & rows & Hold & Htr & ->)]].
  - simpl in Hst. destruct Hst as [-> ->]. by split.
  - by eapply Hinv.
  - inversion Htr as [c0 u0 m0 e0 s w y s1 sent0 Hstep|c0 u0 m0 e0 n|]; subst.
    + specialize (Hinv _ _ _ _ _ _ _ Hold).
      destruct w'.
      * destruct s; simpl in Hinv; [by destruct Hinv..|].
        apply (f_equal fst) in Hstep as Hs. apply (f_equal snd) in Hstep as Hsent.
        destruct y; simpl in Hs, Hsent; subst; by rewrite app_nil_r.
      * by eapply download_task_phases.
    + specialize (Hinv _ _ _ _ _ _ _ Hold). simpl in *.
      destruct Hinv as (p & t & Hp & Hend & ->).
      exists p, t. split_and!; [done..|]. exists n. by rewrite <- app_assoc.
Qed.

Section MediaPhases.

Variable py_hash : string -> Z.
Variable DEFAULT_DL_DIR : string.
Variable TORRENT_DL_DIR : string.

Lemma worker_phases_run (l : list action) (st : Sys) :
  sends_on_own_channel st -> worker_phases DEFAULT_DL_DIR st ->
  worker_phases DEFAULT_DL_DIR (run py_hash DEFAULT_DL_DIR TORRENT_DL_DIR st l).
Proof.
  revert st. induction l as [|a l IH]; intros st Hch Hinv; [done|].
  simpl. apply IH.
  - eapply sends_on_own_channel_effect; [apply step_effect_step|done].
  - eapply worker_phases_effect; [apply step_effect_step|done|done].
Qed.

(** X18: the trace of a media job follows the phases of [download_task].
    Nothing is sent while yt-dlp extracts the information.  During the
    transfer only [downloading] and [processing] events are sent.  The
    worker ends on [cancelled] only when it has sent nothing before, on an
    [error], or on a [finished] event that names a file inside the
    download directory; the watcher's notification comes after that and
    only then. *)
Theorem media_job_phases (l : list action) (job : nat)
    (client_id url mode : string) (cancel_event : nat)
    (s : Downloader.task_state) (w : bool) :
  threads (run py_hash DEFAULT_DL_DIR TORRENT_DL_DIR initial l) !! job
  = Some (DownloadThread client_id url mode cancel_event s w) ->
  media_phases DEFAULT_DL_DIR s w
    (job_messages (run py_hash DEFAULT_DL_DIR TORRENT_DL_DIR initial l) job).
Proof.
  apply worker_phases_run.
  - constructor.
  - intros j c u m e s0 w0 H. simpl in H. by rewrite lookup_nil in H.
Qed.

End MediaPhases.

Lemma media_job_phases_witness :
  media_phases Scenario.downloads Downloader.Exited true
    (job_messages (Scenario.reach Scenario.media_happy_path) 0).
Proof.
  apply (media_job_phases Scenario.hash Scenario.downloads Scenario.torrents
           Scenario.media_happy_path 0 "m1" "http://example.com/v" "video" 0).
  reflexivity.
Defined.

(** ** The history row of a finished torrent *)

Lemma string_app_cons (a : ascii) (s t : string) :
  String a s +:+ t = String a (s +:+ t).
Proof. reflexivity. Qed.

Lemma string_app_nil_r (s : string) : s +:+ EmptyString = s.
Proof.
  induction s as [|a s IH]; [done|]. by rewrite string_app_cons, IH.
Qed.

Lemma string_app_snoc (acc : string) (c : ascii) (s : string) :
  (acc +:+ String c EmptyString) +:+ s = acc +:+ String c s.
Proof.
  induction acc as [|a acc IH]; [done|]. by rewrite !string_app_cons, IH.
Qed.

Lemma string_app_assoc (a b c : string) : (a +:+ b) +:+ c = a +:+ (b +:+ c).
Proof.
  induction a as [|x a IH]; [done|]. by rewrite !string_app_cons, IH.
Qed.

Lemma split_slash_from_no_slash (s acc : string) :
  string_forall (fun c => negb (Ascii.eqb c "/")) s = true ->
  split_slash_from acc s = [acc +:+ s].
Proof.
  revert acc. induction s as [|c s IH]; intros acc H; simpl in *.
  - by rewrite string_app_nil_r.
  - apply andb_prop in H as [Hc Hs]. apply negb_true_iff in Hc. rewrite Hc.
    rewrite IH by done. by rewrite string_app_snoc.
Qed.

Lemma split_slash_from_app (y rest acc : string) :
  split_slash_from acc (y +:+ String "/" rest)
  = split_slash_from acc y ++ split_slash rest.
Proof.
  revert acc. induction y as [|c y IH]; intros acc.
  - reflexivity.
  - rewrite string_app_cons. simpl. destruct (Ascii.eqb c "/").
    + rewrite IH. reflexivity.
    + apply IH.
Qed.

Lemma path_parts_plain (name : string) :
  plain_name name = true -> path_parts name = [name].
Proof.
  unfold plain_name, path_parts, split_slash. intros [Hs Hk]%andb_prop.
  rewrite split_slash_from_no_slash by done.
  change (EmptyString +:+ name) with name. cbn [List.filter]. by rewrite Hk.
Qed.

Lemma path_name_plain (name : string) :
  plain_name name = true -> path_name name = name.
Proof. intros H. unfold path_name. by rewrite path_parts_plain. Qed.

Lemma path_name_under (y name : string) :
  plain_name name = true -> path_name (y +:+ String "/" name) = name.
Proof.
  intros H. unfold path_name, path_parts, split_slash.
  rewrite split_slash_from_app, List.filter_app.
  fold (path_parts name). rewrite path_parts_plain by done.
  by rewrite last_snoc.
Qed.

Lemma path_root_plain (name : string) :
  plain_name name = true -> path_root name = EmptyString.
Proof.
  unfold plain_name, path_root. intros [Hs _]%andb_prop.
  destruct name as [|c name]; [done|]. simpl in *.
  apply andb_prop in Hs as [Hc _]. apply negb_true_iff in Hc. by rewrite Hc.
Qed.

Lemma join_slash_snoc (parts : list string) (c : string) :
  parts <> [] -> join_slash (parts ++ [c]) = join_slash parts +:+ String "/" c.
Proof.
  induction parts as [|x parts IH]; [done|]. intros _.
  destruct parts as [|y parts]; [reflexivity|].
  change (x +:+ String "/" (join_slash ((y :: parts) ++ [c]))
          = (x +:+ String "/" (join_slash (y :: parts))) +:+ String "/" c).
  rewrite IH by done. by rewrite string_app_assoc.
Qed.

Lemma path_root_cases (p : string) :
  path_root p = "" \/ path_root p = "/" \/ path_root p = "//".
Proof.
  unfold path_root. destruct (leading_slashes p) as [|[|[|n]]]; auto.
Qed.

(** Joining a plain name to any directory gives the name itself or a path
    that ends with a slash and the name. *)
Lemma path_join_plain (dir name : string) :
  plain_name name = true ->
  path_join dir name = name
  \/ exists y, path_join dir name = y +:+ String "/" name.
Proof.
  intros H. unfold path_join.
  rewrite (path_root_plain name H), (path_parts_plain name H).
  cbn [String.eqb]. destruct (path_parts dir) as [|x parts] eqn:Hparts.
  - simpl. destruct (path_root_cases dir) as [->|[->| ->]].
    + by left.
    + right. by exists "".
    + right. by exists "/".
  - right. exists (path_root dir +:+ join_slash (x :: parts)).
    change (path_root dir +:+ join_slash ((x :: parts) ++ [name])
            = (path_root dir +:+ join_slash (x :: parts)) +:+ String "/" name).
    rewrite join_slash_snoc by done. by rewrite string_app_assoc.
Qed.

Lemma path_name_join (dir name : string) :
  plain_name name = true -> path_name (path_join dir name) = name.
Proof.
  intros H. destruct (path_join_plain dir name H) as [->|[y ->]].
  - by apply path_name_plain.
  - by apply path_name_under.
Qed.

Lemma path_join_nonempty (dir name : string) :
  plain_name name = true -> String.eqb (path_join dir name) "" = false.
Proof.
  intros H. apply String.eqb_neq.
  destruct (path_join_plain dir name H) as [->|[y ->]].
  - intros ->. done.
  - intros Hy. apply (f_equal String.length) in Hy.
    rewrite length_string_app in Hy. simpl in Hy. lia.
Qed.

(** What pathlib does where joining is not concatenation: an empty name or
    a single dot adds nothing, doubled and trailing slashes go, an absolute
    name replaces the directory, and the name of a path ignores a trailing
    slash. *)
Lemma path_join_pathlib :
  path_join "/home/u/Downloads/Torrents" "" = "/home/u/Downloads/Torrents"
  /\ path_name (path_join "/home/u/Downloads/Torrents" ".") = "Torrents"
  /\ path_join "/a//b/" "./c" = "/a/b/c"
  /\ path_join "/a" "/etc/x" = "/etc/x"
  /\ path_join "//a" "b" = "//a/b"
  /\ path_join "///a" "b" = "/a/b"
  /\ path_join "" "" = "."
  /\ path_join "a" ".." = "a/.."
  /\ path_name "dir/" = "dir"
  /\ path_name "/" = "".
Proof. by vm_compute. Qed.

(** X19: the history row of a finished torrent.  When the monitor of a
    torrent finds it seeding, the callback adds exactly one row to the
    history: it carries the torrent's identifier and magnet link, mode
    torrent, status completed, and as file name the torrent's own name,
    recovered from the save path, provided that name is a plain file name:
    it holds no slash and is neither empty nor a single dot. *)
Theorem finished_torrent_history (st : Sys) (job : nat) (id magnet_link : string)
    (handle : nat) (info : TorrentDownloader.torrent_info)
    (mgr : TorrentDownloader.t) (v : TorrentDownloader.handle_view) :
  threads st !! job
  = Some (MonitorThread id magnet_link handle (TorrentDownloader.DownloadPhase info)) ->
  torrent_manager st = Some mgr ->
  TorrentDownloader.is_seed v = true ->
  plain_name (TorrentDownloader.name info) = true ->
  history (monitor_thread_step st job v)
  = history st
    ++ [{| h_id := id; h_url := magnet_link;
           h_filename := Some (TorrentDownloader.name info);
           h_mode := "torrent"; h_status := "completed" |}].
Proof.
  intros Hjob Hmgr Hseed Hname. unfold monitor_thread_step.
  rewrite Hjob, Hmgr. cbn [TorrentDownloader._monitor]. rewrite Hseed.
  rewrite foldl_torrent_progress_callback. cbn [history].
  f_equal. cbn [flat_map]. unfold callback_history.
  rewrite decide_True by done. rewrite decide_False by done.
  cbn [msg_save_path app]. by rewrite path_join_nonempty, path_name_join.
Qed.

Lemma finished_torrent_history_witness :
  history (Scenario.reach Scenario.torrent_happy_path)
  = history (Scenario.reach (take 4 Scenario.torrent_happy_path))
    ++ [{| h_id := "t1"; h_url := Scenario.magnet_a;
           h_filename := Some "ubuntu.iso";
           h_mode := "torrent"; h_status := "completed" |}].
Proof.
  exact (finished_torrent_history
           (Scenario.reach (take 4 Scenario.torrent_happy_path)) 0 "t1"
           Scenario.magnet_a 0 Scenario.iso
           {| TorrentDownloader.download_dir := Scenario.torrents;
              TorrentDownloader.session := {[0]} ∪ ∅;
              TorrentDownloader.handles := <["t1" := 0]> ∅;
              TorrentDownloader.cancel_events := <["t1" := 0]> ∅ |}
           (Scenario.view true true (Scenario.status_at 1 0 1000 1000))
           eq_refl eq_refl eq_refl eq_refl).
Defined.

(** ** The figures of [get_status] *)

(** X20: what [get_status] reports for a known torrent.  When the engine's
    progress is a fraction between 0 and 1, the reported progress is a
    whole number of hundredths of a percent between 0 and 100, the one
    nearest to the engine's figure, and it is the value a [downloading]
    event carries for the same status; the rate and the peers are the
    engine's. *)
Theorem get_status_percentage (self : TorrentDownloader.t) (id : string)
    (status_of : nat -> TorrentDownloader.torrent_status) (handle : nat) :
  TorrentDownloader.handles self !! id = Some handle ->
  (0 <= TorrentDownloader.progress (status_of handle) <= 1)%Q ->
  exists k : Z,
    (0 <= k <= 10000)%Z
    /\ (inject_Z k - TorrentDownloader.progress (status_of handle) * 10000 <= 1 # 2)%Q
    /\ (TorrentDownloader.progress (status_of handle) * 10000 - inject_Z k <= 1 # 2)%Q
    /\ percent (TorrentDownloader.progress (status_of handle)) = (inject_Z k / 100)%Q
    /\ TorrentDownloader.get_status self id status_of
       = TorrentDownloader.StatusOf (inject_Z k / 100)
           (TorrentDownloader.download_rate (status_of handle))
           (TorrentDownloader.num_peers (status_of handle)).
Proof.
  intros Hh [Hlo Hhi]. unfold TorrentDownloader.get_status. rewrite Hh.
  set (p := TorrentDownloader.progress (status_of handle)) in *.
  exists (round_half_even (p * 100 * 100)).
  destruct (round_half_even_close (p * 100 * 100)) as [C1 C2].
  split_and!; [| |lra|lra|done|done].
  - rewrite <- (round_half_even_inject_Z 0). apply round_half_even_mono.
    change (inject_Z 0) with 0%Q. lra.
  - rewrite <- (round_half_even_inject_Z 10000). apply round_half_even_mono.
    assert (inject_Z 10000 == 10000)%Q by reflexivity. lra.
Qed.

Lemma get_status_percentage_witness :
  exists k : Z,
    (0 <= k <= 10000)%Z
    /\ (inject_Z k - (1 # 3) * 10000 <= 1 # 2)%Q
    /\ ((1 # 3) * 10000 - inject_Z k <= 1 # 2)%Q
    /\ percent (1 # 3) = (inject_Z k / 100)%Q
    /\ TorrentDownloader.get_status
         {| TorrentDownloader.download_dir := Scenario.torrents;
            TorrentDownloader.session := {[0]};
            TorrentDownloader.handles := <["t1" := 0]> ∅;
            TorrentDownloader.cancel_events := <["t1" := 0]> ∅ |}
         "t1" (fun _ => Scenario.status_at (1 # 3) 100 1000 333)
       = TorrentDownloader.StatusOf (inject_Z k / 100) 100 4.
Proof.
  apply (get_status_percentage
           {| TorrentDownloader.download_dir := Scenario.torrents;
              TorrentDownloader.session := {[0]};
              TorrentDownloader.handles := <["t1" := 0]> ∅;
              TorrentDownloader.cancel_events := <["t1" := 0]> ∅ |}
           "t1" (fun _ => Scenario.status_at (1 # 3) 100 1000 333) 0).
  - reflexivity.
  - split; discriminate.
Defined.
